(** * Diversity sampling (diversity_sampling.py): a shallow embedding

    The development follows the Python module function by function:
    [get_random_items], [get_rank], [get_cluster_samples],
    [get_representative_samples], [get_adaptive_representative_samples]
    and [get_model_outliers].

    Conventions of the embedding.
    - In the functions that work on items the Python floats are exact
      rationals ([Q]) and equality of floats is [Qeq]: this is what the
      statements that equate a result with the expression of the code
      need.  What depends on rounding and overflow, the range of the
      scores and the monotonicity of [get_rank], is stated on the module
      [Double], where the arithmetic rounds, overflows to an infinity and
      can give NaN; [get_rank_exact] relates the two.
    - A Python exception is an explicit [Raise] in the [result] type, and
      sequencing is the usual error monad.
    - Items are Python lists [[ID, TEXT, LABEL, SAMPLING_STRATEGY,
      CONFIDENCE]] that the functions mutate in place and share between
      lists.  They live in a [heap] and lists hold references.  The lists
      handed to one call are different list objects; what a call does to
      a list of its caller is part of what it returns.
    - [random.shuffle] is the Fisher-Yates loop of the Python library,
      reading its draws from a tape of naturals. *)

From Stdlib Require Import QArith Qabs Lqa.
From stdpp Require Import gmap strings list sorting pretty.

Set Default Proof Using "Type".

(** ** Python results *)

Inductive exn : Set :=
  | ZeroDivisionError
  | IndexError
  | ValueError.

Inductive result (A : Type) : Type :=
  | Ok (a : A)
  | Raise (e : exn).

Arguments Ok {A} a.
Arguments Raise {A} e.

Definition bind {A B : Type} (x : result A) (f : A -> result B) : result B :=
  match x with
  | Ok a => f a
  | Raise e => Raise e
  end.

Notation "'let!' x ':=' c1 'in' c2" := (bind c1 (fun x => c2))
  (at level 10, x pattern, c1 at level 100, c2 at level 200).

(** [returns x q]: the call [x] returns a float equal to [q]. *)
Definition returns (x : result Q) (q : Q) : Prop :=
  match x with
  | Ok r => (r == q)%Q
  | Raise _ => False
  end.

(** ** Python primitives on floats and lists *)

Definition Qltb (a b : Q) : bool := negb (Qle_bool b a).

Definition Q_of_nat (n : nat) : Q := inject_Z (Z.of_nat n).

(** [a / b] on numbers: raises [ZeroDivisionError] when [b] is zero. *)
Definition py_div (a b : Q) : result Q :=
  if Qeq_bool b 0 then Raise ZeroDivisionError else Ok (a / b)%Q.

(** [l[i]] for [0 <= i]: raises [IndexError] out of range. *)
Definition py_index {A : Type} (l : list A) (i : nat) : result A :=
  match l !! i with
  | Some x => Ok x
  | None => Raise IndexError
  end.

(** [l[:n]] for an integer [n]: a negative [n] counts from the end. *)
Definition py_slice_to {A : Type} (n : Z) (l : list A) : list A :=
  if (n <? 0)%Z then take (Z.to_nat (Z.of_nat (length l) + n)) l
  else take (Z.to_nat n) l.

(** ** [get_rank] *)

(** The [for ranked_number in rankings] loop: [index] counts the entries
    passed before the first one that is greater than [value]. *)
Fixpoint rank_scan (value : Q) (rankings : list Q) (index : nat) : nat :=
  match rankings with
  | [] => index
  | ranked_number :: rest =>
      if Qltb value ranked_number then index
      else rank_scan value rest (S index)
  end.

Definition get_rank (value : Q) (rankings : list Q) : result Q :=
  let index := rank_scan value rankings 0 in
  let! index' :=
    (if (length rankings <=? index)%nat then
       Ok (Q_of_nat (length rankings))
     else if (0 <? index)%nat then
       let! hi := py_index rankings index in
       let! lo := py_index rankings (index - 1) in
       let diff := (hi - lo)%Q in
       let perc := (value - lo)%Q in
       let! linear := py_div perc diff in
       Ok (Q_of_nat (index - 1) + linear)%Q
     else
       Ok (Q_of_nat index)) in
  py_div index' (Q_of_nat (length rankings)).

(** *** The percentile rank of the specification

    These definitions follow the words of the specification, not the
    code: the insertion position is found by counting (the result of a
    binary search in a sorted list), the test [idx == 0] comes first, and
    a zero denominator gives the fraction 0. *)

Definition is_insertion_position (idx : nat) (value : Q) (rankings : list Q) : Prop :=
  (idx <= length rankings)%nat /\
  (forall j x, (j < idx)%nat -> rankings !! j = Some x -> (x <= value)%Q) /\
  (forall x, rankings !! idx = Some x -> (value < x)%Q).

Definition insertion_position (value : Q) (sorted_rankings : list Q) : nat :=
  length (List.filter (fun x => Qle_bool x value) sorted_rankings).




(** ** Items, the heap and the globals

    An item is the Python list [[ID, TEXT, LABEL, SAMPLING_STRATEGY,
    CONFIDENCE]].  The data sets are lists of references to items, so that
    a write through one list is seen through every other list that holds
    the same item. *)

Record item : Type := Item {
  textid : string;      (* item[0] *)
  text : string;        (* item[1] *)
  label : string;       (* item[2] *)
  strategy : string;    (* item[3] *)
  score : Q             (* item[4], a number *)
}.

Definition ref : Set := nat.
Definition heap : Type := ref -> item.

(** [item[3] = s] and [item[4] = q] on the item that [r] refers to. *)
Definition set_strategy (h : heap) (r : ref) (s : string) : heap :=
  fun r' =>
    if (r' =? r)%nat
    then Item (textid (h r)) (text (h r)) (label (h r)) s (score (h r))
    else h r'.

Definition set_score (h : heap) (r : ref) (q : Q) : heap :=
  fun r' =>
    if (r' =? r)%nat
    then Item (textid (h r)) (text (h r)) (label (h r)) (strategy (h r)) q
    else h r'.

(** [==] on two items, field by field. *)
Definition item_eqb (a b : item) : bool :=
  String.eqb (textid a) (textid b) && String.eqb (text a) (text b)
  && String.eqb (label a) (label b) && String.eqb (strategy a) (strategy b)
  && Qeq_bool (score a) (score b).

(** The global dictionary [already_labeled] and the test [textid in
    already_labeled]. *)
Definition in_already_labeled (already_labeled : gmap string string)
    (id : string) : bool :=
  bool_decide (is_Some (already_labeled !! id)).

(** ** [random.shuffle]

    The draws of the generator are a tape of naturals; [randbelow n] reads
    one draw and reduces it below [n]. *)

Definition rng : Set := list nat.

Definition randbelow (g : rng) (n : nat) : nat * rng :=
  match g with
  | [] => (0%nat, [])
  | d :: g' => ((d mod n)%nat, g')
  end.

(** [x[i], x[j] = x[j], x[i]] *)
Definition swap {A : Type} (i j : nat) (x : list A) : list A :=
  match x !! i, x !! j with
  | Some a, Some b => <[j := a]> (<[i := b]> x)
  | _, _ => x
  end.

(** [for i in reversed(range(1, len(x))): j = randbelow(i + 1); swap] *)
Fixpoint shuffle_from {A : Type} (i : nat) (g : rng) (x : list A) : list A * rng :=
  match i with
  | O => (x, g)
  | S i' =>
      let '(j, g') := randbelow g (S i) in
      shuffle_from i' g' (swap i j x)
  end.

Definition shuffle {A : Type} (g : rng) (x : list A) : list A * rng :=
  shuffle_from (length x - 1) g x.

(** ** [list.sort]

    Python's sort is stable, also with [reverse=True].  It is modelled by
    insertion: an element goes in front of the elements to its right that
    do not come strictly before it. *)

Fixpoint insert_asc (x : Q) (l : list Q) : list Q :=
  match l with
  | [] => [x]
  | y :: l' => if Qltb y x then y :: insert_asc x l' else x :: l
  end.

(** [validation.sort()] *)
Definition sort_asc (l : list Q) : list Q := foldr insert_asc [] l.

Fixpoint insert_desc {A : Type} (key : A -> Q) (x : A) (l : list A) : list A :=
  match l with
  | [] => [x]
  | y :: l' => if Qltb (key x) (key y) then y :: insert_desc key x l' else x :: l
  end.

(** [l.sort(reverse=True, key=key)] *)
Definition sort_desc {A : Type} (key : A -> Q) (l : list A) : list A :=
  foldr (insert_desc key) [] l.

(** [l.remove(x)]: the first element that is [x] or equal to it goes;
    [ValueError] when there is none. *)
Fixpoint list_remove (h : heap) (x : ref) (l : list ref) : result (list ref) :=
  match l with
  | [] => Raise ValueError
  | y :: l' =>
      if (y =? x)%nat || item_eqb (h y) (h x) then Ok l'
      else let! l'' := list_remove h x l' in Ok (y :: l'')
  end.

(** ** [get_random_items] *)

Fixpoint random_items_loop (already_labeled : gmap string string) (number : Z)
    (unlabeled_data : list ref) (h : heap) (random_items : list ref)
    : list ref * heap :=
  match unlabeled_data with
  | [] => (random_items, h)
  | item :: rest =>
      if in_already_labeled already_labeled (textid (h item)) then
        random_items_loop already_labeled number rest h random_items
      else
        let h := set_strategy h item "random_remaining" in
        let random_items := random_items ++ [item] in
        if (number <=? Z.of_nat (length random_items))%Z then (random_items, h)
        else random_items_loop already_labeled number rest h random_items
  end.

(** Returns the selection, the heap, the generator and the caller's list
    as the shuffle leaves it. *)
Definition get_random_items (already_labeled : gmap string string)
    (h : heap) (g : rng) (unlabeled_data : list ref) (number : Z)
    : list ref * heap * rng * list ref :=
  let '(unlabeled_data, g) := shuffle g unlabeled_data in
  let '(random_items, h) :=
    random_items_loop already_labeled number unlabeled_data h [] in
  (random_items, h, g, unlabeled_data).

(** ** The classes of module [pytorch_clusters] *)

(** Modelled from the spec: the class [Cluster] of module
    [pytorch_clusters], which is not among the sources.  A cluster is a
    running centroid over the vectors of its members; the vector of an
    item is made from its text, and a similarity is a float. *)
Class ClusterOps : Type := {
  cluster : Type;
  (** [Cluster()] *)
  new_cluster : cluster;
  (** the member [(ID, TEXT)] joins and the centroid is updated *)
  add_member : cluster -> string -> string -> cluster;
  (** cosine similarity of the vector of a text to the centroid *)
  similarity : cluster -> string -> Q
}.

Definition add_to_cluster `{ClusterOps} (c : cluster) (it : item) : cluster :=
  add_member c (textid it) (text it).

Definition cosine_similary `{ClusterOps} (c : cluster) (it : item) : Q :=
  similarity c (text it).

(** Modelled from the spec: the class [CosineClusters] of module
    [pytorch_clusters], which is not among the sources.  Seeding and the
    random members draw from the generator; an epoch returns the number
    of items that moved. *)
Class CosineClustersOps : Type := {
  cosine_clusters : Type;
  (** [CosineClusters(num_clusters)] *)
  new_cosine_clusters : Z -> cosine_clusters;
  add_random_training_items :
    heap -> cosine_clusters -> list ref -> rng -> cosine_clusters * rng;
  add_items_to_best_cluster :
    heap -> cosine_clusters -> list ref -> cosine_clusters * nat;
  get_centroids : heap -> cosine_clusters -> list ref;
  get_outliers : heap -> cosine_clusters -> list ref;
  get_randoms : heap -> cosine_clusters -> rng -> list ref * rng
}.

(** ** [get_cluster_samples] *)

(** [for i in range(0, max_epochs)] with its [break].  Besides the
    clusters, the loop yields the value of [added] of every epoch it ran,
    in order (each of them also prints its number). *)
Fixpoint cluster_epochs `{CosineClustersOps} (h : heap) (epochs : nat)
    (cc : cosine_clusters) (data : list ref) : cosine_clusters * list nat :=
  match epochs with
  | O => (cc, [])
  | S epochs' =>
      let '(cc, added) := add_items_to_best_cluster h cc data in
      if (added =? 0)%nat then (cc, [added])
      else
        let '(cc, trace) := cluster_epochs h epochs' cc data in
        (cc, added :: trace)
  end.

(** [if limit > 0: shuffle(data); data = data[:limit]]: the caller's
    list, the working list and the generator. *)
Definition limit_data (g : rng) (data : list ref) (limit : Z)
    : list ref * list ref * rng :=
  if (0 <? limit)%Z then
    let '(shuffled, g) := shuffle g data in
    (shuffled, py_slice_to limit shuffled, g)
  else (data, data, g).

(** Returns the samples, the values of [added] per epoch, the generator
    and the caller's list. *)
Definition get_cluster_samples `{CosineClustersOps} (h : heap) (g : rng)
    (data : list ref) (num_clusters max_epochs limit : Z)
    : list ref * list nat * rng * list ref :=
  let '(caller_data, data, g) := limit_data g data limit in
  let cc := new_cosine_clusters num_clusters in
  let '(cc, g) := add_random_training_items h cc data g in
  let '(cc, trace) := cluster_epochs h (Z.to_nat max_epochs) cc data in
  let centroids := get_centroids h cc in
  let outliers := get_outliers h cc in
  let '(randoms, g) := get_randoms h cc g in
  (centroids ++ outliers ++ randoms, trace, g, caller_data).

(** The epochs without a stopping rule: the clusters after [k] epochs
    and the number of items that the next epoch moves. *)
Definition epoch_state `{CosineClustersOps} (h : heap) (cc : cosine_clusters)
    (data : list ref) (k : nat) : cosine_clusters :=
  Nat.iter k (fun cc => (add_items_to_best_cluster h cc data).1) cc.

Definition epoch_added `{CosineClustersOps} (h : heap) (cc : cosine_clusters)
    (data : list ref) (k : nat) : nat :=
  (add_items_to_best_cluster h (epoch_state h cc data k) data).2.

(** ** [get_representative_samples] *)

(** [for item in data: c.add_to_cluster(item)] *)
Definition fill_cluster `{ClusterOps} (h : heap) (data : list ref) : cluster :=
  fold_left (fun c item => add_to_cluster c (h item)) data new_cluster.

Definition representativeness `{ClusterOps} (training_cluster unlabeled_cluster : cluster)
    (it : item) : Q :=
  let training_score := cosine_similary training_cluster it in
  let unlabeled_score := cosine_similary unlabeled_cluster it in
  (unlabeled_score - training_score)%Q.

(** The scoring loop: [item[3] = "representative"], [item[4] =
    representativeness]. *)
Definition score_representative `{ClusterOps} (training_cluster unlabeled_cluster : cluster)
    (unlabeled_data : list ref) (h : heap) : heap :=
  fold_left
    (fun h item =>
       let representativeness :=
         representativeness training_cluster unlabeled_cluster (h item) in
       set_score (set_strategy h item "representative") item representativeness)
    unlabeled_data h.

(** What a call leaves behind: the returned list, the heap, the
    generator, and the two lists of the caller. *)
Record outcome : Type := Outcome {
  returned : list ref;
  heap_after : heap;
  rng_after : rng;
  training_after : list ref;
  unlabeled_after : list ref
}.

(** [if limit > 0:] both lists are shuffled in place and the function
    goes on with slices of them.  For each list: what the caller holds,
    and what the function works on. *)
Definition limit_sets (g : rng) (training_data unlabeled_data : list ref) (limit : Z)
    : (list ref * list ref) * (list ref * list ref) * rng :=
  if (0 <? limit)%Z then
    let '(caller_training, g) := shuffle g training_data in
    let training_data := py_slice_to limit caller_training in
    let '(caller_unlabeled, g) := shuffle g unlabeled_data in
    let unlabeled_data := py_slice_to limit caller_unlabeled in
    ((caller_training, training_data), (caller_unlabeled, unlabeled_data), g)
  else
    ((training_data, training_data), (unlabeled_data, unlabeled_data), g).

Definition get_representative_samples `{ClusterOps} (h : heap) (g : rng)
    (training_data unlabeled_data : list ref) (number limit : Z) : outcome :=
  let '((caller_training, training_data), (caller_unlabeled, unlabeled_data), g) :=
    limit_sets g training_data unlabeled_data limit in
  let training_cluster := fill_cluster h training_data in
  let unlabeled_cluster := fill_cluster h unlabeled_data in
  let h := score_representative training_cluster unlabeled_cluster unlabeled_data h in
  let sorted := sort_desc (fun x => score (h x)) unlabeled_data in
  (* with a limit the sorted list is the slice, a list of its own;
     without one it is the caller's list, sorted in place *)
  let caller_unlabeled := if (0 <? limit)%Z then caller_unlabeled else sorted in
  Outcome (py_slice_to number sorted) h g caller_training caller_unlabeled.

(** ** [get_adaptive_representative_samples] *)

(** One pass of the loop body, on the caller's lists as they are now. *)
Definition adaptive_step `{ClusterOps} (limit : Z) (st : outcome) : result outcome :=
  let o := get_representative_samples (heap_after st) (rng_after st)
             (training_after st) (unlabeled_after st) 1 limit in
  let! representative_item := py_index (returned o) 0 in
  let samples := returned st ++ [representative_item] in
  let! unlabeled_data := list_remove (heap_after o) representative_item (unlabeled_after o) in
  Ok (Outcome samples (heap_after o) (rng_after o) (training_after o) unlabeled_data).

(** [for i in range(0, number)] *)
Fixpoint adaptive_loop `{ClusterOps} (limit : Z) (number : nat) (st : outcome)
    : result outcome :=
  match number with
  | O => Ok st
  | S number' =>
      let! st := adaptive_step limit st in
      adaptive_loop limit number' st
  end.

Definition get_adaptive_representative_samples `{ClusterOps} (h : heap) (g : rng)
    (training_data unlabeled_data : list ref) (number limit : Z) : result outcome :=
  adaptive_loop limit (Z.to_nat number) (Outcome [] h g training_data unlabeled_data).

(** ** [get_model_outliers] *)

(** The model is a black box.  [neuron_outputs t] is
    [logits.data.tolist()[0]] for the feature vector of the text [t]. *)
Class Model : Type := {
  neuron_outputs : string -> list Q
}.

(** [for output in neuron_outputs: validation_rankings[n][v] = output;
    n += 1] *)
Fixpoint store_outputs (validation_rankings : list (list Q)) (n v : nat)
    (outputs : list Q) : result (list (list Q)) :=
  match outputs with
  | [] => Ok validation_rankings
  | output :: rest =>
      let! row := py_index validation_rankings n in
      if (v <? length row)%nat then
        store_outputs (<[n := <[v := output]> row]> validation_rankings) (S n) v rest
      else Raise IndexError
  end.

(** Step 1: per-neuron scores from the validation data. *)
Fixpoint collect_validation `{Model} (h : heap) (validation_count : nat)
    (validation_data : list ref) (v : nat) (validation_rankings : list (list Q))
    : result (list (list Q)) :=
  match validation_data with
  | [] => Ok validation_rankings
  | item :: rest =>
      let outputs := neuron_outputs (text (h item)) in
      let validation_rankings :=
        if (length validation_rankings =? 0)%nat
        then (fun _ => replicate validation_count 0%Q) <$> outputs
        else validation_rankings in
      let! validation_rankings := store_outputs validation_rankings 0 v outputs in
      collect_validation h validation_count rest (S v) validation_rankings
  end.

(** Steps 1 and 2: the rankings, each sorted. *)
Definition get_validation_rankings `{Model} (h : heap) (validation_data : list ref)
    : result (list (list Q)) :=
  let! validation_rankings :=
    collect_validation h (length validation_data) validation_data 0 [] in
  Ok (sort_asc <$> validation_rankings).

(** [for output in neuron_outputs: rank = get_rank(output,
    validation_rankings[n]); ranks.append(rank); n += 1] *)
Fixpoint rank_outputs (validation_rankings : list (list Q)) (n : nat)
    (outputs : list Q) : result (list Q) :=
  match outputs with
  | [] => Ok []
  | output :: rest =>
      let! ranking := py_index validation_rankings n in
      let! rank := get_rank output ranking in
      let! ranks := rank_outputs validation_rankings (S n) rest in
      Ok (rank :: ranks)
  end.

(** [sum(ranks)] *)
Definition sum (l : list Q) : Q := fold_left Qplus l 0%Q.

(** [1 - (sum(ranks) / len(neuron_outputs))] *)
Definition outlier_score (validation_rankings : list (list Q)) (outputs : list Q)
    : result Q :=
  let! ranks := rank_outputs validation_rankings 0 outputs in
  let! average := py_div (sum ranks) (Q_of_nat (length outputs)) in
  Ok (1 - average)%Q.

(** Step 3: the loop over the unlabeled items. *)
Fixpoint score_outliers `{Model} (already_labeled : gmap string string)
    (validation_rankings : list (list Q)) (unlabeled_data : list ref)
    (h : heap) (outliers : list ref) : result (list ref * heap) :=
  match unlabeled_data with
  | [] => Ok (outliers, h)
  | item :: rest =>
      if in_already_labeled already_labeled (textid (h item)) then
        score_outliers already_labeled validation_rankings rest h outliers
      else
        let outputs := neuron_outputs (text (h item)) in
        let! s := outlier_score validation_rankings outputs in
        let h := set_score (set_strategy h item "logit_rank_outlier") item s in
        score_outliers already_labeled validation_rankings rest h (outliers ++ [item])
  end.

(** [if limit == -1: ... else: shuffle(unlabeled_data); unlabeled_data =
    unlabeled_data[:limit]]: the caller's list, the working list and the
    generator. *)
Definition limit_unlabeled (g : rng) (unlabeled_data : list ref) (limit : Z)
    : list ref * list ref * rng :=
  if (limit =? -1)%Z then (unlabeled_data, unlabeled_data, g)
  else
    let '(shuffled, g) := shuffle g unlabeled_data in
    (shuffled, py_slice_to limit shuffled, g).

(** Returns the outliers, the heap, the generator and the caller's list
    of unlabeled items. *)
Definition get_model_outliers `{Model} (already_labeled : gmap string string)
    (h : heap) (g : rng) (unlabeled_data validation_data : list ref)
    (number limit : Z) : result (list ref * heap * rng * list ref) :=
  let! validation_rankings := get_validation_rankings h validation_data in
  let '(caller_unlabeled, unlabeled_data, g) :=
    limit_unlabeled g unlabeled_data limit in
  let! scored :=
    score_outliers already_labeled validation_rankings unlabeled_data h [] in
  let '(outliers, h) := scored in
  let outliers := sort_desc (fun x => score (h x)) outliers in
  Ok (py_slice_to number outliers, h, g, caller_unlabeled).

(** ** [get_low_conf_unlabeled] and [evaluate_model] *)

(** The classifier is a black box.  [prob_related t] is
    [math.exp(log_probs.data.tolist()[0][1])] for the feature vector of
    the text [t]: the confidence that the text is disaster-related. *)
Class Classifier : Type := {
  prob_related : string -> Q
}.

Fixpoint insert_by {A : Type} (key : A -> Q) (x : A) (l : list A) : list A :=
  match l with
  | [] => [x]
  | y :: l' => if Qltb (key y) (key x) then y :: insert_by key x l' else x :: l
  end.

(** [l.sort(key=key)] *)
Definition sort_by {A : Type} (key : A -> Q) (l : list A) : list A :=
  foldr (insert_by key) [] l.

(** [if prob_related < 0.5: confidence = 1 - prob_related else:
    confidence = prob_related] *)
Definition confidence_of (prob_related : Q) : Q :=
  if Qltb prob_related (1 # 2) then (1 - prob_related)%Q else prob_related.

(** The loop over the unlabeled items. *)
Fixpoint score_confidences `{Classifier} (already_labeled : gmap string string)
    (unlabeled_data : list ref) (h : heap) (confidences : list ref)
    : list ref * heap :=
  match unlabeled_data with
  | [] => (confidences, h)
  | item :: rest =>
      if in_already_labeled already_labeled (textid (h item)) then
        score_confidences already_labeled rest h confidences
      else
        let confidence := confidence_of (prob_related (text (h item))) in
        let h := set_score (set_strategy h item "low confidence") item confidence in
        score_confidences already_labeled rest h (confidences ++ [item])
  end.

(** Returns the selection, the heap, the generator and the caller's list
    of unlabeled items. *)
Definition get_low_conf_unlabeled `{Classifier} (already_labeled : gmap string string)
    (h : heap) (g : rng) (unlabeled_data : list ref) (number limit : Z)
    : list ref * heap * rng * list ref :=
  let '(caller_unlabeled, unlabeled_data, g) :=
    limit_unlabeled g unlabeled_data limit in
  let '(confidences, h) := score_confidences already_labeled unlabeled_data h [] in
  let confidences := sort_by (fun x => score (h x)) confidences in
  (py_slice_to number confidences, h, g, caller_unlabeled).

(** The counters and the two lists of confidences of [evaluate_model]. *)
Record tally : Type := Tally {
  related_confs : list Q;
  not_related_confs : list Q;
  true_pos : Q;
  false_pos : Q;
  false_neg : Q
}.

(** [for item in evaluation_data] *)
Definition tally_item `{Classifier} (t : tally) (it : item) : tally :=
  let p := prob_related (text it) in
  if String.eqb (label it) "1" then
    if Qltb (1 # 2) p
    then Tally (related_confs t ++ [p]) (not_related_confs t)
           (true_pos t + 1) (false_pos t) (false_neg t)
    else Tally (related_confs t ++ [p]) (not_related_confs t)
           (true_pos t) (false_pos t) (false_neg t + 1)
  else
    if Qltb (1 # 2) p
    then Tally (related_confs t) (not_related_confs t ++ [p])
           (true_pos t) (false_pos t + 1) (false_neg t)
    else Tally (related_confs t) (not_related_confs t ++ [p])
           (true_pos t) (false_pos t) (false_neg t).

Definition tally_items `{Classifier} (h : heap) (evaluation_data : list ref) : tally :=
  fold_left (fun t item => tally_item t (h item)) evaluation_data
    (Tally [] [] 0 0 0).

(** The F-score of the counters. *)
Definition fscore_of (t : tally) : result Q :=
  if Qeq_bool (true_pos t) 0 then Ok 0%Q
  else
    let! precision := py_div (true_pos t) (true_pos t + false_pos t) in
    let! recall := py_div (true_pos t) (true_pos t + false_neg t) in
    py_div (2 * precision * recall) (precision + recall).

(** [for conf2 in not_related_confs: if conf < conf2: break else:
    total_greater += 1] *)
Fixpoint greater_scan (conf : Q) (not_related_confs : list Q) (total_greater : nat)
    : nat :=
  match not_related_confs with
  | [] => total_greater
  | conf2 :: rest =>
      if Qltb conf conf2 then total_greater
      else greater_scan conf rest (S total_greater)
  end.

(** [for conf in related_confs] *)
Definition count_greater (related_confs not_related_confs : list Q) : nat :=
  fold_left (fun total_greater conf => greater_scan conf not_related_confs total_greater)
    related_confs 0%nat.

(** Returns [[fscore, auc]]. *)
Definition evaluate_model `{Classifier} (h : heap) (evaluation_data : list ref)
    : result (Q * Q) :=
  let t := tally_items h evaluation_data in
  let! fscore := fscore_of t in
  let not_related_confs := sort_asc (not_related_confs t) in
  let total_greater := count_greater (related_confs t) not_related_confs in
  let denom := (length not_related_confs * length (related_confs t))%nat in
  let! auc := py_div (Q_of_nat total_greater) (Q_of_nat denom) in
  Ok (fscore, auc).

(** ** [load_data]

    The file is the list of the rows that [csv.reader] yields, each a
    list of strings (an empty list for a blank line).  [load_data] works
    on the rows and on the global [already_labeled]. *)

(** A column of a row in memory: a string of the file, or the number 0
    that [load_data] appends as confidence. *)
Inductive cell : Type :=
  | Str (s : string)
  | Int (z : Z).

(** [str(c)] *)
Definition str (c : cell) : string :=
  match c with
  | Str s => s
  | Int z => pretty z
  end.

(** [c != ""] *)
Definition not_empty_string (c : cell) : bool :=
  match c with
  | Str s => negb (String.eqb s "")
  | Int _ => true
  end.

(** The three [if len(row) < n: row.append(...)] in a row. *)
Definition pad_row (row : list cell) : list cell :=
  let row := if (length row <? 3)%nat then row ++ [Str ""] else row in
  let row := if (length row <? 4)%nat then row ++ [Str ""] else row in
  let row := if (length row <? 5)%nat then row ++ [Int 0] else row in
  row.

(** [for row in reader] *)
Fixpoint load_rows (skip_already_labeled : bool) (rows : list (list string))
    (already_labeled : gmap string string) (data : list (list cell))
    : result (list (list cell) * gmap string string) :=
  match rows with
  | [] => Ok (data, already_labeled)
  | r :: rest =>
      let row := Str <$> r in
      let! skipped :=
        (if skip_already_labeled then
           let! id := py_index row 0 in
           Ok (in_already_labeled already_labeled (str id))
         else Ok false) in
      if skipped then load_rows skip_already_labeled rest already_labeled data
      else
        let row := pad_row row in
        let data := data ++ [row] in
        let! c2 := py_index row 2 in
        let label := str c2 in
        if not_empty_string c2 then
          let! c0 := py_index row 0 in
          let textid := str c0 in
          load_rows skip_already_labeled rest (<[textid := label]> already_labeled) data
        else load_rows skip_already_labeled rest already_labeled data
  end.

(** Returns the rows and the dictionary [already_labeled]. *)
Definition load_data (rows : list (list string)) (skip_already_labeled : bool)
    (already_labeled : gmap string string)
    : result (list (list cell) * gmap string string) :=
  load_rows skip_already_labeled rows already_labeled [].

(** ** [create_features] and [make_feature_vector] *)

(** [text.split()] is the tokenizer of the Python library. *)
Class Words : Type := {
  split : string -> list string
}.

(** The words of [for item in data + training_data: for word in
    text.split()], in the order of the two loops. *)
Definition words_of `{Words} (h : heap) (items : list ref) : list string :=
  items ≫= (fun item => split (text (h item))).

(** [if word not in total_training_words: ... = 1 else: ... += 1] *)
Definition count_word (total_training_words : gmap string Z) (word : string)
    : gmap string Z :=
  match total_training_words !! word with
  | None => <[word := 1%Z]> total_training_words
  | Some n => <[word := (n + 1)%Z]> total_training_words
  end.

Definition count_words (words : list string) : gmap string Z :=
  fold_left count_word words ∅.

(** [if word not in feature_index and total_training_words[word] >=
    minword: feature_index[word] = len(feature_index)]; [None] is the
    [KeyError] of the lookup of a word that was not counted. *)
Definition index_word (minword : Z) (total_training_words : gmap string Z)
    (feature_index : gmap string nat) (word : string) : option (gmap string nat) :=
  match feature_index !! word with
  | Some _ => Some feature_index
  | None =>
      match total_training_words !! word with
      | None => None
      | Some n =>
          if (minword <=? n)%Z
          then Some (<[word := size feature_index]> feature_index)
          else Some feature_index
      end
  end.

Fixpoint index_words (minword : Z) (total_training_words : gmap string Z)
    (words : list string) (feature_index : gmap string nat)
    : option (gmap string nat) :=
  match words with
  | [] => Some feature_index
  | word :: rest =>
      match index_word minword total_training_words feature_index word with
      | None => None
      | Some feature_index =>
          index_words minword total_training_words rest feature_index
      end
  end.

(** Returns [len(feature_index)] and the global [feature_index]. *)
Definition create_features `{Words} (h : heap) (data training_data : list ref)
    (feature_index : gmap string nat) (minword : Z)
    : option (nat * gmap string nat) :=
  let words := words_of h (data ++ training_data) in
  let total_training_words := count_words words in
  match index_words minword total_training_words words feature_index with
  | None => None
  | Some feature_index => Some (size feature_index, feature_index)
  end.



(** ** [get_annotations]

    The answers of the annotator are a tape of strings that [input] reads
    from; what is printed is not modelled.  A call returns the heap with the
    labels and the rest of the tape, or raises the [EOFError] of [input] at
    the end of the tape. *)

Inductive annotated : Type :=
  | Returns (h : heap) (inputs : list string)
  | EOFError (h : heap)
  | Unfinished.

(** [item[2] = l] on the item that [r] refers to. *)
Definition set_label (h : heap) (r : ref) (l : string) : heap :=
  fun r' =>
    if (r' =? r)%nat
    then Item (textid (h r)) (text (h r)) l (strategy (h r)) (score (h r))
    else h r'.

(** The last branch of the loop: the label and the default strategy are
    written to [data[ind]]. *)
Definition label_item (default_sampling_strategy : string) (h : heap) (item : ref)
    (label : string) : heap :=
  let label := if String.eqb label "1" then label else "0"%string in
  let h := set_label h item label in
  if String.eqb (strategy (h item)) ""
  then set_strategy h item default_sampling_strategy
  else h.

(** The [while] loop, one iteration per unit of fuel.  [data !! ind] is
    [Some] exactly when [ind < len(data)], as [ind] is not negative there. *)
Fixpoint annotate (fuel : nat) (already_labeled : gmap string string)
    (default_sampling_strategy : string) (data : list ref) (ind : Z) (h : heap)
    (inputs : list string) : annotated :=
  match fuel with
  | O => Unfinished
  | S fuel =>
      if (ind <=? Z.of_nat (length data))%Z then
        let ind := if (ind <? 0)%Z then 0%Z else ind in
        match data !! Z.to_nat ind with
        | Some item =>
            if in_already_labeled already_labeled (textid (h item)) then
              annotate fuel already_labeled default_sampling_strategy data (ind + 1) h inputs
            else
              match inputs with
              | [] => EOFError h
              | label :: inputs =>
                  if String.eqb label "2" then
                    annotate fuel already_labeled default_sampling_strategy data
                      (ind - 1) h inputs
                  else if String.eqb label "d" then
                    annotate fuel already_labeled default_sampling_strategy data
                      ind h inputs
                  else if String.eqb label "s" then Returns h inputs
                  else
                    annotate fuel already_labeled default_sampling_strategy data
                      (ind + 1) (label_item default_sampling_strategy h item label) inputs
              end
        | None =>
            match inputs with
            | [] => EOFError h
            | label :: inputs =>
                if String.eqb label "2" then
                  annotate fuel already_labeled default_sampling_strategy data
                    (ind - 1) h inputs
                else
                  annotate fuel already_labeled default_sampling_strategy data
                    (ind + 1) h inputs
            end
        end
      else Returns h inputs
  end.

(** Every iteration reads an answer or moves on by one item, so that
    [(len(inputs) + 1) * (len(data) + 3)] iterations are enough. *)
Definition get_annotations (already_labeled : gmap string string) (data : list ref)
    (default_sampling_strategy : string) (h : heap) (inputs : list string) : annotated :=
  annotate ((length inputs + 1) * (length data + 3)) already_labeled
    default_sampling_strategy data 0 h inputs.

(** ** [get_rank] and the scores on floats that round and overflow

    In the definitions above the arithmetic of the floats is exact.  The
    module [Double] has [get_rank] and the two score formulas once more, on
    floats in which every operation rounds its exact result and gives an
    infinity when the result is out of range, and in which an operation
    on infinities may give NaN.  A float is a finite value, an infinity or
    NaN; the two zeros are not told apart (they compare equal, and a
    division by either raises).  The format is a parameter: [round q] is
    the float that an operation gives when its exact result is [q], and
    [exact_ints] bounds the integers that [float(n)] converts without
    rounding. *)

Module Double.

Inductive float : Type :=
  | Fin (q : Q)
  | PInf
  | NInf
  | NaN.

Class Format : Type := {
  round : Q -> float;
  exact_ints : Z
}.

(** [a <= b] on floats: false as soon as one of them is NaN. *)
Definition fle (a b : float) : Prop :=
  match a, b with
  | NaN, _ | _, NaN => False
  | NInf, _ => True
  | _, PInf => True
  | Fin x, Fin y => (x <= y)%Q
  | _, _ => False
  end.

(** [a == b] on floats. *)
Definition feq (a b : float) : Prop := fle a b /\ fle b a.

(** [x] is a finite float of the format. *)
Definition representable `{Format} (x : float) : Prop :=
  match x with
  | Fin q => feq (round q) (Fin q)
  | _ => False
  end.

Section Arithmetic.
Context `{Format}.

(** [a < b] *)
Definition fltb (a b : float) : bool :=
  match a, b with
  | NaN, _ | _, NaN => false
  | Fin x, Fin y => Qltb x y
  | _, NInf => false
  | NInf, _ => true
  | PInf, _ => false
  | Fin _, PInf => true
  end.

Definition is_zero (a : float) : bool :=
  match a with
  | Fin q => Qeq_bool q 0
  | _ => false
  end.

(** [- a] *)
Definition fopp (a : float) : float :=
  match a with
  | Fin q => Fin (- q)
  | PInf => NInf
  | NInf => PInf
  | NaN => NaN
  end.

(** [a + b] *)
Definition fadd (a b : float) : float :=
  match a, b with
  | NaN, _ | _, NaN => NaN
  | Fin x, Fin y => round (x + y)
  | PInf, NInf | NInf, PInf => NaN
  | PInf, _ | _, PInf => PInf
  | NInf, _ | _, NInf => NInf
  end.

(** [a - b] *)
Definition fsub (a b : float) : float := fadd a (fopp b).

(** [a / b] on floats: raises [ZeroDivisionError] when [b] is zero. *)
Definition fdiv (a b : float) : result float :=
  if is_zero b then Raise ZeroDivisionError
  else
    Ok match a, b with
       | NaN, _ | _, NaN => NaN
       | Fin x, Fin y => round (x / y)
       | Fin _, _ => Fin 0
       | PInf, Fin y => if Qltb 0 y then PInf else NInf
       | NInf, Fin y => if Qltb 0 y then NInf else PInf
       | _, _ => NaN
       end.

(** [float(n)] for an integer [n] that is not negative. *)
Definition of_int (n : nat) : float := round (Q_of_nat n).

(** [a / b] on two integers that are not negative: the quotient, rounded
    once. *)
Definition int_div (a b : nat) : result float :=
  if (b =? 0)%nat then Raise ZeroDivisionError
  else Ok (round (Q_of_nat a / Q_of_nat b)).

Fixpoint rank_scan (value : float) (rankings : list float) (index : nat) : nat :=
  match rankings with
  | [] => index
  | ranked_number :: rest =>
      if fltb value ranked_number then index
      else rank_scan value rest (S index)
  end.

(** [index] is an integer in the first and in the last branch, and a
    float after the interpolation. *)
Definition get_rank (value : float) (rankings : list float) : result float :=
  let index := rank_scan value rankings 0 in
  if (length rankings <=? index)%nat then
    int_div (length rankings) (length rankings)
  else if (0 <? index)%nat then
    let! hi := py_index rankings index in
    let! lo := py_index rankings (index - 1) in
    let diff := fsub hi lo in
    let perc := fsub value lo in
    let! linear := fdiv perc diff in
    let index := fadd (of_int (index - 1)) linear in
    fdiv index (of_int (length rankings))
  else
    int_div index (length rankings).

Fixpoint rank_outputs (validation_rankings : list (list float)) (n : nat)
    (outputs : list float) : result (list float) :=
  match outputs with
  | [] => Ok []
  | output :: rest =>
      let! ranking := py_index validation_rankings n in
      let! rank := get_rank output ranking in
      let! ranks := rank_outputs validation_rankings (S n) rest in
      Ok (rank :: ranks)
  end.

(** [sum(ranks)]: the additions from left to right, from the integer 0. *)
Definition sum (l : list float) : float := fold_left fadd l (of_int 0).

(** [1 - (sum(ranks) / len(neuron_outputs))], the score that
    [get_model_outliers] writes. *)
Definition outlier_score (validation_rankings : list (list float))
    (outputs : list float) : result float :=
  let! ranks := rank_outputs validation_rankings 0 outputs in
  let! average := fdiv (sum ranks) (of_int (length outputs)) in
  Ok (fsub (of_int 1) average).

(** [unlabeled_score - training_score], the score that
    [get_representative_samples] writes. *)
Definition representativeness (unlabeled_score training_score : float) : float :=
  fsub unlabeled_score training_score.

End Arithmetic.

(** What the statements assume of a format, and what holds of the
    doubles of Python with rounding to nearest: rounding keeps the order,
    the integers up to [exact_ints] are floats, and the difference of two
    floats that differ does not round to zero. *)
Class FormatLaws `{Format} : Prop := {
  round_monotone : forall a b, (a <= b)%Q -> fle (round a) (round b);
  round_int : forall z,
    (Z.abs z <= exact_ints)%Z -> feq (round (inject_Z z)) (Fin (inject_Z z));
  exact_ints_pos : (1 <= exact_ints)%Z;
  round_difference : forall x y,
    representable (Fin x) -> representable (Fin y) -> ~ (x == y)%Q ->
    ~ feq (round (x - y)) (Fin 0)
}.

End Double.

(** ** Notions used in the statements *)

(** The fields that no sampling function writes. *)
Definition same_identity (h h' : heap) : Prop :=
  forall r,
    textid (h' r) = textid (h r) /\ text (h' r) = text (h r) /\
    label (h' r) = label (h r).


(** The items of a list that [already_labeled] does not know. *)
Definition not_labeled (already_labeled : gmap string string) (h : heap)
    (l : list ref) : list ref :=
  List.filter (fun r => negb (in_already_labeled already_labeled (textid (h r)))) l.

(** The activations of neuron [n] over the validation items, in the
    order of the items. *)
Definition validation_column `{Model} (h : heap) (validation_data : list ref)
    (n : nat) : list Q :=
  (fun item => nth n (neuron_outputs (text (h item))) 0%Q) <$> validation_data.

(** Neuron [n] while [total] validation items are expected and the
    items of [done] are stored: their activations, then zeros. *)
Definition partial_column `{Model} (h : heap) (total : nat) (done : list ref)
    (n : nat) : list Q :=
  validation_column h done n ++ replicate (total - length done) 0%Q.

(** The rankings while the validation items are read: one row per
    neuron, filled up to the items read. *)
Definition rankings_filled `{Model} (h : heap) (k total : nat) (done : list ref)
    (vr : list (list Q)) : Prop :=
  length vr = k /\
  forall n, (n < k)%nat -> vr !! n = Some (partial_column h total done n).

(** The three branches of [get_rank] on a list that is not empty. *)
Inductive get_rank_spec (value : Q) (rankings : list Q) : result Q -> Prop :=
  | rank_minimum :
      rank_scan value rankings 0 = 0%nat ->
      get_rank_spec value rankings
        (Ok (Q_of_nat 0 / Q_of_nat (length rankings))%Q)
  | rank_maximum :
      rank_scan value rankings 0 = length rankings ->
      get_rank_spec value rankings
        (Ok (Q_of_nat (length rankings) / Q_of_nat (length rankings))%Q)
  | rank_interpolated (lo hi : Q) :
      let index := rank_scan value rankings 0 in
      (0 < index < length rankings)%nat ->
      rankings !! (index - 1)%nat = Some lo ->
      rankings !! index = Some hi ->
      (lo <= value < hi)%Q ->
      get_rank_spec value rankings
        (Ok ((Q_of_nat (index - 1) + (value - lo) / (hi - lo))
              / Q_of_nat (length rankings))%Q).

(** [x] comes no later than [y] in a descending order of keys. *)
Definition key_ge {A : Type} (key : A -> Q) (x y : A) : Prop := (key y <= key x)%Q.

(** [x] comes no later than [y] in an ascending order of keys. *)
Definition key_le {A : Type} (key : A -> Q) (x y : A) : Prop := (key x <= key y)%Q.

(** The classes of the evaluation items: the true label and the
    prediction of the classifier. *)
Definition is_related (it : item) : bool := String.eqb (label it) "1".

Definition predicted_related `{Classifier} (it : item) : bool :=
  Qltb (1 # 2) (prob_related (text it)).

Definition true_positives `{Classifier} (l : list item) : nat :=
  length (List.filter (fun it => is_related it && predicted_related it) l).

Definition false_negatives `{Classifier} (l : list item) : nat :=
  length (List.filter (fun it => is_related it && negb (predicted_related it)) l).

Definition false_positives `{Classifier} (l : list item) : nat :=
  length (List.filter (fun it => negb (is_related it) && predicted_related it) l).

(** The pairs of a related and a not related confidence in which the
    related one is not the smaller. *)
Definition pairs_not_smaller (related not_related : list Q) : nat :=
  list_sum
    (List.map (fun conf => length (List.filter (fun conf2 => Qle_bool conf2 conf) not_related))
       related).

(** The [ID] of a row in memory and whether the row carries a label. *)
Definition row_id (row : list cell) : string := from_option str "" (row !! 0%nat).

Definition labeled_row (row : list cell) : bool :=
  from_option not_empty_string false (row !! 2%nat).

(** What [load_data] appends to a row of [n] columns. *)
Definition padding (n : nat) : list cell :=
  match n with
  | 0%nat | 1%nat | 2%nat => [Str ""; Str ""; Int 0]
  | 3%nat => [Str ""; Int 0]
  | 4%nat => [Int 0]
  | _ => []
  end.

(** The indices of a feature index of [n] words are the numbers below [n],
    each used by one word. *)
Definition dense (feature_index : gmap string nat) : Prop :=
  (forall w i, feature_index !! w = Some i -> (i < size feature_index)%nat) /\
  (forall i, (i < size feature_index)%nat -> exists w, feature_index !! w = Some i) /\
  (forall w w' i, feature_index !! w = Some i -> feature_index !! w' = Some i -> w = w').

(** How often a word occurs in a list of words. *)
Definition occurrences (w : string) (words : list string) : nat :=
  length (filter (fun x => x = w) words).


(** The heap that a call of [get_annotations] leaves. *)
Definition final_heap (a : annotated) : option heap :=
  match a with
  | Returns h _ => Some h
  | EOFError h => Some h
  | Unfinished => None
  end.

(** An answer that is taken as a label. *)
Definition plain_answer (a : string) : Prop :=
  a <> "2"%string /\ a <> "d"%string /\ a <> "s"%string.

(** What [get_annotations] may have written between the heaps [h] and [h']. *)
Definition annotation_writes (already_labeled : gmap string string)
    (default_sampling_strategy : string) (data : list ref) (h h' : heap) : Prop :=
  forall r,
    textid (h' r) = textid (h r) /\ text (h' r) = text (h r) /\
    score (h' r) = score (h r) /\
    (label (h' r) = label (h r) \/ label (h' r) = "0"%string \/
     label (h' r) = "1"%string) /\
    (strategy (h' r) = strategy (h r) \/
     (strategy (h r) = ""%string /\ strategy (h' r) = default_sampling_strategy)) /\
    (in_already_labeled already_labeled (textid (h r)) = true \/ r ∉ data ->
     h' r = h r).

(** The item that the answer [a] leaves of the item [it]. *)
Definition labeled_item (default_sampling_strategy : string) (it : item) (a : string)
    : item :=
  Item (textid it) (text it)
    (if String.eqb a "1" then "1"%string else "0"%string)
    (if String.eqb (strategy it) "" then default_sampling_strategy else strategy it)
    (score it).

(** What the statements on floats ask of a value and a list of rankings:
    they are finite floats, the list is not empty and its length is an
    integer that converts without rounding, and no subtraction of a
    ranking from the value overflows. *)
Definition rankable `{Double.Format} (value : Double.float)
    (rankings : list Double.float) : Prop :=
  Double.representable value /\
  rankings <> [] /\
  Forall Double.representable rankings /\
  (Z.of_nat (length rankings) <= Double.exact_ints)%Z /\
  Forall (fun x => Double.fsub value x <> Double.PInf) rankings.

(** A float between two numbers. *)
Definition within (lo hi : Q) (x : Double.float) : Prop :=
  exists q, x = Double.Fin q /\ (lo <= q <= hi)%Q.

(** ** Instances for the examples *)

Definition flood : item := Item "a" "flood in the valley" "" "" 0.
Definition storm : item := Item "b" "storm at the coast" "" "" 0.
Definition match_report : item := Item "c" "cup final tonight" "" "" 0.
Definition quake : item := Item "d" "quake hits the city" "1" "random" 0.

(** Three unlabeled items at 0, 1 and 2, and a training item. *)
Definition news : heap :=
  fun r =>
    match r with
    | 0%nat => flood
    | 1%nat => storm
    | 2%nat => match_report
    | _ => quake
    end.

(** A cluster that only counts its members; the similarity of a text is
    1/2 for a cluster with members and 0 for an empty one. *)
Definition counting_cluster : ClusterOps := {|
  cluster := nat;
  new_cluster := 0%nat;
  add_member := (fun c _ _ => S c);
  similarity := (fun c _ => if (c =? 0)%nat then 0%Q else (1 # 2)%Q)
|}.

(** Clusters that move one item less in every epoch. *)
Definition countdown_clusters : CosineClustersOps := {|
  cosine_clusters := nat;
  new_cosine_clusters := Z.to_nat;
  add_random_training_items := (fun _ cc _ g => (cc, g));
  add_items_to_best_cluster := (fun _ cc _ => (Nat.pred cc, cc));
  get_centroids := (fun _ _ => []);
  get_outliers := (fun _ _ => []);
  get_randoms := (fun _ _ g => ([], g))
|}.

(** A model with two output neurons that reads the length of the text. *)
Definition length_model : Model := {|
  neuron_outputs := (fun t =>
    [Q_of_nat (String.length t); (- Q_of_nat (String.length t))%Q])
|}.

(** A classifier that is sure of the long texts. *)
Definition length_classifier : Classifier := {|
  prob_related := (fun t => if (18 <? String.length t)%nat then (9 # 10)%Q else (1 # 5)%Q)
|}.

(** The words of a text that has single spaces between its words. *)
Fixpoint words_from (s : string) (word : string) : list string :=
  match s with
  | EmptyString => if String.eqb word "" then [] else [word]
  | String c s' =>
      if Ascii.eqb c Ascii.Space then
        if String.eqb word "" then words_from s' "" else word :: words_from s' ""
      else words_from s' (word +:+ String c "")
  end.

Definition space_words : Words := {|
  split := (fun s => words_from s "")
|}.

(** The format in which nothing rounds and nothing overflows. *)
Definition exact : Double.Format := {|
  Double.round := Double.Fin;
  Double.exact_ints := 1
|}.

(** A format that overflows like the doubles and does not round below
    the overflow: an exact result beyond [max] in magnitude gives an
    infinity. *)
Definition exact_below (max : Q) (ints : Z) : Double.Format := {|
  Double.round := (fun q =>
    if Qle_bool (Qabs q) max then Double.Fin q
    else if Qle_bool 0 q then Double.PInf else Double.NInf);
  Double.exact_ints := ints
|}.

(** The largest double, [(2^53 - 1) * 2^971], and the integers up to
    [2^53]. *)
Definition double_range : Double.Format :=
  exact_below (inject_Z ((2 ^ 53 - 1) * 2 ^ 971)) (2 ^ 53).


(** ** Facts about the scan *)

Lemma Qltb_lt (a b : Q) : Qltb a b = true <-> (a < b)%Q.
Proof.
  unfold Qltb. rewrite negb_true_iff.
  destruct (Qle_bool b a) eqn:E.
  - apply Qle_bool_iff in E. split; [discriminate | intros H; exfalso; lra].
  - split; [intros _ | reflexivity].
    apply Qnot_le_lt. intros H. apply Qle_bool_iff in H. congruence.
Qed.

Lemma Qltb_ge (a b : Q) : Qltb a b = false <-> (b <= a)%Q.
Proof.
  destruct (Qltb a b) eqn:E.
  - apply Qltb_lt in E. split; [discriminate | intros H; exfalso; lra].
  - split; [intros _ | reflexivity].
    apply Qnot_lt_le. intros H. apply Qltb_lt in H. congruence.
Qed.

Lemma rank_scan_acc (value : Q) (rankings : list Q) (i : nat) :
  rank_scan value rankings i = (i + rank_scan value rankings 0)%nat.
Proof.
  revert i. induction rankings as [|r rs IH]; intros i; simpl.
  - lia.
  - destruct (Qltb value r); [lia|].
    rewrite (IH (S i)), (IH 1%nat). lia.
Qed.

Lemma rank_scan_cons (value r : Q) (rs : list Q) :
  rank_scan value (r :: rs) 0 =
  if Qltb value r then 0%nat else S (rank_scan value rs 0).
Proof.
  simpl. destruct (Qltb value r); [reflexivity|].
  now rewrite rank_scan_acc.
Qed.

Lemma rank_scan_insertion_position (value : Q) (rankings : list Q) :
  is_insertion_position (rank_scan value rankings 0) value rankings.
Proof.
  induction rankings as [|r rs (Hlen & Hbefore & Hat)].
  - repeat split; simpl; [lia | intros j x Hj; lia | intros x Hx; discriminate].
  - rewrite rank_scan_cons. destruct (Qltb value r) eqn:E.
    + repeat split; simpl; [lia | intros j x Hj; lia |].
      intros x [= <-]. now apply Qltb_lt.
    + apply Qltb_ge in E. repeat split; simpl.
      * lia.
      * intros [|j] x Hj Hx; simpl in Hx.
        -- now injection Hx as <-.
        -- apply (Hbefore j); [lia | assumption].
      * intros x Hx. now apply Hat.
Qed.

Lemma insertion_position_unique (i j : nat) (value : Q) (rankings : list Q) :
  is_insertion_position i value rankings ->
  is_insertion_position j value rankings ->
  i = j.
Proof.
  intros (Hi & Hbi & Hai) (Hj & Hbj & Haj).
  destruct (Nat.lt_trichotomy i j) as [Hlt | [-> | Hlt]]; [exfalso | reflexivity | exfalso].
  - destruct (lookup_lt_is_Some_2 rankings i) as [x Hx]; [lia|].
    specialize (Hai x Hx). specialize (Hbj i x Hlt Hx). lra.
  - destruct (lookup_lt_is_Some_2 rankings j) as [x Hx]; [lia|].
    specialize (Haj x Hx). specialize (Hbi j x Hlt Hx). lra.
Qed.

Lemma rank_scan_mono (v1 v2 : Q) (rankings : list Q) :
  (v1 <= v2)%Q -> (rank_scan v1 rankings 0 <= rank_scan v2 rankings 0)%nat.
Proof.
  intros Hv. induction rankings as [|r rs IH]; [reflexivity|].
  rewrite !rank_scan_cons.
  destruct (Qltb v1 r) eqn:E1; [lia|].
  destruct (Qltb v2 r) eqn:E2; [|lia].
  apply Qltb_ge in E1. apply Qltb_lt in E2. lra.
Qed.

(** In a sorted list the scan stops where counting stops. *)
Lemma rank_scan_sorted (value : Q) (rankings : list Q) :
  Sorted Qle rankings ->
  rank_scan value rankings 0 = insertion_position value rankings.
Proof.
  intros Hs. apply Sorted_StronglySorted in Hs; [|intros x y z; apply Qle_trans].
  unfold insertion_position.
  induction Hs as [|r rs Hs IH Hall]; [reflexivity|].
  rewrite rank_scan_cons. simpl.
  destruct (Qltb value r) eqn:E.
  - apply Qltb_lt in E.
    assert (Qle_bool r value = false) as ->.
    { apply not_true_is_false. intros H. apply Qle_bool_iff in H. lra. }
    clear IH Hs. induction rs as [|x xs IHxs]; [reflexivity|].
    inversion Hall as [|? ? Hx Hxs]; subst. simpl.
    assert (Qle_bool x value = false) as ->.
    { apply not_true_is_false. intros H. apply Qle_bool_iff in H. lra. }
    now apply IHxs.
  - apply Qltb_ge in E.
    assert (Qle_bool r value = true) as -> by now apply Qle_bool_iff.
    simpl. now rewrite IH.
Qed.

(** ** Arithmetic on floats *)

Lemma Q_of_nat_pos (n : nat) : (0 < n)%nat -> (0 < Q_of_nat n)%Q.
Proof.
  intros Hn. unfold Q_of_nat. change 0%Q with (inject_Z 0).
  rewrite <- Zlt_Qlt. lia.
Qed.

Lemma Q_of_nat_le (m n : nat) : (m <= n)%nat -> (Q_of_nat m <= Q_of_nat n)%Q.
Proof. intros H. unfold Q_of_nat. rewrite <- Zle_Qle. lia. Qed.

Lemma Q_of_nat_S (n : nat) : (Q_of_nat (S n) == Q_of_nat n + 1)%Q.
Proof.
  unfold Q_of_nat. rewrite Nat2Z.inj_succ, <- Z.add_1_r, inject_Z_plus.
  reflexivity.
Qed.

Lemma Q_of_nat_pred (n : nat) : (0 < n)%nat -> (Q_of_nat (n - 1) == Q_of_nat n - 1)%Q.
Proof.
  intros Hn. destruct n as [|n]; [lia|].
  replace (S n - 1)%nat with n by lia. rewrite Q_of_nat_S. ring.
Qed.

Lemma Qdiv_le_mono (a b c : Q) : (0 < c)%Q -> (a <= b)%Q -> (a / c <= b / c)%Q.
Proof.
  intros Hc Hab. unfold Qdiv. apply Qmult_le_compat_r; [assumption|].
  apply Qlt_le_weak, Qinv_lt_0_compat, Hc.
Qed.

Lemma Qdiv_same (c : Q) : (0 < c)%Q -> (c / c == 1)%Q.
Proof. intros Hc. field. lra. Qed.

Lemma Qdiv_zero (c : Q) : (0 / c == 0)%Q.
Proof. unfold Qdiv. ring. Qed.

Lemma py_div_pos (a b : Q) : (0 < b)%Q -> py_div a b = Ok (a / b)%Q.
Proof.
  intros Hb. unfold py_div.
  destruct (Qeq_bool b 0) eqn:E; [|reflexivity].
  apply Qeq_bool_eq in E. lra.
Qed.

Lemma get_rank_specP (value : Q) (rankings : list Q) :
  rankings <> [] -> get_rank_spec value rankings (get_rank value rankings).
Proof.
  intros Hne.
  assert (0 < length rankings)%nat as Hlen by (destruct rankings; [done | simpl; lia]).
  pose proof (Q_of_nat_pos _ Hlen) as Hpos.
  destruct (rank_scan_insertion_position value rankings) as (Hle & Hbefore & Hat).
  unfold get_rank.
  destruct (length rankings <=? rank_scan value rankings 0)%nat eqn:E1.
  - apply Nat.leb_le in E1. simpl. rewrite py_div_pos by assumption.
    apply rank_maximum. lia.
  - apply Nat.leb_gt in E1.
    destruct (0 <? rank_scan value rankings 0)%nat eqn:E2.
    + apply Nat.ltb_lt in E2.
      destruct (lookup_lt_is_Some_2 rankings (rank_scan value rankings 0)) as [hi Hhi]; [lia|].
      destruct (lookup_lt_is_Some_2 rankings (rank_scan value rankings 0 - 1)) as [lo Hlo]; [lia|].
      pose proof (Hat hi Hhi) as Hv_hi.
      assert (lo <= value)%Q as Hlo_v by (apply (Hbefore _ lo) in Hlo; [assumption | lia]).
      unfold py_index. rewrite Hhi, Hlo. simpl.
      rewrite (py_div_pos _ (hi - lo)) by lra. simpl.
      rewrite py_div_pos by assumption.
      now apply rank_interpolated.
    + apply Nat.ltb_ge in E2. simpl. rewrite py_div_pos by assumption.
      replace (rank_scan value rankings 0) with 0%nat by lia.
      apply rank_minimum. lia.
Qed.

(** The rank lies between [(index - 1) / len] and [index / len]; at the
    two ends it is exactly 0 and 1. *)
Lemma get_rank_bracket (value : Q) (rankings : list Q) :
  rankings <> [] ->
  exists r, get_rank value rankings = Ok r /\
    let index := rank_scan value rankings 0 in
    let len := Q_of_nat (length rankings) in
    (r <= Q_of_nat index / len)%Q /\
    (Q_of_nat (index - 1) / len <= r)%Q /\
    (index = 0%nat -> r == 0)%Q /\
    (index = length rankings -> r == 1)%Q.
Proof.
  intros Hne.
  assert (0 < length rankings)%nat as Hlen by (destruct rankings; [done | simpl; lia]).
  pose proof (Q_of_nat_pos _ Hlen) as Hpos.
  destruct (get_rank_specP value rankings Hne) as [H0 | Hn | lo hi index Hidx Hlo Hhi Hv].
  - eexists; split; [reflexivity|]. simpl. rewrite H0. simpl.
    repeat split; try apply Qle_refl; intros; try apply Qdiv_zero.
    exfalso; lia.
  - eexists; split; [reflexivity|]. simpl. rewrite Hn.
    repeat split; try apply Qle_refl.
    + apply Qdiv_le_mono; [assumption | apply Q_of_nat_le; lia].
    + intros; exfalso; lia.
    + intros _. now apply Qdiv_same.
  - eexists; split; [reflexivity|]. simpl. fold index.
    assert (0 <= (value - lo) / (hi - lo) < 1)%Q as Hfrac.
    { split.
      - apply Qle_shift_div_l; lra.
      - apply Qlt_shift_div_r; lra. }
    pose proof (Q_of_nat_pred index ltac:(lia)) as Hpred.
    repeat split.
    + apply Qdiv_le_mono; [assumption | lra].
    + apply Qdiv_le_mono; [assumption | lra].
    + intros; exfalso; lia.
    + intros; exfalso; lia.
Qed.

Lemma nonempty_length {A : Type} (l : list A) : l <> [] -> (0 < length l)%nat.
Proof. destruct l; [done | simpl; lia]. Qed.


Lemma get_rank_mono (v1 v2 : Q) (rankings : list Q) (r1 r2 : Q) :
  (v1 <= v2)%Q ->
  get_rank v1 rankings = Ok r1 ->
  get_rank v2 rankings = Ok r2 ->
  (r1 <= r2)%Q.
Proof.
  intros Hv H1 H2.
  destruct (decide (rankings = [])) as [->|Hne]; [discriminate|].
  pose proof (nonempty_length _ Hne) as Hlen.
  pose proof (Q_of_nat_pos _ Hlen) as Hpos.
  pose proof (rank_scan_mono v1 v2 rankings Hv) as Hidx.
  destruct (Nat.eq_dec (rank_scan v1 rankings 0) (rank_scan v2 rankings 0)) as [Heq|Hneq].
  - (* the same interval: the fraction grows with the value *)
    destruct (get_rank_specP v1 rankings Hne) as [A0 | An | lo hi i1 Hi1 Hlo Hhi Hb1];
      destruct (get_rank_specP v2 rankings Hne) as [B0 | Bn | lo' hi' i2 Hi2 Hlo' Hhi' Hb2];
      try subst i1; try subst i2; try (exfalso; lia);
      injection H1 as <-; injection H2 as <-; try apply Qle_refl.
    rewrite <- Heq in Hlo', Hhi'.
    assert (lo' = lo) as -> by congruence.
    assert (hi' = hi) as -> by congruence.
    rewrite <- Heq.
    apply Qdiv_le_mono; [assumption|].
    apply Qplus_le_r. apply Qdiv_le_mono; lra.
  - (* a later interval: the brackets are ordered *)
    destruct (get_rank_bracket v1 rankings Hne) as (r1' & E1 & Hup & _ & _ & _).
    destruct (get_rank_bracket v2 rankings Hne) as (r2' & E2 & _ & Hlow & _ & _).
    simpl in Hup, Hlow.
    assert (r1' = r1) as -> by congruence.
    assert (r2' = r2) as -> by congruence.
    eapply Qle_trans; [exact Hup|]. eapply Qle_trans; [|exact Hlow].
    apply Qdiv_le_mono; [assumption|]. apply Q_of_nat_le. lia.
Qed.

Lemma get_rank_returns (value : Q) (rankings : list Q) :
  rankings <> [] -> exists r, get_rank value rankings = Ok r.
Proof.
  intros Hne. destruct (get_rank_bracket value rankings Hne) as (r & E & _).
  now exists r.
Qed.

Lemma get_rank_range (value : Q) (rankings : list Q) (r : Q) :
  get_rank value rankings = Ok r -> (0 <= r <= 1)%Q.
Proof.
  intros E. destruct (decide (rankings = [])) as [->|Hne]; [discriminate|].
  pose proof (Q_of_nat_pos _ (nonempty_length _ Hne)) as Hpos.
  destruct (rank_scan_insertion_position value rankings) as (Hle & _).
  destruct (get_rank_bracket value rankings Hne) as (r' & E' & Hup & Hlow & _ & _).
  simpl in Hup, Hlow. assert (r' = r) as -> by congruence. split.
  - eapply Qle_trans; [|exact Hlow].
    apply Qle_shift_div_l; [assumption|].
    rewrite Qmult_0_l. apply (Q_of_nat_le 0). lia.
  - eapply Qle_trans; [exact Hup|].
    apply Qle_shift_div_r; [assumption|].
    rewrite Qmult_1_l. now apply Q_of_nat_le.
Qed.

(** ** [get_rank]: the claims *)







(** ** Lists: slices, swaps and the shuffle *)

Lemma py_slice_to_take {A : Type} (n : Z) (l : list A) :
  exists k, py_slice_to n l = take k l.
Proof. unfold py_slice_to. destruct (n <? 0)%Z; eauto. Qed.

Lemma py_slice_to_nonneg {A : Type} (n : Z) (l : list A) :
  (0 <= n)%Z -> py_slice_to n l = take (Z.to_nat n) l.
Proof.
  intros Hn. unfold py_slice_to.
  destruct (Z.ltb_spec n 0) as [H|_]; [lia | reflexivity].
Qed.

Lemma py_slice_to_subseteq {A : Type} (n : Z) (l : list A) : py_slice_to n l ⊆ l.
Proof. destruct (py_slice_to_take n l) as [k ->]. apply subseteq_take. Qed.

Lemma insert_Permutation {A : Type} (l : list A) (i : nat) (x : A) :
  (i < length l)%nat -> <[i := x]> l ≡ₚ x :: delete i l.
Proof.
  intros Hi. rewrite insert_take_drop, delete_take_drop by assumption.
  symmetry. apply Permutation_middle.
Qed.

Lemma swap_Permutation {A : Type} (i j : nat) (x : list A) : swap i j x ≡ₚ x.
Proof.
  unfold swap.
  destruct (x !! i) as [a|] eqn:Hi; [|reflexivity].
  destruct (x !! j) as [b|] eqn:Hj; [|reflexivity].
  pose proof (lookup_lt_Some _ _ _ Hi) as Hilt.
  pose proof (lookup_lt_Some _ _ _ Hj) as Hjlt.
  destruct (decide (i = j)) as [->|Hne].
  - assert (a = b) as -> by congruence.
    rewrite (list_insert_id x j b Hj). now rewrite (list_insert_id x j b Hj).
  - set (y := <[i := b]> x).
    assert (y !! j = Some b) as Hyj
      by (unfold y; now rewrite list_lookup_insert_ne).
    assert (delete j y ≡ₚ delete i x) as Hdel.
    { apply (Permutation.Permutation_cons_inv (a := b)).
      rewrite <- (delete_Permutation y j b Hyj).
      unfold y. now apply insert_Permutation. }
    rewrite insert_Permutation by (unfold y; now rewrite length_insert).
    rewrite Hdel. symmetry. now apply delete_Permutation.
Qed.

Lemma shuffle_from_Permutation {A : Type} (i : nat) (g : rng) (x : list A) :
  (shuffle_from i g x).1 ≡ₚ x.
Proof.
  revert g x. induction i as [|i IH]; intros g x; simpl; [reflexivity|].
  destruct (randbelow g (S (S i))) as [j g'].
  rewrite IH. apply swap_Permutation.
Qed.

Lemma shuffle_Permutation {A : Type} (g : rng) (x : list A) : (shuffle g x).1 ≡ₚ x.
Proof. apply shuffle_from_Permutation. Qed.

(** ** The sorts *)

Section SortDesc.
Context {A : Type} (key : A -> Q).

Lemma insert_desc_Permutation (x : A) (l : list A) :
  insert_desc key x l ≡ₚ x :: l.
Proof.
  induction l as [|y l IH]; simpl; [reflexivity|].
  destruct (Qltb (key x) (key y)); [|reflexivity].
  rewrite IH. apply Permutation_swap.
Qed.

Lemma sort_desc_Permutation (l : list A) : sort_desc key l ≡ₚ l.
Proof.
  induction l as [|x l IH]; simpl; [reflexivity|].
  unfold sort_desc in *. simpl. rewrite insert_desc_Permutation.
  now rewrite IH.
Qed.

Lemma insert_desc_sorted (x : A) (l : list A) :
  StronglySorted (key_ge key) l -> StronglySorted (key_ge key) (insert_desc key x l).
Proof.
  induction 1 as [|y l Hs IH Hall]; simpl.
  - repeat constructor.
  - destruct (Qltb (key x) (key y)) eqn:E.
    + apply Qltb_lt in E. constructor; [assumption|].
      rewrite Forall_forall. intros z Hz.
      rewrite insert_desc_Permutation in Hz.
      apply elem_of_cons in Hz as [->|Hz].
      * unfold key_ge. lra.
      * rewrite Forall_forall in Hall. now apply Hall.
    + apply Qltb_ge in E. constructor; [now constructor|].
      constructor; [exact E|].
      eapply Forall_impl; [exact Hall|].
      intros z Hz. unfold key_ge in *. lra.
Qed.

Lemma sort_desc_sorted (l : list A) : StronglySorted (key_ge key) (sort_desc key l).
Proof.
  induction l as [|x l IH]; [constructor|].
  unfold sort_desc in *. simpl. now apply insert_desc_sorted.
Qed.

(** Stability: among the elements of one key, the order of the input
    is kept. *)
Lemma insert_desc_stable (k : Q) (x : A) (l : list A) :
  StronglySorted (key_ge key) l ->
  List.filter (fun y => Qeq_bool (key y) k) (insert_desc key x l) =
  List.filter (fun y => Qeq_bool (key y) k) (x :: l).
Proof.
  induction 1 as [|y l Hs IH Hall]; [reflexivity|].
  cbn [insert_desc].
  destruct (Qltb (key x) (key y)) eqn:E; [|reflexivity].
  apply Qltb_lt in E.
  cbn [List.filter] in *. rewrite IH.
  destruct (Qeq_bool (key x) k) eqn:Ex; [|reflexivity].
  destruct (Qeq_bool (key y) k) eqn:Ey; [|reflexivity].
  apply Qeq_bool_eq in Ex, Ey. lra.
Qed.

Lemma sort_desc_stable (k : Q) (l : list A) :
  List.filter (fun y => Qeq_bool (key y) k) (sort_desc key l) =
  List.filter (fun y => Qeq_bool (key y) k) l.
Proof.
  induction l as [|x l IH]; [reflexivity|].
  unfold sort_desc in *. cbn [foldr].
  rewrite insert_desc_stable by apply sort_desc_sorted.
  cbn [List.filter]. now rewrite IH.
Qed.

Lemma sort_desc_length (l : list A) : length (sort_desc key l) = length l.
Proof. apply Permutation_length, sort_desc_Permutation. Qed.

End SortDesc.

Lemma insert_asc_Permutation (x : Q) (l : list Q) : insert_asc x l ≡ₚ x :: l.
Proof.
  induction l as [|y l IH]; simpl; [reflexivity|].
  destruct (Qltb y x); [|reflexivity].
  rewrite IH. apply Permutation_swap.
Qed.

Lemma sort_asc_Permutation (l : list Q) : sort_asc l ≡ₚ l.
Proof.
  induction l as [|x l IH]; [reflexivity|].
  unfold sort_asc in *. simpl. rewrite insert_asc_Permutation. now rewrite IH.
Qed.

Lemma insert_asc_sorted (x : Q) (l : list Q) :
  StronglySorted Qle l -> StronglySorted Qle (insert_asc x l).
Proof.
  induction 1 as [|y l Hs IH Hall]; simpl.
  - repeat constructor.
  - destruct (Qltb y x) eqn:E.
    + apply Qltb_lt in E. constructor; [assumption|].
      rewrite Forall_forall. intros z Hz.
      rewrite insert_asc_Permutation in Hz.
      apply elem_of_cons in Hz as [->|Hz]; [lra|].
      rewrite Forall_forall in Hall. now apply Hall.
    + apply Qltb_ge in E. constructor; [now constructor|].
      constructor; [exact E|].
      eapply Forall_impl; [exact Hall|]. intros z Hz. lra.
Qed.

Lemma sort_asc_sorted (l : list Q) : Sorted Qle (sort_asc l).
Proof.
  apply StronglySorted_Sorted.
  induction l as [|x l IH]; [constructor|].
  unfold sort_asc in *. simpl. now apply insert_asc_sorted.
Qed.

Lemma sort_asc_length (l : list Q) : length (sort_asc l) = length l.
Proof. apply Permutation_length, sort_asc_Permutation. Qed.

(** ** [get_cluster_samples]: the epochs *)

Section Epochs.
Context `{CosineClustersOps}.

Lemma epoch_state_S (h : heap) (cc : cosine_clusters) (data : list ref) (k : nat) :
  epoch_state h cc data (S k) =
  epoch_state h (add_items_to_best_cluster h cc data).1 data k.
Proof. unfold epoch_state. now rewrite Nat.iter_succ_r. Qed.

Lemma epoch_added_S (h : heap) (cc : cosine_clusters) (data : list ref) (k : nat) :
  epoch_added h cc data (S k) =
  epoch_added h (add_items_to_best_cluster h cc data).1 data k.
Proof. unfold epoch_added. now rewrite epoch_state_S. Qed.

Lemma cluster_epochs_trace (h : heap) (epochs : nat) (cc : cosine_clusters)
    (data : list ref) :
  let trace := (cluster_epochs h epochs cc data).2 in
  (length trace <= epochs)%nat /\
  (forall k, (k < length trace)%nat ->
     trace !! k = Some (epoch_added h cc data k)) /\
  (forall k, (S k < length trace)%nat -> epoch_added h cc data k <> 0%nat) /\
  ((length trace < epochs)%nat ->
   exists k, length trace = S k /\ epoch_added h cc data k = 0%nat) /\
  (cluster_epochs h epochs cc data).1 = epoch_state h cc data (length trace).
Proof.
  revert cc. induction epochs as [|n IH]; intros cc; simpl.
  - repeat split; try (intros; lia).
  - specialize (IH (add_items_to_best_cluster h cc data).1).
    assert (epoch_added h cc data 0 = (add_items_to_best_cluster h cc data).2)
      as H0 by reflexivity.
    destruct (add_items_to_best_cluster h cc data) as [cc1 added] eqn:Estep.
    simpl in IH, H0.
    destruct (Nat.eqb_spec added 0) as [->|Hadded]; simpl.
    + refine (conj _ (conj _ (conj _ (conj _ _)))).
      * lia.
      * intros [|k] Hk; [now rewrite H0 | lia].
      * intros k Hk; lia.
      * intros _. exists 0%nat. now rewrite H0.
      * now rewrite Estep.
    + destruct (cluster_epochs h n cc1 data) as [cc2 trace] eqn:Erec.
      cbn [fst snd length] in *. destruct IH as (Hlen & Hnth & Hnz & Hstop & Hst).
      assert (forall k, epoch_added h cc data (S k) = epoch_added h cc1 data k) as HS.
      { intros k. rewrite epoch_added_S. now rewrite Estep. }
      refine (conj _ (conj _ (conj _ (conj _ _)))).
      * lia.
      * intros [|k] Hk; simpl; [now rewrite H0|].
        rewrite HS. apply Hnth. lia.
      * intros [|k] Hk; [now rewrite H0|].
        rewrite HS. apply Hnz. lia.
      * intros Hlt. destruct Hstop as (k & Hk & Hz); [lia|].
        exists (S k). rewrite HS. split; [lia | assumption].
      * rewrite epoch_state_S, Estep. exact Hst.
Qed.

(** C8: the loop of [get_cluster_samples] runs at most [max_epochs]
    epochs, each on the clusters that the one before left and on the
    same working set; every epoch except the last one that ran moved at
    least one item, and when fewer than [max_epochs] epochs ran, the
    last one moved none: the loop stops at the first epoch that moves
    nothing or after [max_epochs] epochs, whichever comes first. *)
Theorem get_cluster_samples_epochs (h : heap) (g : rng) (data : list ref)
    (num_clusters max_epochs limit : Z) :
  let working := (limit_data g data limit).1.2 in
  let seeded :=
    (add_random_training_items h (new_cosine_clusters num_clusters) working
       (limit_data g data limit).2).1 in
  let trace := (get_cluster_samples h g data num_clusters max_epochs limit).1.1.2 in
  (Z.of_nat (length trace) <= Z.max 0 max_epochs)%Z /\
  (forall k, (k < length trace)%nat ->
     trace !! k = Some (epoch_added h seeded working k)) /\
  (forall k, (S k < length trace)%nat -> epoch_added h seeded working k <> 0%nat) /\
  ((Z.of_nat (length trace) < max_epochs)%Z ->
   exists k, length trace = S k /\ epoch_added h seeded working k = 0%nat).
Proof.
  intros working seeded trace.
  assert (trace = (cluster_epochs h (Z.to_nat max_epochs) seeded working).2) as ->.
  { unfold trace, seeded, working, get_cluster_samples.
    destruct (limit_data g data limit) as [[caller w] g1]. simpl.
    destruct (add_random_training_items h (new_cosine_clusters num_clusters) w g1)
      as [cc g2]. simpl.
    destruct (cluster_epochs h (Z.to_nat max_epochs) cc w) as [cc' tr].
    destruct (get_randoms h cc' g2) as [rs g3]. reflexivity. }
  destruct (cluster_epochs_trace h (Z.to_nat max_epochs) seeded working)
    as (Hlen & Hnth & Hnz & Hstop & _).
  refine (conj _ (conj Hnth (conj Hnz _))); [lia|].
  intros Hlt. apply Hstop. lia.
Qed.
End Epochs.

(** ** Writes to the heap *)

Lemma same_identity_refl (h : heap) : same_identity h h.
Proof. intros r. repeat split. Qed.

Lemma same_identity_trans (h1 h2 h3 : heap) :
  same_identity h1 h2 -> same_identity h2 h3 -> same_identity h1 h3.
Proof.
  intros H12 H23 r. destruct (H12 r) as (? & ? & ?), (H23 r) as (? & ? & ?).
  repeat split; congruence.
Qed.

Lemma set_strategy_same_identity (h : heap) (r : ref) (s : string) :
  same_identity h (set_strategy h r s).
Proof.
  intros r'. unfold set_strategy.
  destruct (Nat.eqb_spec r' r) as [->|_]; repeat split.
Qed.

Lemma set_score_same_identity (h : heap) (r : ref) (q : Q) :
  same_identity h (set_score h r q).
Proof.
  intros r'. unfold set_score.
  destruct (Nat.eqb_spec r' r) as [->|_]; repeat split.
Qed.

Lemma set_strategy_other (h : heap) (r r' : ref) (s : string) :
  r' <> r -> set_strategy h r s r' = h r'.
Proof. intros Hne. unfold set_strategy. now destruct (Nat.eqb_spec r' r). Qed.

Lemma set_score_other (h : heap) (r r' : ref) (q : Q) :
  r' <> r -> set_score h r q r' = h r'.
Proof. intros Hne. unfold set_score. now destruct (Nat.eqb_spec r' r). Qed.

Lemma scored_item (h : heap) (r : ref) (s : string) (q : Q) :
  set_score (set_strategy h r s) r q r
  = Item (textid (h r)) (text (h r)) (label (h r)) s q.
Proof. unfold set_score, set_strategy. now rewrite Nat.eqb_refl. Qed.

Lemma scored_other (h : heap) (r r' : ref) (s : string) (q : Q) :
  r' <> r -> set_score (set_strategy h r s) r q r' = h r'.
Proof. intros Hne. now rewrite set_score_other, set_strategy_other. Qed.

Lemma scored_same_identity (h : heap) (r : ref) (s : string) (q : Q) :
  same_identity h (set_score (set_strategy h r s) r q).
Proof.
  eapply same_identity_trans;
    [apply set_strategy_same_identity | apply set_score_same_identity].
Qed.

(** ** [get_representative_samples] *)

Section Representative.
Context `{ClusterOps}.

Lemma representativeness_text (tc uc : cluster) (a b : item) :
  text a = text b -> representativeness tc uc a = representativeness tc uc b.
Proof.
  intros E. unfold representativeness, cosine_similary. now rewrite E.
Qed.

Lemma score_representative_spec (tc uc : cluster) (l : list ref) (h : heap) :
  let h' := score_representative tc uc l h in
  same_identity h h' /\
  (forall r, r ∈ l ->
     strategy (h' r) = "representative" /\
     score (h' r) = representativeness tc uc (h r)) /\
  (forall r, r ∉ l -> h' r = h r).
Proof.
  revert h. induction l as [|a l IH]; intros h; simpl.
  - split; [apply same_identity_refl|]. split; [|reflexivity].
    intros r Hr. inversion Hr.
  - set (h1 := set_score (set_strategy h a "representative") a
                 (representativeness tc uc (h a))).
    destruct (IH h1) as (Hid & Hin & Hout).
    assert (same_identity h h1) as Hid1 by apply scored_same_identity.
    split; [now apply (same_identity_trans h h1)|]. split.
    + intros r Hr. destruct (decide (r ∈ l)) as [Hl|Hl].
      * destruct (Hin r Hl) as [Hs Hq]. split; [exact Hs|].
        rewrite Hq. apply representativeness_text. apply Hid1.
      * apply elem_of_cons in Hr as [->|Hr]; [|contradiction].
        unfold score_representative in Hout. simpl in Hout. fold h1 in Hout.
        unfold score_representative. simpl. fold h1.
        rewrite (Hout a Hl). unfold h1. now rewrite scored_item.
    + intros r Hr. apply not_elem_of_cons in Hr as [Hne Hl].
      unfold score_representative in Hout. simpl in Hout. fold h1 in Hout.
      unfold score_representative. simpl. fold h1.
      rewrite (Hout r Hl). unfold h1. now apply scored_other.
Qed.

Lemma limit_sets_spec (g : rng) (training_data unlabeled_data : list ref) (limit : Z) :
  let '((caller_training, training), (caller_unlabeled, unlabeled), _) :=
    limit_sets g training_data unlabeled_data limit in
  caller_training ≡ₚ training_data /\
  caller_unlabeled ≡ₚ unlabeled_data /\
  training = (if (0 <? limit)%Z then py_slice_to limit caller_training
              else training_data) /\
  unlabeled = (if (0 <? limit)%Z then py_slice_to limit caller_unlabeled
               else unlabeled_data).
Proof.
  unfold limit_sets. destruct (0 <? limit)%Z; [|done].
  pose proof (shuffle_Permutation g training_data) as Ht.
  destruct (shuffle g training_data) as [ct g1].
  pose proof (shuffle_Permutation g1 unlabeled_data) as Hu.
  destruct (shuffle g1 unlabeled_data) as [cu g2]. done.
Qed.

(** The list that the scoring loop runs over. *)
Lemma working_subseteq (g : rng) (training_data unlabeled_data : list ref) (limit : Z) :
  (limit_sets g training_data unlabeled_data limit).1.2.2 ⊆ unlabeled_data.
Proof.
  pose proof (limit_sets_spec g training_data unlabeled_data limit) as Hl.
  destruct (limit_sets g training_data unlabeled_data limit)
    as [[[ct t] [cu u]] g']. simpl.
  destruct Hl as (_ & Hcu & _ & ->).
  destruct (0 <? limit)%Z; [|done].
  intros r Hr. rewrite <- Hcu. now apply (py_slice_to_subseteq limit cu).
Qed.
End Representative.

Section RepresentativeClaims.
Context `{ClusterOps}.

(** The call, piece by piece. *)
Lemma get_representative_samples_unfold (h : heap) (g : rng)
    (training_data unlabeled_data : list ref) (number limit : Z) :
  let sets := limit_sets g training_data unlabeled_data limit in
  let working := sets.1.2.2 in
  let h' := score_representative (fill_cluster h sets.1.1.2) (fill_cluster h working)
              working h in
  let sorted := sort_desc (fun x => score (h' x)) working in
  get_representative_samples h g training_data unlabeled_data number limit =
  Outcome (py_slice_to number sorted) h' sets.2 sets.1.1.1
    (if (0 <? limit)%Z then sets.1.2.1 else sorted).
Proof.
  unfold get_representative_samples.
  now destruct (limit_sets g training_data unlabeled_data limit)
    as [[[ct t] [cu u]] g'].
Qed.

Lemma limit_sets_unfold (g : rng) (training_data unlabeled_data : list ref) (limit : Z) :
  limit_sets g training_data unlabeled_data limit =
  if (0 <? limit)%Z then
    (((shuffle g training_data).1,
      py_slice_to limit (shuffle g training_data).1),
     ((shuffle (shuffle g training_data).2 unlabeled_data).1,
      py_slice_to limit (shuffle (shuffle g training_data).2 unlabeled_data).1),
     (shuffle (shuffle g training_data).2 unlabeled_data).2)
  else ((training_data, training_data), (unlabeled_data, unlabeled_data), g).
Proof.
  unfold limit_sets. destruct (0 <? limit)%Z; [|reflexivity].
  destruct (shuffle g training_data) as [ct g1]. simpl.
  now destruct (shuffle g1 unlabeled_data) as [cu g2].
Qed.

Lemma heap_after_same_identity (h : heap) (g : rng)
    (training_data unlabeled_data : list ref) (number limit : Z) :
  same_identity h
    (heap_after (get_representative_samples h g training_data unlabeled_data number limit)).
Proof.
  rewrite get_representative_samples_unfold. simpl.
  apply score_representative_spec.
Qed.

Lemma unlabeled_after_Permutation (h : heap) (g : rng)
    (training_data unlabeled_data : list ref) (number limit : Z) :
  unlabeled_after (get_representative_samples h g training_data unlabeled_data number limit)
  ≡ₚ unlabeled_data.
Proof.
  rewrite get_representative_samples_unfold. simpl.
  pose proof (limit_sets_spec g training_data unlabeled_data limit) as Hl.
  destruct (limit_sets g training_data unlabeled_data limit)
    as [[[ct t] [cu u]] g']. simpl.
  destruct Hl as (_ & Hcu & _ & Hu).
  destruct (0 <? limit)%Z; [exact Hcu|].
  rewrite sort_desc_Permutation. now rewrite Hu.
Qed.

Lemma training_after_Permutation (h : heap) (g : rng)
    (training_data unlabeled_data : list ref) (number limit : Z) :
  training_after (get_representative_samples h g training_data unlabeled_data number limit)
  ≡ₚ training_data.
Proof.
  rewrite get_representative_samples_unfold. simpl.
  pose proof (limit_sets_spec g training_data unlabeled_data limit) as Hl.
  destruct (limit_sets g training_data unlabeled_data limit)
    as [[[ct t] [cu u]] g']. simpl. apply Hl.
Qed.

(** C5 (as stated): with a limit (the default) the list is shuffled
    before it is scored and sorted, and the items of one score come back
    in the shuffled order, not in the order of the input: the items 0 and
    1 have the same score and are returned as [[1; 0]]. *)
Lemma get_representative_samples_shuffled_ties :
  let o := get_representative_samples (H := counting_cluster) news [0%nat]
             [3%nat] [0%nat; 1%nat] 20 10000 in
  (score (heap_after o 0%nat) == score (heap_after o 1%nat))%Q /\
  returned o = [1%nat; 0%nat] /\
  ~ (forall k,
       List.filter (fun x => Qeq_bool (score (heap_after o x)) k) (returned o) =
       List.filter (fun x => Qeq_bool (score (heap_after o x)) k) [0%nat; 1%nat]).
Proof.
  intros o. split; [reflexivity|]. split; [reflexivity|].
  intros Hstable. specialize (Hstable 0%Q). vm_compute in Hstable. discriminate.
Qed.

(** C5 (amended): for every item of the target set that the function
    works on, the score is the similarity to the profile of the target
    set minus the similarity to the profile of the reference set, and the
    strategy is ["representative"].  The result is the first [number]
    items of the working list sorted by descending score; the sort is a
    permutation of the working list and it is stable: the items of any
    one score keep the order they had in the working list.  The working
    list is the input list when [limit <= 0], so that the order of the
    input is kept; with [limit > 0] it is the first [limit] items of the
    shuffled input, and the order that is kept is the shuffled one. *)
Theorem get_representative_samples_scores (h : heap) (g : rng)
    (training_data unlabeled_data : list ref) (number limit : Z) :
  let sets := limit_sets g training_data unlabeled_data limit in
  let training_cluster := fill_cluster h sets.1.1.2 in
  let working := sets.1.2.2 in
  let unlabeled_cluster := fill_cluster h working in
  let o := get_representative_samples h g training_data unlabeled_data number limit in
  let h' := heap_after o in
  let sorted := sort_desc (fun x => score (h' x)) working in
  (forall r, r ∈ working ->
     strategy (h' r) = "representative" /\
     score (h' r) =
       (cosine_similary unlabeled_cluster (h r)
        - cosine_similary training_cluster (h r))%Q) /\
  returned o = py_slice_to number sorted /\
  ((0 <= number)%Z -> returned o = take (Z.to_nat number) sorted) /\
  sorted ≡ₚ working /\
  StronglySorted (key_ge (fun x => score (h' x))) sorted /\
  (forall k,
     List.filter (fun x => Qeq_bool (score (h' x)) k) sorted =
     List.filter (fun x => Qeq_bool (score (h' x)) k) working) /\
  ((limit <= 0)%Z ->
   working = unlabeled_data /\
   forall k,
     List.filter (fun x => Qeq_bool (score (h' x)) k) sorted =
     List.filter (fun x => Qeq_bool (score (h' x)) k) unlabeled_data) /\
  ((0 < limit)%Z ->
   working =
   py_slice_to limit (shuffle (shuffle g training_data).2 unlabeled_data).1).
Proof.
  intros sets training_cluster working unlabeled_cluster o h' sorted.
  assert (h' = score_representative training_cluster unlabeled_cluster working h
          /\ returned o = py_slice_to number sorted) as [Hh Hret].
  { unfold sorted, h', o. rewrite get_representative_samples_unfold. now split. }
  destruct (score_representative_spec training_cluster unlabeled_cluster working h)
    as (_ & Hin & _).
  rewrite <- Hh in Hin.
  refine (conj Hin (conj Hret (conj _ (conj _ (conj _ (conj _ (conj _ _))))))).
  - intros Hn. rewrite Hret. now apply py_slice_to_nonneg.
  - apply sort_desc_Permutation.
  - apply sort_desc_sorted.
  - intros k. apply sort_desc_stable.
  - intros Hlimit.
    assert (working = unlabeled_data) as Hw.
    { unfold working, sets, limit_sets.
      now rewrite (proj2 (Z.ltb_ge 0 limit) Hlimit). }
    split; [exact Hw|]. intros k. rewrite <- Hw. apply sort_desc_stable.
  - intros Hlimit. unfold working, sets, limit_sets.
    rewrite (proj2 (Z.ltb_lt 0 limit) Hlimit).
    destruct (shuffle g training_data) as [ct g1]. cbn [snd].
    now destruct (shuffle g1 unlabeled_data) as [cu g2].
Qed.

(** C9: [get_representative_samples] writes only the strategy and the
    score of an item: [ID], [TEXT] and [LABEL] of every item are as
    before, and an item outside the target set is not written at all.
    The two lists of the caller keep their elements; with [limit > 0]
    they are what the two shuffles leave, and without a limit the
    training list is untouched and the list of unlabeled items is sorted
    in place. *)
Theorem get_representative_samples_frame (h : heap) (g : rng)
    (training_data unlabeled_data : list ref) (number limit : Z) :
  let o := get_representative_samples h g training_data unlabeled_data number limit in
  same_identity h (heap_after o) /\
  (forall r, r ∉ unlabeled_data -> heap_after o r = h r) /\
  training_after o ≡ₚ training_data /\
  unlabeled_after o ≡ₚ unlabeled_data /\
  length (training_after o) = length training_data /\
  length (unlabeled_after o) = length unlabeled_data /\
  ((0 < limit)%Z ->
   training_after o = (shuffle g training_data).1 /\
   unlabeled_after o = (shuffle (shuffle g training_data).2 unlabeled_data).1) /\
  ((limit <= 0)%Z ->
   training_after o = training_data /\
   unlabeled_after o = sort_desc (fun x => score (heap_after o x)) unlabeled_data).
Proof.
  intros o.
  pose proof (heap_after_same_identity h g training_data unlabeled_data number limit)
    as Hid.
  pose proof (training_after_Permutation h g training_data unlabeled_data number limit)
    as Htr.
  pose proof (unlabeled_after_Permutation h g training_data unlabeled_data number limit)
    as Hun.
  fold o in Hid, Htr, Hun.
  refine (conj Hid (conj _ (conj Htr (conj Hun (conj _ (conj _ (conj _ _))))))).
  - intros r Hr. unfold o. rewrite get_representative_samples_unfold. simpl.
    apply score_representative_spec. intros Hin. apply Hr.
    now apply (working_subseteq g training_data unlabeled_data limit).
  - now apply Permutation_length.
  - now apply Permutation_length.
  - intros Hpos. unfold o. rewrite get_representative_samples_unfold.
    rewrite limit_sets_unfold.
    destruct (Z.ltb_spec 0 limit) as [_|Hle]; [|lia]. now split.
  - intros Hle. unfold o. rewrite get_representative_samples_unfold.
    rewrite limit_sets_unfold.
    destruct (Z.ltb_spec 0 limit) as [Hpos|_]; [lia|]. now split.
Qed.

(** C4, the entry point that does not skip: [get_representative_samples]
    never reads [already_labeled].  With the training item ["d"], the
    one item ["a"] in the list of unlabeled items and [already_labeled =
    {"a": "1", "d": "1"}], it returns the item ["a"]. *)
Theorem get_representative_samples_returns_labeled :
  let already_labeled : gmap string string := {[ "a" := "1"; "d" := "1" ]} in
  let o := get_representative_samples news [] [3%nat] [0%nat] 1 10000 in
  returned o = [0%nat] /\
  textid (heap_after o 0%nat) = "a" /\
  in_already_labeled already_labeled (textid (heap_after o 0%nat)) = true.
Proof.
  intros already_labeled o.
  assert (returned o = [0%nat]) as Hret by reflexivity.
  assert (textid (heap_after o 0%nat) = "a") as Hid by reflexivity.
  split; [exact Hret|]. split; [exact Hid|].
  rewrite Hid. reflexivity.
Qed.
End RepresentativeClaims.

Lemma get_representative_samples_scores_witness :
  let o := get_representative_samples (H := counting_cluster) news []
             [3%nat] [0%nat; 1%nat] 2 (-1) in
  (0 <= 2)%Z /\ (-1 <= 0)%Z /\
  strategy (heap_after o 1%nat) = "representative" /\
  score (heap_after o 1%nat) = ((1 # 2) - (1 # 2))%Q /\
  score (heap_after o 0%nat) = score (heap_after o 1%nat) /\
  returned o = [0%nat; 1%nat].
Proof.
  intros o.
  destruct (get_representative_samples_scores (H := counting_cluster) news []
              [3%nat] [0%nat; 1%nat] 2 (-1))
    as (Hin & _ & Htake & _ & _ & _ & Hinput & _).
  split; [lia|]. split; [lia|].
  destruct (Hin 1%nat) as [Hstrategy Hscore]; [right; left|].
  split; [exact Hstrategy|]. split; [exact Hscore|].
  split; [reflexivity|].
  destruct (Hinput ltac:(lia)) as [Hworking _].
  unfold o. rewrite (Htake ltac:(lia)), Hworking. reflexivity.
Defined.

Lemma get_representative_samples_frame_witness :
  let o := get_representative_samples (H := counting_cluster) news [2%nat]
             [3%nat] [0%nat; 1%nat] 1 10000 in
  (0 < 10000)%Z /\
  unlabeled_after o = [1%nat; 0%nat] /\
  label (heap_after o 1%nat) = "" /\
  heap_after o 2%nat = match_report.
Proof.
  intros o.
  destruct (get_representative_samples_frame (H := counting_cluster) news
              [2%nat] [3%nat] [0%nat; 1%nat] 1 10000)
    as (Hid & Hout & _ & _ & _ & _ & Hshuffled & _).
  split; [lia|]. split; [exact (proj2 (Hshuffled ltac:(lia)))|].
  split; [exact (proj2 (proj2 (Hid 1%nat)))|].
  apply (Hout 2%nat). intros Hin. repeat (apply elem_of_cons in Hin as [Hin|Hin]; [discriminate|]).
  inversion Hin.
Defined.

(** ** [get_adaptive_representative_samples] *)


Lemma item_eqb_score (a b : item) :
  item_eqb a b = true -> Qeq_bool (score a) (score b) = true.
Proof.
  unfold item_eqb. rewrite !andb_true_iff. now intros [_ Hscore].
Qed.

(** [remove] takes out the first occurrence of the item it is given
    when no item in front of it is equal to it. *)
Lemma list_remove_first (h : heap) (x : ref) (l1 l2 : list ref) :
  x ∉ l1 ->
  (forall y, y ∈ l1 -> item_eqb (h y) (h x) = false) ->
  list_remove h x (l1 ++ x :: l2) = Ok (l1 ++ l2).
Proof.
  induction l1 as [|a l1 IH]; intros Hx Hy; simpl.
  - now rewrite Nat.eqb_refl.
  - apply not_elem_of_cons in Hx as [Hne Hx].
    destruct (Nat.eqb_spec a x) as [E|_]; [congruence|].
    rewrite (Hy a) by left. simpl.
    rewrite IH; [reflexivity | exact Hx | intros y Hin; apply Hy; now right].
Qed.

(** The head of the stable descending sort of a prefix of a list: no
    item in front of its first occurrence in the list has its key. *)
Lemma sort_desc_head_first {A : Type} (key : A -> Q) (l1 l2 rest : list A)
    (x : A) (n : nat) :
  x ∉ l1 ->
  sort_desc key (take n (l1 ++ x :: l2)) = x :: rest ->
  forall y, y ∈ l1 -> Qeq_bool (key y) (key x) = false.
Proof.
  intros Hx Hsort y Hy.
  destruct (Qeq_bool (key y) (key x)) eqn:E; [exfalso | reflexivity].
  assert (x ∈ take n (l1 ++ x :: l2)) as Hin
    by (rewrite <- (sort_desc_Permutation key), Hsort; left).
  assert (length l1 < n)%nat as Hlt.
  { destruct (Nat.lt_ge_cases (length l1) n) as [?|Hge]; [assumption|].
    rewrite take_app_le in Hin by lia.
    exfalso. apply Hx. eapply subseteq_take, Hin. }
  pose proof (sort_desc_stable key (key x) (take n (l1 ++ x :: l2))) as Hst.
  rewrite Hsort, take_app_ge in Hst by lia.
  replace (n - length l1)%nat with (S (n - length l1 - 1)) in Hst by lia.
  cbn [take] in Hst. rewrite List.filter_app in Hst. cbn [List.filter] in Hst.
  rewrite (proj2 (Qeq_bool_iff (key x) (key x)) (Qeq_refl _)) in Hst.
  assert (y ∈ List.filter (fun z => Qeq_bool (key z) (key x)) l1) as Hfy
    by (apply list_elem_of_In, filter_In; split; [now apply list_elem_of_In | exact E]).
  destruct (List.filter (fun z => Qeq_bool (key z) (key x)) l1) as [|z t] eqn:Ez;
    [inversion Hfy|].
  assert (z ∈ l1) as Hz.
  { apply list_elem_of_In.
    apply (proj1 (filter_In (fun z => Qeq_bool (key z) (key x)) z l1)).
    rewrite Ez. now left. }
  simpl in Hst. injection Hst as <- _. contradiction.
Qed.

Section Adaptive.
Context `{ClusterOps}.

(** A pass for one item over a target set that is not empty returns one
    item.  In the caller's list, as the pass leaves it, no item in front
    of the first occurrence of that item is equal to it. *)
Lemma single_shot_one (h : heap) (g : rng) (training_data unlabeled_data : list ref)
    (limit : Z) :
  unlabeled_data <> [] ->
  let o := get_representative_samples h g training_data unlabeled_data 1 limit in
  exists x l1 l2,
    returned o = [x] /\
    unlabeled_after o = l1 ++ x :: l2 /\
    (x ∉ l1) /\
    (forall y, y ∈ l1 -> item_eqb (heap_after o y) (heap_after o x) = false).
Proof.
  intros Hne o. unfold o.
  rewrite get_representative_samples_unfold, limit_sets_unfold.
  destruct (Z.ltb_spec 0 limit) as [Hpos|Hle]; cbn [fst snd returned unlabeled_after heap_after].
  - pose proof (shuffle_Permutation (shuffle g training_data).2 unlabeled_data) as Hperm.
    set (cu := (shuffle (shuffle g training_data).2 unlabeled_data).1) in *.
    rewrite (py_slice_to_nonneg limit cu) by lia.
    set (h' := score_representative _ _ _ h).
    set (key := fun x : ref => score (h' x)).
    destruct (sort_desc key (take (Z.to_nat limit) cu)) as [|x rest] eqn:Esort.
    + exfalso. pose proof (sort_desc_length key (take (Z.to_nat limit) cu)) as Hlen.
      rewrite Esort, length_take in Hlen. simpl in Hlen.
      apply Permutation_length in Hperm.
      apply nonempty_length in Hne. lia.
    + assert (x ∈ cu) as Hx.
      { eapply subseteq_take. rewrite <- (sort_desc_Permutation key), Esort. left. }
      apply list_elem_of_split_l in Hx as (l1 & l2 & Hcu & Hfirst).
      exists x, l1, l2. split; [reflexivity|]. split; [exact Hcu|]. split; [exact Hfirst|].
      intros y Hy. rewrite Hcu in Esort.
      pose proof (sort_desc_head_first key l1 l2 rest x _ Hfirst Esort y Hy) as Hkey.
      destruct (item_eqb (h' y) (h' x)) eqn:E; [|reflexivity].
      apply item_eqb_score in E. unfold key in Hkey. congruence.
  - set (h' := score_representative _ _ _ h).
    set (key := fun x : ref => score (h' x)).
    destruct (sort_desc key unlabeled_data) as [|x rest] eqn:Esort.
    + exfalso. pose proof (sort_desc_length key unlabeled_data) as Hlen.
      rewrite Esort in Hlen. apply nonempty_length in Hne. simpl in Hlen. lia.
    + exists x, [], rest. split; [reflexivity|]. split; [reflexivity|].
      split; [apply not_elem_of_nil|]. intros y Hy. inversion Hy.
Qed.

Lemma adaptive_step_spec (limit : Z) (st : outcome) :
  unlabeled_after st <> [] ->
  exists x st',
    adaptive_step limit st = Ok st' /\
    returned (get_representative_samples (heap_after st) (rng_after st)
                (training_after st) (unlabeled_after st) 1 limit) = [x] /\
    returned st' = returned st ++ [x] /\
    unlabeled_after st ≡ₚ x :: unlabeled_after st' /\
    same_identity (heap_after st) (heap_after st').
Proof.
  intros Hne.
  destruct (single_shot_one (heap_after st) (rng_after st) (training_after st)
              (unlabeled_after st) limit Hne) as (x & l1 & l2 & Hret & Hsplit & Hx & Hfirst).
  pose proof (heap_after_same_identity (heap_after st) (rng_after st)
                (training_after st) (unlabeled_after st) 1 limit) as Hid.
  pose proof (unlabeled_after_Permutation (heap_after st) (rng_after st)
                (training_after st) (unlabeled_after st) 1 limit) as Hperm.
  unfold adaptive_step.
  set (o := get_representative_samples _ _ _ _ 1 limit) in *.
  rewrite Hret. simpl.
  rewrite Hsplit, (list_remove_first _ _ _ _ Hx Hfirst). simpl.
  eexists x, _. split; [reflexivity|]. simpl.
  split; [reflexivity|]. split; [reflexivity|]. split; [|exact Hid].
  rewrite <- Hperm, Hsplit. symmetry. apply Permutation_middle.
Qed.

Lemma adaptive_loop_S (limit : Z) (n : nat) (st : outcome) :
  adaptive_loop limit (S n) st =
  (let! st' := adaptive_loop limit n st in adaptive_step limit st').
Proof.
  revert st. induction n as [|n IH]; intros st.
  - simpl. now destruct (adaptive_step limit st).
  - change (adaptive_loop limit (S (S n)) st)
      with (let! st1 := adaptive_step limit st in adaptive_loop limit (S n) st1).
    change (adaptive_loop limit (S n) st)
      with (let! st1 := adaptive_step limit st in adaptive_loop limit n st1).
    destruct (adaptive_step limit st) as [st1|e]; simpl; [apply IH | reflexivity].
Qed.

(** The state after [n] iterations. *)
Lemma adaptive_loop_spec (limit : Z) (n : nat) (st : outcome) :
  (n <= length (unlabeled_after st))%nat ->
  exists st' picked,
    adaptive_loop limit n st = Ok st' /\
    returned st' = returned st ++ picked /\
    length picked = n /\
    unlabeled_after st ≡ₚ picked ++ unlabeled_after st' /\
    same_identity (heap_after st) (heap_after st').
Proof.
  induction n as [|n IH]; intros Hn.
  - exists st, []. simpl. rewrite app_nil_r.
    refine (conj eq_refl (conj eq_refl (conj eq_refl (conj _ _))));
      [reflexivity | apply same_identity_refl].
  - destruct IH as (st1 & picked & Hloop & Hret & Hlen & Hperm & Hid); [lia|].
    pose proof (Permutation_length Hperm) as Hl. rewrite length_app in Hl.
    destruct (adaptive_step_spec limit st1) as (x & st2 & Hstep & _ & Hret2 & Hperm2 & Hid2);
      [destruct (unlabeled_after st1); [simpl in Hl; lia | discriminate]|].
    exists st2, (picked ++ [x]).
    rewrite adaptive_loop_S, Hloop. simpl.
    split; [exact Hstep|]. split; [now rewrite Hret2, Hret, app_assoc|].
    split; [rewrite length_app; simpl; lia|].
    split; [|now apply (same_identity_trans _ (heap_after st1))].
    rewrite Hperm, Hperm2, <- app_assoc. reflexivity.
Qed.
End Adaptive.

Section AdaptiveClaims.
Context `{ClusterOps}.


End AdaptiveClaims.


(** ** [get_model_outliers]: the validation rankings *)

Lemma py_index_Some {A : Type} (l : list A) (i : nat) (x : A) :
  l !! i = Some x -> py_index l i = Ok x.
Proof. intros E. unfold py_index. now rewrite E. Qed.

Lemma store_outputs_spec (vr : list (list Q)) (n v : nat) (outputs : list Q) :
  (n + length outputs <= length vr)%nat ->
  (forall m row, vr !! m = Some row -> (v < length row)%nat) ->
  exists vr',
    store_outputs vr n v outputs = Ok vr' /\
    length vr' = length vr /\
    (forall m, (m < n)%nat \/ (n + length outputs <= m)%nat -> vr' !! m = vr !! m) /\
    (forall j output row,
       outputs !! j = Some output -> vr !! (n + j)%nat = Some row ->
       vr' !! (n + j)%nat = Some (<[v := output]> row)).
Proof.
  revert vr n. induction outputs as [|output rest IH]; intros vr n Hlen Hrows.
  - exists vr. repeat split. intros j output row Hj. inversion Hj.
  - simpl in Hlen |- *.
    destruct (lookup_lt_is_Some_2 vr n) as [row Hrow]; [lia|].
    rewrite (py_index_Some _ _ _ Hrow). simpl.
    pose proof (Hrows n row Hrow) as Hv.
    destruct (Nat.ltb_spec v (length row)) as [_|Hge]; [|lia].
    destruct (IH (<[n := <[v := output]> row]> vr) (S n))
      as (vr' & Hstore & Hlen' & Hout & Hin).
    + rewrite length_insert. lia.
    + intros m row' Hm. destruct (decide (n = m)) as [->|Hne].
      * rewrite list_lookup_insert_eq in Hm by lia. injection Hm as <-.
        now rewrite length_insert.
      * rewrite list_lookup_insert_ne in Hm by assumption. now apply (Hrows m).
    + exists vr'. split; [exact Hstore|]. rewrite length_insert in Hlen'.
      split; [exact Hlen'|]. split.
      * intros m Hm. rewrite Hout by lia. apply list_lookup_insert_ne. lia.
      * intros [|j] o row' Hj Hm.
        -- rewrite Nat.add_0_r in Hm |- *. injection Hj as <-.
           assert (row' = row) as -> by congruence.
           rewrite Hout by lia. apply list_lookup_insert_eq. lia.
        -- simpl in Hj. replace (n + S j)%nat with (S n + j)%nat in * by lia.
           apply (Hin j o row' Hj). rewrite list_lookup_insert_ne by lia. exact Hm.
Qed.

Section Validation.
Context `{Model}.

Lemma validation_column_snoc (h : heap) (done : list ref) (item : ref) (n : nat) :
  validation_column h (done ++ [item]) n =
  validation_column h done n ++ [nth n (neuron_outputs (text (h item))) 0%Q].
Proof. unfold validation_column. now rewrite fmap_app. Qed.

Lemma validation_column_length (h : heap) (l : list ref) (n : nat) :
  length (validation_column h l n) = length l.
Proof. unfold validation_column. apply length_fmap. Qed.

(** Storing the activation of an item in the slot after the stored
    ones. *)
Lemma partial_column_store (h : heap) (total : nat) (done : list ref) (item : ref)
    (n : nat) (output : Q) :
  (length done < total)%nat ->
  neuron_outputs (text (h item)) !! n = Some output ->
  <[length done := output]> (partial_column h total done n) =
  partial_column h total (done ++ [item]) n.
Proof.
  intros Hlt Hout. unfold partial_column.
  rewrite validation_column_snoc, length_app. simpl.
  rewrite (nth_lookup_Some _ _ _ _ Hout).
  rewrite insert_app_r_alt by (rewrite validation_column_length; lia).
  rewrite validation_column_length, Nat.sub_diag.
  replace (total - length done)%nat with (S (total - (length done + 1)))%nat by lia.
  simpl. now rewrite <- app_assoc.
Qed.

Lemma collect_validation_spec (h : heap) (k total : nat) (rest done : list ref)
    (vr : list (list Q)) :
  (0 < k)%nat ->
  (length done + length rest)%nat = total ->
  (forall r, r ∈ rest -> length (neuron_outputs (text (h r))) = k) ->
  (vr = [] /\ done = []) \/ rankings_filled h k total done vr ->
  exists vr',
    collect_validation h total rest (length done) vr = Ok vr' /\
    ((vr' = [] /\ done ++ rest = []) \/ rankings_filled h k total (done ++ rest) vr').
Proof.
  intros Hk. revert done vr. induction rest as [|item rest IH]; intros done vr Htotal Hout Hinv.
  - exists vr. split; [reflexivity|]. now rewrite app_nil_r.
  - simpl in Htotal |- *.
    pose proof (Hout item ltac:(left)) as Hlen.
    set (outputs := neuron_outputs (text (h item))) in *.
    set (vr1 := if (length vr =? 0)%nat
                then (fun _ => replicate total 0%Q) <$> outputs else vr).
    assert (rankings_filled h k total done vr1) as [Hlen1 Hrows1].
    { destruct Hinv as [[-> ->]|[Hl Hr]]; unfold vr1.
      - simpl. split; [now rewrite length_fmap|].
        intros n Hn. rewrite list_lookup_fmap.
        destruct (lookup_lt_is_Some_2 outputs n) as [o Ho]; [lia|].
        rewrite Ho. simpl. unfold partial_column. simpl. now rewrite Nat.sub_0_r.
      - destruct (Nat.eqb_spec (length vr) 0) as [E|_]; [lia|]. now split. }
    destruct (store_outputs_spec vr1 0 (length done) outputs)
      as (vr2 & Hstore & Hlen2 & _ & Hin).
    + simpl. lia.
    + intros m row Hm.
      assert (m < k)%nat as Hmk by (rewrite <- Hlen1; now apply lookup_lt_Some in Hm).
      rewrite (Hrows1 m Hmk) in Hm. injection Hm as <-.
      unfold partial_column. rewrite length_app, validation_column_length, length_replicate.
      lia.
    + fold vr1. rewrite Hstore. simpl.
      replace (S (length done)) with (length (done ++ [item]))
        by (rewrite length_app; simpl; lia).
      replace (done ++ item :: rest) with ((done ++ [item]) ++ rest)
        by now rewrite <- app_assoc.
      apply IH.
      * rewrite length_app. simpl. lia.
      * intros r Hr. apply Hout. now right.
      * right. split; [congruence|].
        intros n Hn.
        destruct (lookup_lt_is_Some_2 outputs n) as [o Ho]; [lia|].
        pose proof (Hin n o _ Ho (Hrows1 n Hn)) as E. simpl in E.
        rewrite E. f_equal.
        apply partial_column_store; [lia | exact Ho].
Qed.

(** With a validation set that is not empty and a model of [k > 0]
    output neurons, the rankings are one list per neuron: the sorted
    activations of that neuron over the validation items. *)
Lemma get_validation_rankings_spec (h : heap) (k : nat) (validation_data : list ref) :
  (0 < k)%nat ->
  validation_data <> [] ->
  (forall r, r ∈ validation_data -> length (neuron_outputs (text (h r))) = k) ->
  exists vr,
    get_validation_rankings h validation_data = Ok vr /\
    length vr = k /\
    forall n, (n < k)%nat ->
      vr !! n = Some (sort_asc (validation_column h validation_data n)).
Proof.
  intros Hk Hne Hout. unfold get_validation_rankings.
  destruct (collect_validation_spec h k (length validation_data) validation_data [] [])
    as (vr & Hcollect & Hinv); try done; [now left|].
  simpl in Hcollect, Hinv. rewrite Hcollect. simpl.
  destruct Hinv as [[_ ?]|[Hlen Hrows]]; [done|].
  eexists. split; [reflexivity|]. split; [now rewrite length_fmap|].
  intros n Hn. rewrite list_lookup_fmap, (Hrows n Hn). simpl.
  unfold partial_column. now rewrite Nat.sub_diag, app_nil_r.
Qed.
End Validation.

(** ** [get_model_outliers]: the scores *)

Lemma bind_Ok {A B : Type} (c : result A) (f : A -> result B) (y : B) :
  (let! x := c in f x) = Ok y -> exists x, c = Ok x /\ f x = Ok y.
Proof. destruct c as [x|e]; simpl; [eauto | discriminate]. Qed.

Lemma rank_outputs_inv (vr : list (list Q)) (n : nat) (outputs ranks : list Q) :
  rank_outputs vr n outputs = Ok ranks ->
  length ranks = length outputs /\
  forall j output,
    outputs !! j = Some output ->
    exists row rank,
      vr !! (n + j)%nat = Some row /\ get_rank output row = Ok rank /\
      ranks !! j = Some rank.
Proof.
  revert n ranks. induction outputs as [|output rest IH]; intros n ranks Hr; simpl in Hr.
  - injection Hr as <-. split; [reflexivity|]. intros j o Hj. inversion Hj.
  - apply bind_Ok in Hr as (row & Hrow & Hr).
    apply bind_Ok in Hr as (rank & Hrank & Hr).
    apply bind_Ok in Hr as (ranks' & Hranks & Hr). injection Hr as <-.
    destruct (IH _ _ Hranks) as [Hlen Hin].
    unfold py_index in Hrow. destruct (vr !! n) as [row'|] eqn:E; [|discriminate].
    injection Hrow as ->.
    split; [simpl; now rewrite Hlen|].
    intros [|j] o Hj; simpl in Hj.
    + injection Hj as <-. exists row, rank. now rewrite Nat.add_0_r.
    + destruct (Hin j o Hj) as (row' & rank' & H1 & H2 & H3).
      exists row', rank'. replace (n + S j)%nat with (S n + j)%nat by lia. done.
Qed.

Lemma rank_outputs_returns (vr : list (list Q)) (n : nat) (outputs : list Q) :
  (forall j, (j < length outputs)%nat ->
     exists row, vr !! (n + j)%nat = Some row /\ row <> []) ->
  exists ranks, rank_outputs vr n outputs = Ok ranks.
Proof.
  revert n. induction outputs as [|output rest IH]; intros n Hrows; simpl.
  - now exists [].
  - destruct (Hrows 0%nat) as (row & Hrow & Hne); [simpl; lia|].
    rewrite Nat.add_0_r in Hrow. rewrite (py_index_Some _ _ _ Hrow). simpl.
    destruct (get_rank_returns output row Hne) as [rank ->]. simpl.
    destruct (IH (S n)) as [ranks ->]; [|simpl; eauto].
    intros j Hj. replace (S n + j)%nat with (n + S j)%nat by lia.
    apply Hrows. simpl. lia.
Qed.

Lemma fold_sum_range (l : list Q) (a : Q) :
  (forall r, r ∈ l -> 0 <= r <= 1)%Q ->
  (a <= fold_left Qplus l a <= a + Q_of_nat (length l))%Q.
Proof.
  revert a. induction l as [|x l IH]; intros a Hl; simpl.
  - change (Q_of_nat 0) with 0%Q. lra.
  - pose proof (Hl x ltac:(left)) as Hx.
    destruct (IH (a + x)%Q) as [Hlo Hhi]; [intros r Hr; apply Hl; now right|].
    pose proof (Q_of_nat_S (length l)) as HS.
    change (Q_of_nat (S (length l))) with (Q_of_nat (length (x :: l))) in HS.
    simpl in HS. split; lra.
Qed.

Lemma sum_range (l : list Q) :
  (forall r, r ∈ l -> 0 <= r <= 1)%Q -> (0 <= sum l <= Q_of_nat (length l))%Q.
Proof.
  intros Hl. destruct (fold_sum_range l 0 Hl) as [Hlo Hhi]. unfold sum. lra.
Qed.

Lemma rank_outputs_range (vr : list (list Q)) (n : nat) (outputs ranks : list Q) :
  rank_outputs vr n outputs = Ok ranks ->
  (forall r, r ∈ ranks -> 0 <= r <= 1)%Q.
Proof.
  intros Hr r Hin. destruct (rank_outputs_inv _ _ _ _ Hr) as [Hlen Hall].
  apply list_elem_of_lookup in Hin as [j Hj].
  destruct (lookup_lt_is_Some_2 outputs j) as [o Ho];
    [rewrite <- Hlen; now apply lookup_lt_Some in Hj|].
  destruct (Hall j o Ho) as (row & rank & _ & Hrank & Hj').
  assert (rank = r) as -> by congruence.
  now apply (get_rank_range o row).
Qed.

Lemma outlier_score_inv (vr : list (list Q)) (outputs : list Q) (s : Q) :
  outlier_score vr outputs = Ok s ->
  exists ranks,
    rank_outputs vr 0 outputs = Ok ranks /\
    outputs <> [] /\
    s = (1 - sum ranks / Q_of_nat (length outputs))%Q /\
    (0 <= s <= 1)%Q.
Proof.
  unfold outlier_score. intros Hs.
  apply bind_Ok in Hs as (ranks & Hranks & Hs).
  apply bind_Ok in Hs as (average & Hav & Hs). injection Hs as <-.
  destruct (rank_outputs_inv _ _ _ _ Hranks) as [Hlen _].
  assert (outputs <> []) as Hne.
  { intros ->. simpl in Hranks. injection Hranks as <-. discriminate Hav. }
  pose proof (Q_of_nat_pos _ (nonempty_length _ Hne)) as Hpos.
  rewrite py_div_pos in Hav by assumption. injection Hav as <-.
  exists ranks. split; [exact Hranks|]. split; [exact Hne|]. split; [reflexivity|].
  destruct (sum_range ranks (rank_outputs_range _ _ _ _ Hranks)) as [Hlo Hhi].
  rewrite Hlen in Hhi.
  assert (0 <= sum ranks / Q_of_nat (length outputs) <= 1)%Q as [? ?]; [|split; lra].
  split.
  - apply Qle_shift_div_l; [assumption | lra].
  - apply Qle_shift_div_r; [assumption | lra].
Qed.

Lemma outlier_score_returns (vr : list (list Q)) (outputs : list Q) :
  outputs <> [] ->
  (forall j, (j < length outputs)%nat -> exists row, vr !! j = Some row /\ row <> []) ->
  exists s, outlier_score vr outputs = Ok s.
Proof.
  intros Hne Hrows. unfold outlier_score.
  destruct (rank_outputs_returns vr 0 outputs Hrows) as [ranks ->]. simpl.
  rewrite py_div_pos by (apply Q_of_nat_pos; now apply nonempty_length).
  simpl. eauto.
Qed.

Lemma not_labeled_same_identity (al : gmap string string) (h h' : heap) (l : list ref) :
  same_identity h h' -> not_labeled al h' l = not_labeled al h l.
Proof.
  intros Hid. unfold not_labeled. apply filter_ext. intros r.
  now rewrite (proj1 (Hid r)).
Qed.

Lemma elem_of_not_labeled (al : gmap string string) (h : heap) (l : list ref) (r : ref) :
  r ∈ not_labeled al h l <->
  r ∈ l /\ in_already_labeled al (textid (h r)) = false.
Proof.
  unfold not_labeled. rewrite !list_elem_of_In, filter_In, negb_true_iff. reflexivity.
Qed.

Section Outliers.
Context `{Model}.

Lemma score_outliers_spec (al : gmap string string) (vr : list (list Q))
    (l : list ref) (h : heap) (acc out : list ref) (h' : heap) :
  score_outliers al vr l h acc = Ok (out, h') ->
  out = acc ++ not_labeled al h l /\
  same_identity h h' /\
  (forall r, r ∈ not_labeled al h l ->
     strategy (h' r) = "logit_rank_outlier" /\
     outlier_score vr (neuron_outputs (text (h r))) = Ok (score (h' r))) /\
  (forall r, r ∉ not_labeled al h l -> h' r = h r).
Proof.
  revert h acc. induction l as [|a l IH]; intros h acc Hs; simpl in Hs.
  - injection Hs as <- <-. simpl. rewrite app_nil_r.
    split; [reflexivity|]. split; [apply same_identity_refl|].
    split; [intros r Hr; inversion Hr | reflexivity].
  - unfold not_labeled. simpl. fold (not_labeled al h l).
    destruct (in_already_labeled al (textid (h a))) eqn:Elab; simpl.
    + now apply IH.
    + apply bind_Ok in Hs as (s & Hscore & Hs).
      set (h1 := set_score (set_strategy h a "logit_rank_outlier") a s) in *.
      assert (same_identity h h1) as Hid1 by apply scored_same_identity.
      destruct (IH _ _ Hs) as (Hout & Hid & Hin & Hrest).
      rewrite (not_labeled_same_identity al h h1 l Hid1) in Hout, Hin, Hrest.
      split; [now rewrite Hout, <- app_assoc|].
      split; [now apply (same_identity_trans h h1)|]. split.
      * intros r Hr. destruct (decide (r ∈ not_labeled al h l)) as [Hl|Hl].
        -- destruct (Hin r Hl) as [Hst Hsc]. split; [exact Hst|].
           now rewrite <- (proj1 (proj2 (Hid1 r))).
        -- apply elem_of_cons in Hr as [->|Hr]; [|contradiction].
           rewrite (Hrest a Hl). unfold h1. rewrite scored_item. simpl.
           split; [reflexivity | exact Hscore].
      * intros r Hr. apply not_elem_of_cons in Hr as [Hne Hl].
        rewrite (Hrest r Hl). unfold h1. now apply scored_other.
Qed.

Lemma score_outliers_returns (al : gmap string string) (vr : list (list Q))
    (l : list ref) (h : heap) (acc : list ref) :
  (forall r, r ∈ l -> exists s, outlier_score vr (neuron_outputs (text (h r))) = Ok s) ->
  exists out h', score_outliers al vr l h acc = Ok (out, h').
Proof.
  revert h acc. induction l as [|a l IH]; intros h acc Hall; simpl; [eauto|].
  destruct (in_already_labeled al (textid (h a))).
  - apply IH. intros r Hr. apply Hall. now right.
  - destruct (Hall a ltac:(left)) as [s ->]. simpl. apply IH.
    intros r Hr. destruct (Hall r ltac:(now right)) as [s' Hs'].
    exists s'. now rewrite (proj1 (proj2 (scored_same_identity h a _ s r))).
Qed.

(** What a successful call of [get_model_outliers] is made of. *)
Lemma get_model_outliers_inv (al : gmap string string) (h : heap) (g : rng)
    (unlabeled_data validation_data : list ref) (number limit : Z)
    (out : list ref) (h' : heap) (g' : rng) (caller : list ref) :
  get_model_outliers al h g unlabeled_data validation_data number limit
    = Ok (out, h', g', caller) ->
  let working := (limit_unlabeled g unlabeled_data limit).1.2 in
  exists vr,
    get_validation_rankings h validation_data = Ok vr /\
    score_outliers al vr working h [] = Ok (not_labeled al h working, h') /\
    out = py_slice_to number
            (sort_desc (fun x => score (h' x)) (not_labeled al h working)) /\
    caller = (limit_unlabeled g unlabeled_data limit).1.1.
Proof.
  unfold get_model_outliers. intros Hcall.
  apply bind_Ok in Hcall as (vr & Hvr & Hcall).
  destruct (limit_unlabeled g unlabeled_data limit) as [[c w] g1]. simpl.
  apply bind_Ok in Hcall as ([outliers h1] & Hscore & Hcall).
  injection Hcall as <- <- <- <-.
  destruct (score_outliers_spec _ _ _ _ _ _ _ Hscore) as (Hout & _).
  simpl in Hout. subst outliers. now exists vr.
Qed.
End Outliers.

Section OutlierClaims.
Context `{Model}.

(** With a model of [k > 0] output neurons and a validation set that is
    not empty, the call returns. *)
Lemma get_model_outliers_returns (al : gmap string string) (h : heap) (g : rng)
    (unlabeled_data validation_data : list ref) (number limit : Z) (k : nat) :
  (0 < k)%nat ->
  validation_data <> [] ->
  (forall t, length (neuron_outputs t) = k) ->
  exists vr out h' g' caller,
    get_model_outliers al h g unlabeled_data validation_data number limit
      = Ok (out, h', g', caller) /\
    get_validation_rankings h validation_data = Ok vr /\
    length vr = k /\
    (forall n, (n < k)%nat ->
       vr !! n = Some (sort_asc (validation_column h validation_data n))).
Proof.
  intros Hk Hne Hwidth.
  destruct (get_validation_rankings_spec h k validation_data Hk Hne)
    as (vr & Hvr & Hlen & Hrows); [intros r _; apply Hwidth|].
  set (working := (limit_unlabeled g unlabeled_data limit).1.2).
  destruct (score_outliers_returns al vr working h []) as (outliers & h' & Hscore).
  { intros r _. apply outlier_score_returns.
    - intros E. specialize (Hwidth (text (h r))). rewrite E in Hwidth. simpl in Hwidth. lia.
    - intros j Hj. rewrite Hwidth in Hj. eexists. split; [apply (Hrows j Hj)|].
      intros E. apply (f_equal length) in E.
      rewrite sort_asc_length, validation_column_length in E.
      apply nonempty_length in Hne. simpl in E. lia. }
  exists vr. unfold get_model_outliers. rewrite Hvr. simpl.
  unfold working in Hscore.
  destruct (limit_unlabeled g unlabeled_data limit) as [[c w] g1].
  simpl in Hscore. rewrite Hscore. simpl. eauto 10.
Qed.

Lemma get_validation_rankings_sorted (h : heap) (validation_data : list ref)
    (vr : list (list Q)) :
  get_validation_rankings h validation_data = Ok vr -> Forall (Sorted Qle) vr.
Proof.
  unfold get_validation_rankings. intros Hvr.
  apply bind_Ok in Hvr as (filled & _ & Hvr). injection Hvr as <-.
  apply Forall_fmap, Forall_forall. intros row _. apply sort_asc_sorted.
Qed.

(** C2: whenever [get_model_outliers] returns, every item it processed
    (an item of the working list that [already_labeled] does not know)
    has the strategy ["logit_rank_outlier"] and the score [1 - sum(ranks)
    / len(neuron_outputs)], where the sum adds the ranks from left to
    right and rank [n] is [get_rank] of the activation of neuron [n] in
    the validation rankings of that neuron, a list sorted in ascending
    order; the result is the first [number] processed items in descending
    order of score.  With a model of [k > 0] output neurons and a
    validation set that is not empty the call does return, and the
    rankings of neuron [n] are the activations of that neuron over the
    validation items, sorted in ascending order. *)
Theorem get_model_outliers_scores (al : gmap string string) (h : heap) (g : rng)
    (unlabeled_data validation_data : list ref) (number limit : Z) :
  let working := (limit_unlabeled g unlabeled_data limit).1.2 in
  let processed := not_labeled al h working in
  (forall out h' g' caller,
     get_model_outliers al h g unlabeled_data validation_data number limit
       = Ok (out, h', g', caller) ->
     exists validation_rankings,
       get_validation_rankings h validation_data = Ok validation_rankings /\
       Forall (Sorted Qle) validation_rankings /\
       (forall r, r ∈ processed ->
          strategy (h' r) = "logit_rank_outlier" /\
          exists ranks,
            length ranks = length (neuron_outputs (text (h r))) /\
            (forall n output,
               neuron_outputs (text (h r)) !! n = Some output ->
               exists ranking rank,
                 validation_rankings !! n = Some ranking /\
                 Sorted Qle ranking /\
                 get_rank output ranking = Ok rank /\
                 ranks !! n = Some rank) /\
            score (h' r) =
              (1 - fold_left Qplus ranks 0
                   / Q_of_nat (length (neuron_outputs (text (h r)))))%Q) /\
       let sorted := sort_desc (fun x => score (h' x)) processed in
       out = py_slice_to number sorted /\
       ((0 <= number)%Z -> out = take (Z.to_nat number) sorted) /\
       sorted ≡ₚ processed /\
       StronglySorted (key_ge (fun x => score (h' x))) sorted) /\
  (forall k,
     (0 < k)%nat ->
     validation_data <> [] ->
     (forall t, length (neuron_outputs t) = k) ->
     exists validation_rankings out h' g' caller,
       get_model_outliers al h g unlabeled_data validation_data number limit
         = Ok (out, h', g', caller) /\
       get_validation_rankings h validation_data = Ok validation_rankings /\
       length validation_rankings = k /\
       (forall n, (n < k)%nat ->
          exists ranking,
            validation_rankings !! n = Some ranking /\
            Sorted Qle ranking /\
            ranking ≡ₚ validation_column h validation_data n)).
Proof.
  intros working processed. split.
  - intros out h' g' caller Hcall.
    destruct (get_model_outliers_inv _ _ _ _ _ _ _ _ _ _ _ Hcall)
      as (vr & Hvr & Hscore & Hout & _).
    destruct (score_outliers_spec _ _ _ _ _ _ _ Hscore) as (_ & _ & Hin & _).
    fold working processed in Hscore, Hout, Hin.
    pose proof (get_validation_rankings_sorted _ _ _ Hvr) as Hsorted.
    exists vr. split; [exact Hvr|]. split; [exact Hsorted|].
    split; [|refine (conj Hout (conj _ (conj _ _)))].
    + intros r Hr. destruct (Hin r Hr) as [Hst Hsc]. split; [exact Hst|].
      destruct (outlier_score_inv _ _ _ Hsc) as (ranks & Hranks & _ & Hs & _).
      destruct (rank_outputs_inv _ _ _ _ Hranks) as [Hl Hall].
      exists ranks. split; [exact Hl|]. split; [|exact Hs].
      intros n output Hn.
      destruct (Hall n output Hn) as (row & rank & Hrow & Hrank & Hnth).
      exists row, rank. split; [exact Hrow|]. split; [|now split].
      rewrite Forall_forall in Hsorted. apply Hsorted.
      now apply list_elem_of_lookup_2 in Hrow.
    + intros Hn. rewrite Hout. now apply py_slice_to_nonneg.
    + apply sort_desc_Permutation.
    + apply sort_desc_sorted.
  - intros k Hk Hne Hwidth.
    destruct (get_model_outliers_returns al h g unlabeled_data validation_data
                number limit k Hk Hne Hwidth)
      as (vr & out & h' & g' & caller & Hcall & Hvr & Hlen & Hrows).
    exists vr, out, h', g', caller.
    split; [exact Hcall|]. split; [exact Hvr|]. split; [exact Hlen|].
    intros n Hn. exists (sort_asc (validation_column h validation_data n)).
    split; [now apply Hrows|].
    split; [apply sort_asc_sorted | apply sort_asc_Permutation].
Qed.

(** The sibling entry points of C4 that do skip: no item returned by
    [get_model_outliers] has its [ID] in [already_labeled]. *)
Lemma get_model_outliers_skips_labeled (al : gmap string string) (h : heap) (g : rng)
    (unlabeled_data validation_data : list ref) (number limit : Z)
    (out : list ref) (h' : heap) (g' : rng) (caller : list ref) :
  get_model_outliers al h g unlabeled_data validation_data number limit
    = Ok (out, h', g', caller) ->
  forall r, r ∈ out -> al !! textid (h' r) = None.
Proof.
  intros Hcall r Hr.
  destruct (get_model_outliers_inv _ _ _ _ _ _ _ _ _ _ _ Hcall)
    as (vr & _ & Hscore & -> & _).
  destruct (score_outliers_spec _ _ _ _ _ _ _ Hscore) as (_ & Hid & _).
  apply py_slice_to_subseteq in Hr. rewrite sort_desc_Permutation in Hr.
  apply elem_of_not_labeled in Hr as [_ Hr].
  rewrite (proj1 (Hid r)). unfold in_already_labeled in Hr.
  apply bool_decide_eq_false in Hr. now apply eq_None_not_Some.
Qed.
End OutlierClaims.

(** ** [get_random_items] *)

Lemma random_items_loop_spec (al : gmap string string) (number : Z)
    (l : list ref) (h : heap) (acc : list ref) :
  let '(out, h') := random_items_loop al number l h acc in
  same_identity h h' /\
  (forall r, r ∈ out ->
     r ∈ acc \/ (r ∈ l /\ in_already_labeled al (textid (h r)) = false)).
Proof.
  revert h acc. induction l as [|a l IH]; intros h acc; simpl.
  - split; [apply same_identity_refl | now left].
  - destruct (in_already_labeled al (textid (h a))) eqn:Elab.
    + specialize (IH h acc). destruct (random_items_loop al number l h acc) as [out h'].
      destruct IH as (Hid & Hin). split; [exact Hid|].
      intros r Hr. destruct (Hin r Hr) as [?|[? ?]]; [now left | right].
      split; [now right | assumption].
    + set (h1 := set_strategy h a "random_remaining").
      assert (same_identity h h1) as Hid1 by apply set_strategy_same_identity.
      assert (forall r, r ∈ acc ++ [a] ->
                r ∈ acc \/ (r ∈ a :: l /\ in_already_labeled al (textid (h r)) = false))
        as Hsnoc.
      { intros r Hr. apply elem_of_app in Hr as [Hr|Hr]; [now left|].
        apply list_elem_of_singleton in Hr as ->. right. split; [left | exact Elab]. }
      destruct (Z.leb_spec number (Z.of_nat (length (acc ++ [a])))) as [_|_].
      * split; [exact Hid1 | exact Hsnoc].
      * specialize (IH h1 (acc ++ [a])).
        destruct (random_items_loop al number l h1 (acc ++ [a])) as [out h'].
        destruct IH as (Hid & Hin).
        split; [now apply (same_identity_trans h h1)|].
        intros r Hr. destruct (Hin r Hr) as [Hacc|[Hl Hlab]]; [now apply Hsnoc|].
        right. split; [now right|]. now rewrite <- (proj1 (Hid1 r)).
Qed.

(** No item returned by [get_random_items] has its [ID] in
    [already_labeled]. *)
Lemma get_random_items_skips_labeled (al : gmap string string) (h : heap) (g : rng)
    (unlabeled_data : list ref) (number : Z) :
  let '(random_items, h', _, _) := get_random_items al h g unlabeled_data number in
  forall r, r ∈ random_items -> al !! textid (h' r) = None.
Proof.
  unfold get_random_items.
  destruct (shuffle g unlabeled_data) as [shuffled g1].
  pose proof (random_items_loop_spec al number shuffled h []) as Hloop.
  destruct (random_items_loop al number shuffled h []) as [out h'].
  destruct Hloop as [Hid Hin].
  intros r Hr. destruct (Hin r Hr) as [Hnil|[_ Hlab]]; [inversion Hnil|].
  rewrite (proj1 (Hid r)). unfold in_already_labeled in Hlab.
  apply bool_decide_eq_false in Hlab. now apply eq_None_not_Some.
Qed.

(** ** Runs on the examples *)

Lemma get_cluster_samples_epochs_witness :
  let trace :=
    (get_cluster_samples (H := countdown_clusters) news []
       [0%nat; 1%nat; 2%nat] 2 5 (-1)).1.1.2 in
  trace = [2%nat; 1%nat; 0%nat] /\
  (Z.of_nat (length trace) <= Z.max 0 5)%Z /\
  exists k,
    length trace = S k /\
    epoch_added (H := countdown_clusters) news 2%nat [0%nat; 1%nat; 2%nat] k
    = 0%nat.
Proof.
  intros trace.
  destruct (get_cluster_samples_epochs (H := countdown_clusters) news []
              [0%nat; 1%nat; 2%nat] 2 5 (-1)) as (Hmax & _ & _ & Hstop).
  split; [reflexivity|]. split; [exact Hmax|].
  apply Hstop. simpl. lia.
Defined.

Lemma get_model_outliers_scores_witness :
  let already_labeled : gmap string string := {[ "a" := "1" ]} in
  (0 < 2)%nat /\
  [3%nat; 2%nat] <> [] /\
  (forall t, length (neuron_outputs (Model := length_model) t) = 2%nat) /\
  exists validation_rankings out h' g' caller,
    get_model_outliers (H := length_model) already_labeled news []
      [0%nat; 1%nat] [3%nat; 2%nat] 5 10000 = Ok (out, h', g', caller) /\
    get_validation_rankings (H := length_model) news [3%nat; 2%nat]
      = Ok validation_rankings /\
    validation_rankings = [[17; 19]; [-19; -17]]%Q /\
    out = [1%nat] /\
    strategy (h' 1%nat) = "logit_rank_outlier" /\
    (score (h' 1%nat) == 3 # 4)%Q.
Proof.
  intros already_labeled.
  assert (0 < 2)%nat as Hk by lia.
  assert ([3%nat; 2%nat] <> []) as Hne by discriminate.
  assert (forall t, length (neuron_outputs (Model := length_model) t) = 2%nat)
    as Hwidth by reflexivity.
  split; [exact Hk|]. split; [exact Hne|]. split; [exact Hwidth|].
  destruct (get_model_outliers_scores (H := length_model) already_labeled news []
              [0%nat; 1%nat] [3%nat; 2%nat] 5 10000) as [Hscores Hreturns].
  destruct (Hreturns 2%nat Hk Hne Hwidth)
    as (vr & out & h' & g' & caller & Hcall & Hvr & _).
  destruct (Hscores out h' g' caller Hcall) as (vr' & Hvr' & _ & Hin & Hout & _).
  assert (vr' = vr) as -> by congruence.
  assert (vr = [[17; 19]; [-19; -17]]%Q) as Hrows
    by (vm_compute in Hvr; now injection Hvr as <-).
  exists vr, out, h', g', caller.
  split; [exact Hcall|]. split; [exact Hvr|]. split; [exact Hrows|].
  split; [exact Hout|].
  destruct (Hin 1%nat) as (Hstrategy & ranks & Hlen & Hall & Hscore); [left|].
  split; [exact Hstrategy|].
  destruct (Hall 0%nat 18%Q eq_refl) as (ranking0 & rank0 & Hrow0 & _ & Hrank0 & Hnth0).
  destruct (Hall 1%nat (-18)%Q eq_refl) as (ranking1 & rank1 & Hrow1 & _ & Hrank1 & Hnth1).
  rewrite Hrows in Hrow0, Hrow1.
  injection Hrow0 as <-. injection Hrow1 as <-.
  vm_compute in Hrank0. injection Hrank0 as <-.
  vm_compute in Hrank1. injection Hrank1 as <-.
  destruct ranks as [|r0 [|r1 [|r2 ranks]]]; try discriminate.
  injection Hnth0 as ->. injection Hnth1 as ->.
  rewrite Hscore. vm_compute. reflexivity.
Defined.

(** * Further properties of the sampling functions *)

(** ** [get_random_items]: how many items, and what is written *)

Lemma random_items_loop_take (al : gmap string string) (number : Z)
    (l : list ref) (h : heap) (acc : list ref) :
  acc = [] \/ (Z.of_nat (length acc) < number)%Z ->
  let wanted := Z.to_nat (Z.max 1 number) in
  let picked := take (wanted - length acc) (not_labeled al h l) in
  let '(out, h') := random_items_loop al number l h acc in
  out = acc ++ picked /\
  same_identity h h' /\
  (forall r, score (h' r) = score (h r)) /\
  (forall r, r ∈ picked -> strategy (h' r) = "random_remaining") /\
  (forall r, r ∉ picked -> h' r = h r).
Proof.
  revert h acc. induction l as [|a l IH]; intros h acc Hacc wanted picked.
  - simpl. unfold picked. simpl. rewrite take_nil, app_nil_r.
    split; [reflexivity|]. split; [apply same_identity_refl|].
    split; [reflexivity|]. split; [intros r Hr; inversion Hr | reflexivity].
  - assert (length acc < wanted)%nat as Hroom.
    { unfold wanted. destruct Hacc as [->|Hlt]; simpl; lia. }
    unfold picked, not_labeled. simpl. fold (not_labeled al h l).
    destruct (in_already_labeled al (textid (h a))) eqn:Elab; simpl.
    + now apply IH.
    + set (h1 := set_strategy h a "random_remaining").
      assert (same_identity h h1) as Hid1 by apply set_strategy_same_identity.
      replace (wanted - length acc)%nat with (S (wanted - length (acc ++ [a])))
        by (rewrite length_app; simpl; lia).
      cbn [take].
      destruct (Z.leb_spec number (Z.of_nat (length (acc ++ [a])))) as [Hstop|Hgo].
      * assert (wanted - length (acc ++ [a]) = 0)%nat as ->.
        { unfold wanted. rewrite length_app in *. simpl in *. lia. }
        rewrite take_0.
        split; [reflexivity|]. split; [exact Hid1|].
        split; [intros r; unfold h1, set_strategy;
                now destruct (Nat.eqb_spec r a) as [->|_]|].
        split.
        -- intros r Hr. apply list_elem_of_singleton in Hr as ->.
           unfold h1, set_strategy. now rewrite Nat.eqb_refl.
        -- intros r Hr. apply set_strategy_other. intros ->. apply Hr. left.
      * specialize (IH h1 (acc ++ [a]) (or_intror Hgo)).
        rewrite (not_labeled_same_identity al h h1 l Hid1) in IH.
        fold wanted in IH.
        destruct (random_items_loop al number l h1 (acc ++ [a])) as [out h'].
        destruct IH as (Hout & Hid & Hscore & Hin & Hrest).
        split; [now rewrite Hout, <- app_assoc|].
        split; [now apply (same_identity_trans h h1)|].
        split; [intros r; rewrite Hscore; unfold h1, set_strategy;
                now destruct (Nat.eqb_spec r a) as [->|_]|].
        split.
        -- intros r Hr.
           destruct (decide (r ∈ take (wanted - length (acc ++ [a]))
                                 (not_labeled al h l))) as [Hl|Hl];
             [now apply Hin|].
           apply elem_of_cons in Hr as [->|Hr]; [|contradiction].
           rewrite (Hrest a Hl). unfold h1, set_strategy. now rewrite Nat.eqb_refl.
        -- intros r Hr. apply not_elem_of_cons in Hr as [Hne Hl].
           rewrite (Hrest r Hl). now apply set_strategy_other.
Qed.

(** X1: [get_random_items] returns the first [max(1, number)] items of
    the shuffled list whose [ID] is not in [already_labeled]: the test
    [len(random_items) >= number] comes after the append, so that a
    [number] of 0 or less still gives one item when there is one. *)
Theorem get_random_items_count (al : gmap string string) (h : heap) (g : rng)
    (unlabeled_data : list ref) (number : Z) :
  let '(random_items, h', g', caller) := get_random_items al h g unlabeled_data number in
  let candidates := not_labeled al h caller in
  caller = (shuffle g unlabeled_data).1 /\
  caller ≡ₚ unlabeled_data /\
  random_items = take (Z.to_nat (Z.max 1 number)) candidates /\
  length random_items = Nat.min (Z.to_nat (Z.max 1 number)) (length candidates) /\
  ((number <= 0)%Z -> candidates <> [] -> length random_items = 1%nat).
Proof.
  unfold get_random_items.
  pose proof (shuffle_Permutation g unlabeled_data) as Hperm.
  destruct (shuffle g unlabeled_data) as [shuffled g1]. simpl in Hperm.
  pose proof (random_items_loop_take al number shuffled h [] (or_introl eq_refl)) as Hloop.
  destruct (random_items_loop al number shuffled h []) as [out h'].
  simpl in Hloop. rewrite Nat.sub_0_r in Hloop. destruct Hloop as (-> & _).
  split; [reflexivity|]. split; [exact Hperm|]. split; [reflexivity|].
  split; [apply length_take|].
  intros Hn Hne. rewrite length_take.
  apply nonempty_length in Hne. lia.
Qed.

(** X2: [get_random_items] writes the strategy ["random_remaining"] on
    the items it returns and nothing else: every other field of every
    item, and every item that is not returned, is as before. *)
Theorem get_random_items_writes (al : gmap string string) (h : heap) (g : rng)
    (unlabeled_data : list ref) (number : Z) :
  let '(random_items, h', g', caller) := get_random_items al h g unlabeled_data number in
  (forall r, r ∈ random_items -> strategy (h' r) = "random_remaining") /\
  (forall r, r ∉ random_items -> h' r = h r) /\
  same_identity h h' /\
  (forall r, score (h' r) = score (h r)) /\
  random_items ⊆ unlabeled_data.
Proof.
  unfold get_random_items.
  pose proof (shuffle_Permutation g unlabeled_data) as Hperm.
  destruct (shuffle g unlabeled_data) as [shuffled g1]. simpl in Hperm.
  pose proof (random_items_loop_take al number shuffled h [] (or_introl eq_refl)) as Hloop.
  destruct (random_items_loop al number shuffled h []) as [out h'].
  simpl in Hloop. rewrite Nat.sub_0_r in Hloop.
  destruct Hloop as (-> & Hid & Hscore & Hin & Hrest).
  refine (conj Hin (conj Hrest (conj Hid (conj Hscore _)))).
  intros r Hr. apply subseteq_take in Hr.
  apply elem_of_not_labeled in Hr as [Hr _]. now rewrite <- Hperm.
Qed.

(** ** [get_adaptive_representative_samples]: asking for too many *)

Section AdaptiveExhausted.
Context `{ClusterOps}.

Lemma adaptive_loop_add (limit : Z) (a b : nat) (st : outcome) :
  adaptive_loop limit (a + b) st =
  (let! st' := adaptive_loop limit a st in adaptive_loop limit b st').
Proof.
  revert st. induction a as [|a IH]; intros st; [reflexivity|].
  simpl. destruct (adaptive_step limit st) as [st1|e]; simpl; [apply IH | reflexivity].
Qed.

Lemma adaptive_step_empty (limit : Z) (st : outcome) :
  unlabeled_after st = [] -> adaptive_step limit st = Raise IndexError.
Proof.
  intros Hnil. unfold adaptive_step.
  rewrite get_representative_samples_unfold. cbn [returned].
  pose proof (working_subseteq (rng_after st) (training_after st) (unlabeled_after st)
                limit) as Hsub.
  rewrite Hnil in *.
  destruct ((limit_sets (rng_after st) (training_after st) [] limit).1.2.2)
    as [|x w]; [|exfalso; specialize (Hsub x ltac:(left)); inversion Hsub].
  reflexivity.
Qed.

(** X3: when [number] is larger than the number of items of the target
    set, [get_adaptive_representative_samples] uses the items up and
    then raises [IndexError]: the pass over the empty list returns no
    item to take. *)
Theorem get_adaptive_representative_samples_exhausted (h : heap) (g : rng)
    (training_data unlabeled_data : list ref) (number limit : Z) :
  (Z.of_nat (length unlabeled_data) < number)%Z ->
  get_adaptive_representative_samples h g training_data unlabeled_data number limit
  = Raise IndexError.
Proof.
  intros Hmany. unfold get_adaptive_representative_samples.
  replace (Z.to_nat number)
    with (length unlabeled_data + S (Z.to_nat number - length unlabeled_data - 1))%nat
    by lia.
  rewrite adaptive_loop_add.
  destruct (adaptive_loop_spec limit (length unlabeled_data)
              (Outcome [] h g training_data unlabeled_data))
    as (st & picked & Hloop & _ & Hlen & Hperm & _); [simpl; lia|].
  rewrite Hloop. cbn [bind adaptive_loop].
  rewrite adaptive_step_empty; [reflexivity|].
  apply Permutation_length in Hperm. simpl in Hperm. rewrite length_app in Hperm.
  apply nil_length_inv. lia.
Qed.
End AdaptiveExhausted.

Lemma get_adaptive_representative_samples_exhausted_witness :
  (Z.of_nat (length [0%nat; 1%nat]) < 3)%Z /\
  get_adaptive_representative_samples (H := counting_cluster) news []
    [3%nat] [0%nat; 1%nat] 3 5000 = Raise IndexError.
Proof.
  assert (Z.of_nat (length [0%nat; 1%nat]) < 3)%Z as Hmany by (simpl; lia).
  split; [exact Hmany|].
  exact (get_adaptive_representative_samples_exhausted (H := counting_cluster) news []
           [3%nat] [0%nat; 1%nat] 3 5000 Hmany).
Defined.

(** ** [get_model_outliers]: errors and writes *)

Section OutlierEdges.
Context `{Model}.

Lemma limit_unlabeled_spec (g : rng) (unlabeled_data : list ref) (limit : Z) :
  let '(caller, working, g') := limit_unlabeled g unlabeled_data limit in
  caller ≡ₚ unlabeled_data /\
  working ⊆ caller /\
  (limit = (-1)%Z -> caller = unlabeled_data /\ working = unlabeled_data /\ g' = g) /\
  (limit <> (-1)%Z -> caller = (shuffle g unlabeled_data).1 /\
                      working = py_slice_to limit caller).
Proof.
  unfold limit_unlabeled. destruct (Z.eqb_spec limit (-1)) as [->|Hne].
  - repeat split; done.
  - pose proof (shuffle_Permutation g unlabeled_data) as Hperm.
    destruct (shuffle g unlabeled_data) as [shuffled g1]. simpl in Hperm.
    split; [exact Hperm|]. split; [apply py_slice_to_subseteq|].
    split; [intros; contradiction | now split].
Qed.

Lemma get_validation_rankings_nil (h : heap) : get_validation_rankings h [] = Ok [].
Proof. reflexivity. Qed.

Lemma score_outliers_first_raises (al : gmap string string) (vr : list (list Q))
    (l : list ref) (h : heap) (acc : list ref) (e : exn) :
  not_labeled al h l <> [] ->
  (forall r, r ∈ l -> outlier_score vr (neuron_outputs (text (h r))) = Raise e) ->
  score_outliers al vr l h acc = Raise e.
Proof.
  induction l as [|a l IH]; intros Hne Hall; [done|].
  simpl. unfold not_labeled in Hne. simpl in Hne.
  destruct (in_already_labeled al (textid (h a))); simpl in Hne.
  - apply IH; [exact Hne | intros r Hr; apply Hall; now right].
  - now rewrite (Hall a ltac:(left)).
Qed.

Lemma score_outliers_all_labeled (al : gmap string string) (vr : list (list Q))
    (l : list ref) (h : heap) (acc : list ref) :
  not_labeled al h l = [] -> score_outliers al vr l h acc = Ok (acc, h).
Proof.
  induction l as [|a l IH]; intros Hnone; [reflexivity|].
  simpl. unfold not_labeled in Hnone. simpl in Hnone.
  destruct (in_already_labeled al (textid (h a))); simpl in Hnone;
    [now apply IH | discriminate].
Qed.

(** X4: without validation data there are no rankings.  The call still
    returns, with an empty selection and nothing written, when no item
    is a candidate (an item of the working list whose [ID] is not in
    [already_labeled]); with a candidate, and a model that has output
    neurons, the lookup of the rankings of the first neuron raises
    [IndexError]. *)
Theorem get_model_outliers_no_validation (al : gmap string string) (h : heap) (g : rng)
    (unlabeled_data : list ref) (number limit : Z) :
  let working := (limit_unlabeled g unlabeled_data limit).1.2 in
  let processed := not_labeled al h working in
  (processed = [] ->
   exists g' caller,
     get_model_outliers al h g unlabeled_data [] number limit = Ok ([], h, g', caller)) /\
  (processed <> [] ->
   (forall t, neuron_outputs t <> []) ->
   get_model_outliers al h g unlabeled_data [] number limit = Raise IndexError).
Proof.
  intros working processed. unfold get_model_outliers.
  rewrite get_validation_rankings_nil. cbn [bind].
  unfold processed, working.
  destruct (limit_unlabeled g unlabeled_data limit) as [[caller w] g1]. cbn [fst snd].
  split.
  - intros Hnone. rewrite (score_outliers_all_labeled al [] w h [] Hnone).
    cbn [bind sort_desc foldr]. exists g1, caller.
    unfold py_slice_to. destruct (number <? 0)%Z; now rewrite take_nil.
  - intros Hsome Hwidth.
    rewrite (score_outliers_first_raises al [] w h [] IndexError Hsome); [reflexivity|].
    intros r _. unfold outlier_score.
    destruct (neuron_outputs (text (h r))) as [|o os] eqn:E; [now apply Hwidth in E|].
    reflexivity.
Qed.

(** X5: a call of [get_model_outliers] that returns has written only
    the strategy and the score of the items it processed; [ID], [TEXT]
    and [LABEL] of every item are as before, and items that are in
    [already_labeled] or outside the working list are untouched.  The
    caller's list keeps its elements, and with [limit = -1] it is not
    shuffled and no random draw is made. *)
Theorem get_model_outliers_frame (al : gmap string string) (h : heap) (g : rng)
    (unlabeled_data validation_data : list ref) (number limit : Z)
    (out : list ref) (h' : heap) (g' : rng) (caller : list ref) :
  get_model_outliers al h g unlabeled_data validation_data number limit
    = Ok (out, h', g', caller) ->
  let working := (limit_unlabeled g unlabeled_data limit).1.2 in
  same_identity h h' /\
  (forall r, r ∉ not_labeled al h working -> h' r = h r) /\
  (forall r, in_already_labeled al (textid (h r)) = true -> h' r = h r) /\
  caller ≡ₚ unlabeled_data /\
  out ⊆ unlabeled_data /\
  (limit = (-1)%Z -> caller = unlabeled_data /\ g' = g).
Proof.
  intros Hcall working.
  destruct (get_model_outliers_inv _ _ _ _ _ _ _ _ _ _ _ Hcall)
    as (vr & _ & Hscore & Hout & Hcaller).
  destruct (score_outliers_spec _ _ _ _ _ _ _ Hscore) as (_ & Hid & _ & Hrest).
  fold working in Hscore, Hout, Hrest.
  pose proof (limit_unlabeled_spec g unlabeled_data limit) as Hl.
  assert (g' = (limit_unlabeled g unlabeled_data limit).2) as Hg.
  { unfold get_model_outliers in Hcall.
    apply bind_Ok in Hcall as (vr' & _ & Hcall).
    destruct (limit_unlabeled g unlabeled_data limit) as [[c w] g1].
    apply bind_Ok in Hcall as ([o1 h1] & _ & Hcall). now injection Hcall. }
  unfold working in *.
  destruct (limit_unlabeled g unlabeled_data limit) as [[c w] g1].
  cbn [fst snd] in *. subst caller g'.
  destruct Hl as (Hperm & Hsub & Hall & _).
  refine (conj Hid (conj Hrest (conj _ (conj Hperm (conj _ _))))).
  - intros r Hlab. apply Hrest. intros Hin.
    apply elem_of_not_labeled in Hin as [_ Hin]. congruence.
  - intros r Hr. rewrite Hout in Hr. apply py_slice_to_subseteq in Hr.
    rewrite sort_desc_Permutation in Hr.
    apply elem_of_not_labeled in Hr as [Hr _]. rewrite <- Hperm. now apply Hsub.
  - intros Hlim. destruct (Hall Hlim) as (? & _ & ?). now split.
Qed.
End OutlierEdges.

Lemma in_already_labeled_false (al : gmap string string) (id : string) :
  in_already_labeled al id = false <-> al !! id = None.
Proof.
  unfold in_already_labeled. rewrite bool_decide_eq_false.
  now rewrite eq_None_not_Some.
Qed.

(** X6: [get_random_items] skips the items whose [ID] is a key of
    [already_labeled]: none of them is returned and none of them is
    written. *)
Theorem get_random_items_labeled_untouched (al : gmap string string) (h : heap)
    (g : rng) (unlabeled_data : list ref) (number : Z) :
  let '(random_items, h', g', caller) := get_random_items al h g unlabeled_data number in
  (forall r, r ∈ random_items -> al !! textid (h' r) = None) /\
  (forall r, is_Some (al !! textid (h r)) -> (r ∉ random_items) /\ h' r = h r).
Proof.
  unfold get_random_items.
  destruct (shuffle g unlabeled_data) as [shuffled g1].
  pose proof (random_items_loop_take al number shuffled h [] (or_introl eq_refl)) as Hloop.
  destruct (random_items_loop al number shuffled h []) as [out h'].
  simpl in Hloop. rewrite Nat.sub_0_r in Hloop.
  destruct Hloop as (-> & Hid & _ & _ & Hrest).
  assert (forall r, r ∈ take (Z.to_nat (Z.max 1 number)) (not_labeled al h shuffled) ->
            al !! textid (h r) = None) as Hskip.
  { intros r Hr. apply subseteq_take in Hr.
    apply elem_of_not_labeled in Hr as [_ Hr]. now apply in_already_labeled_false. }
  split.
  - intros r Hr. rewrite (proj1 (Hid r)). now apply Hskip.
  - intros r [v Hv].
    assert (r ∉ take (Z.to_nat (Z.max 1 number)) (not_labeled al h shuffled)) as Hout.
    { intros Hr. apply Hskip in Hr. congruence. }
    split; [exact Hout | now apply Hrest].
Qed.

Section OutlierSelection.
Context `{Model}.

(** X7: a call of [get_model_outliers] that returns gives only items
    whose [ID] is not a key of [already_labeled], and it gives all the
    candidates of the working list when [number] is at least their
    number. *)
Theorem get_model_outliers_selection (al : gmap string string) (h : heap) (g : rng)
    (unlabeled_data validation_data : list ref) (number limit : Z)
    (out : list ref) (h' : heap) (g' : rng) (caller : list ref) :
  get_model_outliers al h g unlabeled_data validation_data number limit
    = Ok (out, h', g', caller) ->
  let processed := not_labeled al h (limit_unlabeled g unlabeled_data limit).1.2 in
  (forall r, r ∈ out -> al !! textid (h' r) = None) /\
  out ⊆ processed /\
  ((0 <= number)%Z -> length out = Nat.min (Z.to_nat number) (length processed)) /\
  ((Z.of_nat (length processed) <= number)%Z -> out ≡ₚ processed).
Proof.
  intros Hcall processed.
  destruct (get_model_outliers_inv _ _ _ _ _ _ _ _ _ _ _ Hcall)
    as (vr & _ & Hscore & Hout & _).
  destruct (score_outliers_spec _ _ _ _ _ _ _ Hscore) as (_ & Hid & _).
  fold processed in Hout.
  assert (out ⊆ processed) as Hsub.
  { intros r Hr. rewrite Hout in Hr. apply py_slice_to_subseteq in Hr.
    now rewrite sort_desc_Permutation in Hr. }
  split; [|split; [exact Hsub|split]].
  - intros r Hr. apply Hsub, elem_of_not_labeled in Hr as [_ Hr].
    apply in_already_labeled_false in Hr. now rewrite (proj1 (Hid r)).
  - intros Hpos. rewrite Hout, py_slice_to_nonneg by lia.
    now rewrite length_take, sort_desc_length.
  - intros Hall. rewrite Hout, py_slice_to_nonneg by lia.
    rewrite take_ge by (rewrite sort_desc_length; lia).
    apply sort_desc_Permutation.
Qed.
End OutlierSelection.

(** ** [get_rank]: the ends and the entries *)

Lemma StronglySorted_lookup_lt (l : list Q) (i j : nat) (a b : Q) :
  StronglySorted Qlt l -> (i < j)%nat -> l !! i = Some a -> l !! j = Some b -> (a < b)%Q.
Proof.
  intros Hs. revert i j. induction Hs as [|x l Hs IH Hall]; intros i j Hij Hi Hj.
  - inversion Hi.
  - destruct j as [|j]; [lia|]. simpl in Hj. destruct i as [|i]; simpl in Hi.
    + injection Hi as <-. rewrite Forall_forall in Hall.
      apply Hall. now apply list_elem_of_lookup_2 in Hj.
    + apply (IH i j); [lia | assumption | assumption].
Qed.

Lemma rank_scan_is (idx : nat) (value : Q) (rankings : list Q) :
  is_insertion_position idx value rankings -> rank_scan value rankings 0 = idx.
Proof.
  intros Hidx. apply (insertion_position_unique _ _ value rankings); [|exact Hidx].
  apply rank_scan_insertion_position.
Qed.

(** X8: in a strictly increasing list of rankings the rank of the entry
    at position [k] is [k / len], except for the last entry, whose rank
    is 1: the rank jumps from [(len - 2) / len] to 1 at the top. *)
Theorem get_rank_at_entry (rankings : list Q) (k : nat) (value : Q) :
  StronglySorted Qlt rankings ->
  rankings !! k = Some value ->
  returns (get_rank value rankings)
    (if (S k =? length rankings)%nat then 1
     else Q_of_nat k / Q_of_nat (length rankings)).
Proof.
  intros Hs Hk.
  pose proof (lookup_lt_Some _ _ _ Hk) as Hlen.
  assert (rankings <> []) as Hne by (intros ->; inversion Hk).
  pose proof (Q_of_nat_pos _ (nonempty_length _ Hne)) as Hpos.
  assert (rank_scan value rankings 0 = S k) as Hscan.
  { apply rank_scan_is. split; [lia|]. split.
    - intros j x Hj Hx. destruct (decide (j = k)) as [->|Hjk].
      + assert (x = value) as -> by congruence. apply Qle_refl.
      + apply Qlt_le_weak.
        apply (StronglySorted_lookup_lt rankings j k); [assumption | lia | assumption..].
    - intros x Hx.
      apply (StronglySorted_lookup_lt rankings k (S k)); [assumption | lia | assumption..]. }
  destruct (get_rank_specP value rankings Hne)
    as [H0 | Hn | lo hi index Hidx Hlo Hhi Hv]; try (exfalso; lia).
  - destruct (Nat.eqb_spec (S k) (length rankings)) as [_|E];
      [|exfalso; congruence].
    simpl. now apply Qdiv_same.
  - unfold index in *. rewrite Hscan in *.
    destruct (Nat.eqb_spec (S k) (length rankings)) as [E|_]; [lia|].
    replace (S k - 1)%nat with k in * by lia.
    assert (lo = value) as -> by congruence.
    simpl. apply Qdiv_comp; [|reflexivity].
    unfold Qdiv. ring.
Qed.

Lemma get_rank_at_entry_witness :
  StronglySorted Qlt [1; 3; 5]%Q /\
  [1; 3; 5]%Q !! 1%nat = Some 3%Q /\
  returns (get_rank 3 [1; 3; 5]%Q) (Q_of_nat 1 / Q_of_nat 3) /\
  returns (get_rank 5 [1; 3; 5]%Q) 1.
Proof.
  assert (StronglySorted Qlt [1; 3; 5]%Q) as Hs
    by (repeat constructor; unfold Qlt; simpl; lia).
  split; [exact Hs|]. split; [reflexivity|]. split.
  - exact (get_rank_at_entry [1; 3; 5]%Q 1 3%Q Hs eq_refl).
  - exact (get_rank_at_entry [1; 3; 5]%Q 2 5%Q Hs eq_refl).
Defined.

(** X9: on a list of rankings that is not empty, sorted or not,
    [get_rank] is 1 exactly when no entry is greater than the value, and
    it is 0 when the value is less than the first entry. *)
Theorem get_rank_ends (rankings : list Q) (value : Q) :
  rankings <> [] ->
  (returns (get_rank value rankings) 1 <-> forall x, x ∈ rankings -> (x <= value)%Q) /\
  (forall x, rankings !! 0%nat = Some x -> (value < x)%Q ->
     returns (get_rank value rankings) 0).
Proof.
  intros Hne.
  pose proof (Q_of_nat_pos _ (nonempty_length _ Hne)) as Hpos.
  destruct (rank_scan_insertion_position value rankings) as (Hle & Hbefore & Hat).
  destruct (get_rank_bracket value rankings Hne) as (r & Hr & Hup & _ & Hzero & Hone).
  cbn zeta in Hup, Hzero, Hone. rewrite Hr. cbn [returns].
  split; [split|].
  - intros Hr1 x Hx. apply list_elem_of_lookup in Hx as [j Hj].
    apply (Hbefore j x); [|exact Hj].
    destruct (Nat.lt_ge_cases (rank_scan value rankings 0) (length rankings))
      as [Hlt|Hge]; [exfalso | apply lookup_lt_Some in Hj; lia].
    assert (Q_of_nat (rank_scan value rankings 0) / Q_of_nat (length rankings) < 1)%Q.
    { apply Qlt_shift_div_r; [assumption|]. rewrite Qmult_1_l.
      unfold Q_of_nat. rewrite <- Zlt_Qlt. lia. }
    lra.
  - intros Hall. apply Hone. apply Nat.le_antisymm; [exact Hle|].
    destruct (Nat.lt_ge_cases (rank_scan value rankings 0) (length rankings))
      as [Hlt|Hge]; [exfalso | exact Hge].
    destruct (lookup_lt_is_Some_2 rankings _ Hlt) as [x Hx].
    pose proof (Hat x Hx). pose proof (Hall x (list_elem_of_lookup_2 _ _ _ Hx)). lra.
  - intros x Hx Hlt. apply Hzero.
    destruct (rank_scan value rankings 0) as [|i] eqn:E; [reflexivity|].
    pose proof (Hbefore 0%nat x ltac:(lia) Hx). lra.
Qed.

Lemma get_rank_ends_witness :
  [3; 1; 2]%Q <> [] /\
  (3 # 2 < 3)%Q /\
  returns (get_rank (3 # 2) [3; 1; 2]%Q) 0 /\
  returns (get_rank 4 [3; 1; 2]%Q) 1.
Proof.
  assert ([3; 1; 2]%Q <> []) as Hne by discriminate.
  assert (3 # 2 < 3)%Q as Hlt by (unfold Qlt; simpl; lia).
  split; [exact Hne|]. split; [exact Hlt|]. split.
  - exact (proj2 (get_rank_ends [3; 1; 2]%Q (3 # 2) Hne) 3%Q eq_refl Hlt).
  - apply (proj1 (get_rank_ends [3; 1; 2]%Q 4 Hne)).
    intros x Hx. repeat (apply elem_of_cons in Hx as [->|Hx]; [unfold Qle; simpl; lia|]).
    inversion Hx.
Defined.

(** ** [get_representative_samples]: how many items *)

Lemma py_slice_to_NoDup {A : Type} (n : Z) (l : list A) :
  NoDup l -> NoDup (py_slice_to n l).
Proof.
  intros Hnd. destruct (py_slice_to_take n l) as [k ->].
  eapply sublist_NoDup; [exact Hnd | apply sublist_take].
Qed.

Section RepresentativeSize.
Context `{ClusterOps}.

(** X10: [get_representative_samples] returns items of the list of
    unlabeled items, each at most once when the list has no repeats.
    With [number >= 0] it returns [min(number, available)] items, where
    [available] is [min(limit, len(unlabeled_data))] for [limit > 0] and
    [len(unlabeled_data)] otherwise; a negative [number] leaves out the
    last [-number] of the available items instead. *)
Theorem get_representative_samples_size (h : heap) (g : rng)
    (training_data unlabeled_data : list ref) (number limit : Z) :
  let o := get_representative_samples h g training_data unlabeled_data number limit in
  let available :=
    if (0 <? limit)%Z then Nat.min (Z.to_nat limit) (length unlabeled_data)
    else length unlabeled_data in
  returned o ⊆ unlabeled_data /\
  (NoDup unlabeled_data -> NoDup (returned o)) /\
  ((0 <= number)%Z -> length (returned o) = Nat.min (Z.to_nat number) available) /\
  ((number < 0)%Z -> length (returned o) = (available - Z.to_nat (- number))%nat).
Proof.
  intros o available.
  pose proof (working_subseteq g training_data unlabeled_data limit) as Hsub.
  assert (length (limit_sets g training_data unlabeled_data limit).1.2.2 = available
          /\ (NoDup unlabeled_data ->
              NoDup (limit_sets g training_data unlabeled_data limit).1.2.2))
    as [Hlen Hnd].
  { rewrite limit_sets_unfold. unfold available.
    destruct (Z.ltb_spec 0 limit) as [Hpos|Hle]; cbn [fst snd]; [|done].
    pose proof (shuffle_Permutation (shuffle g training_data).2 unlabeled_data) as Hperm.
    split.
    - rewrite py_slice_to_nonneg, length_take by lia.
      now rewrite (Permutation_length Hperm).
    - intros Hnd. apply py_slice_to_NoDup. now rewrite Hperm. }
  unfold o. rewrite get_representative_samples_unfold. cbn [returned].
  set (working := (limit_sets g training_data unlabeled_data limit).1.2.2) in *.
  set (sorted := sort_desc _ working).
  assert (length sorted = available) as Hsorted
    by (unfold sorted; now rewrite sort_desc_length).
  split; [|split; [|split]].
  - intros r Hr. apply py_slice_to_subseteq in Hr. unfold sorted in Hr.
    rewrite sort_desc_Permutation in Hr. now apply Hsub.
  - intros Hu. apply py_slice_to_NoDup. unfold sorted.
    rewrite sort_desc_Permutation. now apply Hnd.
  - intros Hpos. rewrite py_slice_to_nonneg, length_take by lia. now rewrite Hsorted.
  - intros Hneg. unfold py_slice_to.
    destruct (Z.ltb_spec number 0) as [_|?]; [|lia].
    rewrite length_take, Hsorted. lia.
Qed.
End RepresentativeSize.

Lemma get_representative_samples_size_witness :
  let o := get_representative_samples (H := counting_cluster) news [2%nat]
             [3%nat] [0%nat; 1%nat; 2%nat] 5 2 in
  NoDup [0%nat; 1%nat; 2%nat] /\
  (0 <= 5)%Z /\
  NoDup (returned o) /\
  length (returned o) = 2%nat.
Proof.
  intros o.
  assert (NoDup [0%nat; 1%nat; 2%nat]) as Hnd
    by (apply (bool_decide_unpack _); vm_compute; exact I).
  destruct (get_representative_samples_size (H := counting_cluster) news [2%nat]
              [3%nat] [0%nat; 1%nat; 2%nat] 5 2) as (_ & Hdistinct & Hlen & _).
  split; [exact Hnd|]. split; [lia|]. split; [exact (Hdistinct Hnd)|].
  exact (Hlen ltac:(lia)).
Defined.

(** ** Runs of the further properties *)

Lemma get_random_items_count_witness :
  let already_labeled : gmap string string := {[ "b" := "1" ]} in
  let '(random_items, h', g', caller) :=
    get_random_items already_labeled news [2%nat] [0%nat; 1%nat; 2%nat] 0 in
  (0 <= 0)%Z /\
  not_labeled already_labeled news caller <> [] /\
  length random_items = 1%nat.
Proof.
  intros already_labeled.
  pose proof (get_random_items_count already_labeled news [2%nat]
                [0%nat; 1%nat; 2%nat] 0) as Hcount.
  destruct (get_random_items already_labeled news [2%nat] [0%nat; 1%nat; 2%nat] 0)
    as [[[random_items h'] g'] caller].
  destruct Hcount as (Hcaller & _ & _ & _ & Hone).
  assert (not_labeled already_labeled news caller <> []) as Hne
    by (rewrite Hcaller; discriminate).
  split; [lia|]. split; [exact Hne|]. apply Hone; [lia | exact Hne].
Defined.

Lemma get_model_outliers_no_validation_witness :
  let already_labeled : gmap string string := {[ "b" := "1" ]} in
  not_labeled already_labeled news
    (limit_unlabeled [] [1%nat; 2%nat] 10000).1.2 <> [] /\
  (forall t, neuron_outputs (Model := length_model) t <> []) /\
  get_model_outliers (H := length_model) already_labeled news []
    [1%nat; 2%nat] [] 5 10000 = Raise IndexError.
Proof.
  intros already_labeled.
  assert (not_labeled already_labeled news
            (limit_unlabeled [] [1%nat; 2%nat] 10000).1.2 <> []) as Hne by discriminate.
  assert (forall t, neuron_outputs (Model := length_model) t <> []) as Hwidth
    by discriminate.
  split; [exact Hne|]. split; [exact Hwidth|].
  exact (proj2 (get_model_outliers_no_validation (H := length_model) already_labeled
                  news [] [1%nat; 2%nat] 5 10000) Hne Hwidth).
Defined.

Lemma get_model_outliers_frame_witness :
  let already_labeled : gmap string string := {[ "b" := "1" ]} in
  exists out h' g' caller,
    get_model_outliers (H := length_model) already_labeled news [7%nat]
      [1%nat; 2%nat] [3%nat] 5 (-1) = Ok (out, h', g', caller) /\
    h' 1%nat = storm /\
    caller = [1%nat; 2%nat] /\
    g' = [7%nat].
Proof.
  intros already_labeled.
  destruct (get_model_outliers_returns (H := length_model) already_labeled news
              [7%nat] [1%nat; 2%nat] [3%nat] 5 (-1) 2)
    as (vr & out & h' & g' & caller & Hcall & _); [lia | discriminate | reflexivity |].
  exists out, h', g', caller. split; [exact Hcall|].
  destruct (get_model_outliers_frame (H := length_model) _ _ _ _ _ _ _ _ _ _ _ Hcall)
    as (_ & _ & Hlabeled & _ & _ & Hfull).
  split; [apply Hlabeled; reflexivity|].
  split; apply Hfull; reflexivity.
Defined.

Lemma get_model_outliers_selection_witness :
  let already_labeled : gmap string string := {[ "b" := "1" ]} in
  exists out h' g' caller,
    get_model_outliers (H := length_model) already_labeled news [7%nat]
      [1%nat; 2%nat] [3%nat] 5 (-1) = Ok (out, h', g', caller) /\
    out ≡ₚ [2%nat] /\
    forall r, r ∈ out -> already_labeled !! textid (h' r) = None.
Proof.
  intros already_labeled.
  destruct (get_model_outliers_returns (H := length_model) already_labeled news
              [7%nat] [1%nat; 2%nat] [3%nat] 5 (-1) 2)
    as (vr & out & h' & g' & caller & Hcall & _); [lia | discriminate | reflexivity |].
  exists out, h', g', caller. split; [exact Hcall|].
  destruct (get_model_outliers_selection (H := length_model) _ _ _ _ _ _ _ _ _ _ _ Hcall)
    as (Hskip & _ & _ & Hall).
  split; [|exact Hskip].
  apply Hall. vm_compute. discriminate.
Defined.

(** * The uncertainty sampler and the evaluation *)

(** ** [list.sort] with a key *)

Section SortBy.
Context {A : Type} (key : A -> Q).

Lemma insert_by_Permutation (x : A) (l : list A) : insert_by key x l ≡ₚ x :: l.
Proof.
  induction l as [|y l IH]; simpl; [reflexivity|].
  destruct (Qltb (key y) (key x)); [|reflexivity].
  rewrite IH. apply Permutation_swap.
Qed.

Lemma sort_by_Permutation (l : list A) : sort_by key l ≡ₚ l.
Proof.
  induction l as [|x l IH]; [reflexivity|].
  unfold sort_by in *. simpl. rewrite insert_by_Permutation. now rewrite IH.
Qed.

Lemma insert_by_sorted (x : A) (l : list A) :
  StronglySorted (key_le key) l -> StronglySorted (key_le key) (insert_by key x l).
Proof.
  induction 1 as [|y l Hs IH Hall]; simpl.
  - repeat constructor.
  - destruct (Qltb (key y) (key x)) eqn:E.
    + apply Qltb_lt in E. constructor; [assumption|].
      rewrite Forall_forall. intros z Hz.
      rewrite insert_by_Permutation in Hz.
      apply elem_of_cons in Hz as [->|Hz].
      * unfold key_le. lra.
      * rewrite Forall_forall in Hall. now apply Hall.
    + apply Qltb_ge in E. constructor; [now constructor|].
      constructor; [exact E|].
      eapply Forall_impl; [exact Hall|].
      intros z Hz. unfold key_le in *. lra.
Qed.

Lemma sort_by_sorted (l : list A) : StronglySorted (key_le key) (sort_by key l).
Proof.
  induction l as [|x l IH]; [constructor|].
  unfold sort_by in *. simpl. now apply insert_by_sorted.
Qed.

Lemma insert_by_stable (k : Q) (x : A) (l : list A) :
  List.filter (fun y => Qeq_bool (key y) k) (insert_by key x l) =
  List.filter (fun y => Qeq_bool (key y) k) (x :: l).
Proof.
  induction l as [|y l IH]; [reflexivity|].
  cbn [insert_by].
  destruct (Qltb (key y) (key x)) eqn:E; [|reflexivity].
  apply Qltb_lt in E.
  cbn [List.filter] in *. rewrite IH.
  destruct (Qeq_bool (key x) k) eqn:Ex; [|reflexivity].
  destruct (Qeq_bool (key y) k) eqn:Ey; [|reflexivity].
  apply Qeq_bool_eq in Ex, Ey. lra.
Qed.

Lemma sort_by_stable (k : Q) (l : list A) :
  List.filter (fun y => Qeq_bool (key y) k) (sort_by key l) =
  List.filter (fun y => Qeq_bool (key y) k) l.
Proof.
  induction l as [|x l IH]; [reflexivity|].
  unfold sort_by in *. cbn [foldr].
  rewrite insert_by_stable. cbn [List.filter]. now rewrite IH.
Qed.
End SortBy.

(** ** [get_low_conf_unlabeled] *)

Lemma confidence_of_spec (p : Q) :
  (1 # 2 <= confidence_of p)%Q /\
  (p <= confidence_of p)%Q /\
  (1 - p <= confidence_of p)%Q /\
  (confidence_of p = p \/ confidence_of p = (1 - p)%Q).
Proof.
  unfold confidence_of. destruct (Qltb p (1 # 2)) eqn:E.
  - apply Qltb_lt in E. repeat split; try lra. now right.
  - apply Qltb_ge in E. repeat split; try lra. now left.
Qed.

Section LowConfidence.
Context `{Classifier}.

Lemma score_confidences_spec (al : gmap string string) (l : list ref) (h : heap)
    (acc : list ref) :
  let '(out, h') := score_confidences al l h acc in
  out = acc ++ not_labeled al h l /\
  same_identity h h' /\
  (forall r, r ∈ not_labeled al h l ->
     strategy (h' r) = "low confidence" /\
     score (h' r) = confidence_of (prob_related (text (h r)))) /\
  (forall r, r ∉ not_labeled al h l -> h' r = h r).
Proof.
  revert h acc. induction l as [|a l IH]; intros h acc; simpl.
  - rewrite app_nil_r. split; [reflexivity|]. split; [apply same_identity_refl|].
    split; [intros r Hr; inversion Hr | reflexivity].
  - unfold not_labeled. simpl. fold (not_labeled al h l).
    destruct (in_already_labeled al (textid (h a))) eqn:Elab; simpl; [apply IH|].
    set (h1 := set_score (set_strategy h a "low confidence") a
                 (confidence_of (prob_related (text (h a))))).
    assert (same_identity h h1) as Hid1 by apply scored_same_identity.
    specialize (IH h1 (acc ++ [a])).
    destruct (score_confidences al l h1 (acc ++ [a])) as [out h'].
    destruct IH as (Hout & Hid & Hin & Hrest).
    rewrite (not_labeled_same_identity al h h1 l Hid1) in Hout, Hin, Hrest.
    split; [now rewrite Hout, <- app_assoc|].
    split; [now apply (same_identity_trans h h1)|]. split.
    + intros r Hr. destruct (decide (r ∈ not_labeled al h l)) as [Hl|Hl].
      * destruct (Hin r Hl) as [Hst Hsc]. split; [exact Hst|].
        now rewrite Hsc, (proj1 (proj2 (Hid1 r))).
      * apply elem_of_cons in Hr as [->|Hr]; [|contradiction].
        rewrite (Hrest a Hl). unfold h1. rewrite scored_item. now split.
    + intros r Hr. apply not_elem_of_cons in Hr as [Hne Hl].
      rewrite (Hrest r Hl). unfold h1. now apply scored_other.
Qed.

(** The call, piece by piece. *)
Lemma get_low_conf_unlabeled_unfold (al : gmap string string) (h : heap) (g : rng)
    (unlabeled_data : list ref) (number limit : Z) :
  let lim := limit_unlabeled g unlabeled_data limit in
  let scored := score_confidences al lim.1.2 h [] in
  get_low_conf_unlabeled al h g unlabeled_data number limit =
  (py_slice_to number (sort_by (fun x => score (scored.2 x)) scored.1),
   scored.2, lim.2, lim.1.1).
Proof.
  unfold get_low_conf_unlabeled.
  destruct (limit_unlabeled g unlabeled_data limit) as [[c w] g1]. cbn [fst snd].
  now destruct (score_confidences al w h []) as [out h'].
Qed.

(** X11: every item that [get_low_conf_unlabeled] processes (an item of
    the working list whose [ID] is not in [already_labeled]) gets the
    strategy ["low confidence"] and as score the larger of [p] and
    [1 - p], where [p] is the confidence of the classifier that the text
    is related; the score is never below 1/2, whatever the classifier
    gives.  Labeled items and items outside the working list are not
    written. *)
Theorem get_low_conf_unlabeled_scores (al : gmap string string) (h : heap) (g : rng)
    (unlabeled_data : list ref) (number limit : Z) :
  let '(out, h', g', caller) := get_low_conf_unlabeled al h g unlabeled_data number limit in
  let processed := not_labeled al h (limit_unlabeled g unlabeled_data limit).1.2 in
  (forall r, r ∈ processed ->
     let p := prob_related (text (h r)) in
     strategy (h' r) = "low confidence" /\
     (score (h' r) = p \/ score (h' r) = (1 - p)%Q) /\
     (p <= score (h' r))%Q /\ (1 - p <= score (h' r))%Q /\
     (1 # 2 <= score (h' r))%Q) /\
  (forall r, r ∉ processed -> h' r = h r) /\
  same_identity h h'.
Proof.
  rewrite get_low_conf_unlabeled_unfold. cbn zeta.
  pose proof (score_confidences_spec al
                (limit_unlabeled g unlabeled_data limit).1.2 h []) as Hs.
  destruct (score_confidences al (limit_unlabeled g unlabeled_data limit).1.2 h [])
    as [out h']. cbn [fst snd].
  destruct Hs as (_ & Hid & Hin & Hrest).
  split; [|split; [exact Hrest | exact Hid]].
  intros r Hr. destruct (Hin r Hr) as [Hst Hsc].
  destruct (confidence_of_spec (prob_related (text (h r)))) as (Hhalf & Hp & Hq & Hor).
  rewrite Hsc. repeat split; assumption.
Qed.

(** X12: [get_low_conf_unlabeled] returns the first [number] of the
    processed items in ascending order of score, the least confident
    first; items of one score keep the order of the working list, and
    no returned item has its [ID] in [already_labeled]. *)
Theorem get_low_conf_unlabeled_order (al : gmap string string) (h : heap) (g : rng)
    (unlabeled_data : list ref) (number limit : Z) :
  let '(out, h', g', caller) := get_low_conf_unlabeled al h g unlabeled_data number limit in
  let processed := not_labeled al h (limit_unlabeled g unlabeled_data limit).1.2 in
  let sorted := sort_by (fun x => score (h' x)) processed in
  out = py_slice_to number sorted /\
  ((0 <= number)%Z -> out = take (Z.to_nat number) sorted) /\
  sorted ≡ₚ processed /\
  StronglySorted (key_le (fun x => score (h' x))) sorted /\
  (forall k,
     List.filter (fun x => Qeq_bool (score (h' x)) k) sorted =
     List.filter (fun x => Qeq_bool (score (h' x)) k) processed) /\
  (forall r, r ∈ out -> al !! textid (h' r) = None) /\
  caller ≡ₚ unlabeled_data.
Proof.
  rewrite get_low_conf_unlabeled_unfold. cbn zeta.
  pose proof (score_confidences_spec al
                (limit_unlabeled g unlabeled_data limit).1.2 h []) as Hs.
  pose proof (limit_unlabeled_spec g unlabeled_data limit) as Hl.
  destruct (limit_unlabeled g unlabeled_data limit) as [[c w] g1]. cbn [fst snd] in *.
  destruct (score_confidences al w h []) as [out h']. cbn [fst snd].
  destruct Hs as (Hout & Hid & _). simpl in Hout. subst out.
  split; [reflexivity|]. split; [intros Hn; now apply py_slice_to_nonneg|].
  split; [apply sort_by_Permutation|]. split; [apply sort_by_sorted|].
  split; [intros k; apply sort_by_stable|]. split; [|apply Hl].
  intros r Hr. apply py_slice_to_subseteq in Hr. rewrite sort_by_Permutation in Hr.
  apply elem_of_not_labeled in Hr as [_ Hr].
  rewrite (proj1 (Hid r)). now apply in_already_labeled_false.
Qed.
End LowConfidence.

(** ** [evaluate_model] *)

Lemma greater_scan_rank_scan (conf : Q) (l : list Q) (n : nat) :
  greater_scan conf l n = rank_scan conf l n.
Proof.
  revert n. induction l as [|x l IH]; intros n; simpl; [reflexivity|].
  now rewrite IH.
Qed.

Lemma filter_length_Permutation {A : Type} (f : A -> bool) (l l' : list A) :
  l ≡ₚ l' -> length (List.filter f l) = length (List.filter f l').
Proof.
  induction 1 as [|x l l' _ IH|x y l|l l' l'' _ IH1 _ IH2]; simpl.
  - reflexivity.
  - destruct (f x); simpl; now rewrite IH.
  - destruct (f x), (f y); reflexivity.
  - now rewrite IH1.
Qed.

Lemma filter_length_le {A : Type} (f : A -> bool) (l : list A) :
  (length (List.filter f l) <= length l)%nat.
Proof.
  induction l as [|x l IH]; simpl; [lia|]. destruct (f x); simpl; lia.
Qed.

(** On the sorted list the scan with its [break] counts the
    confidences that are not greater, wherever they stood before the
    sort. *)
Lemma greater_scan_sorted (conf : Q) (not_related : list Q) (n : nat) :
  greater_scan conf (sort_asc not_related) n =
  (n + length (List.filter (fun conf2 => Qle_bool conf2 conf) not_related))%nat.
Proof.
  rewrite greater_scan_rank_scan, rank_scan_acc.
  rewrite (rank_scan_sorted conf (sort_asc not_related) (sort_asc_sorted _)).
  unfold insertion_position.
  now rewrite (filter_length_Permutation _ _ _ (sort_asc_Permutation not_related)).
Qed.

Lemma count_greater_sorted (related not_related : list Q) :
  count_greater related (sort_asc not_related) = pairs_not_smaller related not_related.
Proof.
  unfold count_greater, pairs_not_smaller.
  assert (forall n,
            fold_left (fun total conf => greater_scan conf (sort_asc not_related) total)
              related n
            = (n + list_sum
                     (List.map (fun conf =>
                        length (List.filter (fun conf2 => Qle_bool conf2 conf) not_related))
                        related))%nat) as Hfold.
  { induction related as [|r related IH]; intros n; simpl; [lia|].
    rewrite IH, greater_scan_sorted. lia. }
  now rewrite Hfold.
Qed.

Lemma pairs_not_smaller_le (related not_related : list Q) :
  (pairs_not_smaller related not_related <= length not_related * length related)%nat.
Proof.
  unfold pairs_not_smaller. induction related as [|r related IH]; simpl; [lia|].
  pose proof (filter_length_le (fun conf2 => Qle_bool conf2 r) not_related). nia.
Qed.

Lemma py_div_zero_nat (a : Q) (n : nat) :
  n = 0%nat -> py_div a (Q_of_nat n) = Raise ZeroDivisionError.
Proof. intros ->. reflexivity. Qed.

Section Evaluation.
Context `{Classifier}.

Lemma tally_items_snoc (h : heap) (l : list ref) (a : ref) :
  tally_items h (l ++ [a]) = tally_item (tally_items h l) (h a).
Proof. unfold tally_items. now rewrite fold_left_app. Qed.

(** The counters count, and the lists keep the confidences in the order
    of the items. *)
Lemma tally_items_spec (h : heap) (l : list ref) :
  let items := h <$> l in
  let t := tally_items h l in
  related_confs t
    = List.map (fun it => prob_related (text it)) (List.filter is_related items) /\
  not_related_confs t
    = List.map (fun it => prob_related (text it))
        (List.filter (fun it => negb (is_related it)) items) /\
  (true_pos t == Q_of_nat (true_positives items))%Q /\
  (false_pos t == Q_of_nat (false_positives items))%Q /\
  (false_neg t == Q_of_nat (false_negatives items))%Q.
Proof.
  induction l as [|a l IH] using rev_ind.
  - repeat split; reflexivity.
  - cbn zeta in *. rewrite tally_items_snoc, fmap_app.
    destruct IH as (Hr & Hn & Htp & Hfp & Hfn).
    unfold true_positives, false_positives, false_negatives in *.
    rewrite !List.filter_app, !List.map_app, !length_app.
    unfold tally_item, is_related, predicted_related in *. cbn [fmap list_fmap List.filter].
    destruct (String.eqb (label (h a)) "1");
      destruct (Qltb (1 # 2) (prob_related (text (h a))));
      cbn [related_confs not_related_confs true_pos false_pos false_neg
           andb negb List.map length app];
      rewrite ?app_nil_r, ?Nat.add_0_r, ?Nat.add_1_r, ?Q_of_nat_S, Hr, Hn, ?Htp, ?Hfp, ?Hfn;
      repeat split; reflexivity.
Qed.

Lemma fscore_of_spec (t : tally) (tp fp fn : nat) :
  (true_pos t == Q_of_nat tp)%Q ->
  (false_pos t == Q_of_nat fp)%Q ->
  (false_neg t == Q_of_nat fn)%Q ->
  exists f,
    fscore_of t = Ok f /\
    (tp = 0%nat -> f == 0)%Q /\
    ((0 < tp)%nat ->
     f == 2 * Q_of_nat tp / (2 * Q_of_nat tp + Q_of_nat fp + Q_of_nat fn))%Q /\
    (0 <= f <= 1)%Q.
Proof.
  intros Htp Hfp Hfn. unfold fscore_of.
  pose proof (Q_of_nat_le 0 fp ltac:(lia)) as Hfp0.
  pose proof (Q_of_nat_le 0 fn ltac:(lia)) as Hfn0.
  change (Q_of_nat 0) with 0%Q in *.
  destruct (Qeq_bool (true_pos t) 0) eqn:E.
  - apply Qeq_bool_eq in E. exists 0%Q. split; [reflexivity|].
    split; [reflexivity|]. split; [|lra].
    intros Hpos. apply Q_of_nat_pos in Hpos. lra.
  - assert (0 < tp)%nat as Hpos.
    { destruct tp; [|lia]. exfalso.
      rewrite (proj2 (Qeq_bool_iff (true_pos t) 0) Htp) in E. discriminate. }
    apply Q_of_nat_pos in Hpos.
    set (a := true_pos t) in *. set (b := false_pos t) in *. set (c := false_neg t) in *.
    rewrite (py_div_pos a (a + b)) by lra. cbn [bind].
    rewrite (py_div_pos a (a + c)) by lra. cbn [bind].
    assert (0 < a / (a + b) /\ 0 < a / (a + c))%Q as [Hp Hr].
    { split; apply Qlt_shift_div_l; lra. }
    rewrite py_div_pos by lra.
    eexists. split; [reflexivity|].
    assert (2 * (a / (a + b)) * (a / (a + c)) / (a / (a + b) + a / (a + c))
            == 2 * a / (2 * a + b + c))%Q as Hclosed.
    { field. repeat split; try lra.
      intros Heq.
      assert (0 < a * (2 * a + b + c))%Q by (apply Qmult_lt_0_compat; lra).
      lra. }
    split; [intros ->; exfalso; change (Q_of_nat 0) with 0%Q in Hpos; lra|].
    split.
    + intros _. rewrite Hclosed, <- Htp, <- Hfp, <- Hfn. reflexivity.
    + rewrite Hclosed. split.
      * apply Qle_shift_div_l; lra.
      * apply Qle_shift_div_r; lra.
Qed.

(** X13: [evaluate_model] needs both classes in the evaluation data.
    When no item has the label ["1"], or every item has it, the
    denominator of the AUC is 0 and the call raises [ZeroDivisionError];
    otherwise it returns. *)
Theorem evaluate_model_classes (h : heap) (evaluation_data : list ref) :
  let items := h <$> evaluation_data in
  let related := List.filter is_related items in
  let not_related := List.filter (fun it => negb (is_related it)) items in
  (related = [] \/ not_related = [] ->
   evaluate_model h evaluation_data = Raise ZeroDivisionError) /\
  (related <> [] -> not_related <> [] ->
   exists fscore auc, evaluate_model h evaluation_data = Ok (fscore, auc)).
Proof.
  intros items related not_related.
  destruct (tally_items_spec h evaluation_data) as (Hr & Hn & Htp & Hfp & Hfn).
  cbn zeta in *. fold items in Hr, Hn, Htp, Hfp, Hfn.
  fold related in Hr. fold not_related in Hn.
  destruct (fscore_of_spec _ _ _ _ Htp Hfp Hfn) as (f & Hf & _).
  unfold evaluate_model. rewrite Hf. cbn [bind].
  rewrite sort_asc_length, Hr, Hn, !length_map.
  split.
  - intros Hempty. rewrite py_div_zero_nat; [reflexivity|].
    destruct Hempty as [->| ->]; simpl; lia.
  - intros Hrel Hnot. apply nonempty_length in Hrel, Hnot.
    rewrite py_div_pos by (apply Q_of_nat_pos; nia). cbn [bind]. eauto.
Qed.
End Evaluation.

Lemma filter_all_length {A : Type} (f : A -> bool) (l : list A) :
  (forall x, x ∈ l -> f x = true) -> length (List.filter f l) = length l.
Proof.
  induction l as [|x l IH]; intros Hall; [reflexivity|]. simpl.
  rewrite (Hall x) by left. simpl. f_equal. apply IH. intros y Hy. apply Hall. now right.
Qed.

Lemma pairs_not_smaller_all (related not_related : list Q) :
  (forall r n, r ∈ related -> n ∈ not_related -> (n <= r)%Q) ->
  pairs_not_smaller related not_related = (length not_related * length related)%nat.
Proof.
  unfold pairs_not_smaller. induction related as [|r related IH]; intros Hall; simpl; [lia|].
  rewrite IH by (intros r' n Hr' Hn; apply Hall; [now right | exact Hn]).
  rewrite filter_all_length; [lia|].
  intros n Hn. apply Qle_bool_iff. apply Hall; [left | exact Hn].
Qed.

Section EvaluationScores.
Context `{Classifier}.

Lemma evaluate_model_inv (h : heap) (evaluation_data : list ref) (fscore auc : Q) :
  evaluate_model h evaluation_data = Ok (fscore, auc) ->
  let t := tally_items h evaluation_data in
  fscore_of t = Ok fscore /\
  (0 < length (not_related_confs t) * length (related_confs t))%nat /\
  auc = (Q_of_nat (pairs_not_smaller (related_confs t) (not_related_confs t))
         / Q_of_nat (length (not_related_confs t) * length (related_confs t)))%Q.
Proof.
  unfold evaluate_model. intros Hcall.
  apply bind_Ok in Hcall as (f & Hf & Hcall).
  apply bind_Ok in Hcall as (a & Ha & Hcall). injection Hcall as <- <-.
  rewrite sort_asc_length, count_greater_sorted in Ha.
  split; [exact Hf|].
  destruct (length (not_related_confs (tally_items h evaluation_data))
            * length (related_confs (tally_items h evaluation_data)))%nat as [|d] eqn:Ed.
  - discriminate Ha.
  - rewrite py_div_pos in Ha by (apply Q_of_nat_pos; lia).
    injection Ha as <-. split; [lia | reflexivity].
Qed.

(** X14: the AUC that [evaluate_model] returns is the share of the
    pairs of a related and a not related item in which the related item
    has at least the confidence of the other: the scan with [break]
    over the sorted confidences counts exactly these pairs.  It lies in
    [0, 1], and it is 1 when every related item has at least the
    confidence of every item that is not related. *)
Theorem evaluate_model_auc (h : heap) (evaluation_data : list ref) (fscore auc : Q) :
  evaluate_model h evaluation_data = Ok (fscore, auc) ->
  let items := h <$> evaluation_data in
  let related :=
    List.map (fun it => prob_related (text it)) (List.filter is_related items) in
  let not_related :=
    List.map (fun it => prob_related (text it))
      (List.filter (fun it => negb (is_related it)) items) in
  (auc == Q_of_nat (pairs_not_smaller related not_related)
          / Q_of_nat (length not_related * length related))%Q /\
  (0 <= auc <= 1)%Q /\
  ((forall r n, r ∈ related -> n ∈ not_related -> (n <= r)%Q) -> (auc == 1)%Q).
Proof.
  intros Hcall items related not_related.
  destruct (evaluate_model_inv _ _ _ _ Hcall) as (_ & Hden & ->).
  destruct (tally_items_spec h evaluation_data) as (Hr & Hn & _).
  cbn zeta in *. fold items in Hr, Hn. fold related in Hr. fold not_related in Hn.
  rewrite Hr, Hn in *.
  pose proof (Q_of_nat_pos _ Hden) as Hpos.
  pose proof (pairs_not_smaller_le related not_related) as Hle.
  split; [reflexivity|]. split; [split|].
  - apply Qle_shift_div_l; [assumption|]. rewrite Qmult_0_l.
    apply (Q_of_nat_le 0). lia.
  - apply Qle_shift_div_r; [assumption|]. rewrite Qmult_1_l. now apply Q_of_nat_le.
  - intros Hall. rewrite (pairs_not_smaller_all _ _ Hall). now apply Qdiv_same.
Qed.

(** X15: the F-score that [evaluate_model] returns is 0 when no related
    item is predicted as related, and [2 TP / (2 TP + FP + FN)]
    otherwise, the harmonic mean of precision and recall; it lies in
    [0, 1] and none of its divisions can fail. *)
Theorem evaluate_model_fscore (h : heap) (evaluation_data : list ref) (fscore auc : Q) :
  evaluate_model h evaluation_data = Ok (fscore, auc) ->
  let items := h <$> evaluation_data in
  let tp := true_positives items in
  let fp := false_positives items in
  let fn := false_negatives items in
  (tp = 0%nat -> fscore == 0)%Q /\
  ((0 < tp)%nat ->
   fscore == 2 * Q_of_nat tp / (2 * Q_of_nat tp + Q_of_nat fp + Q_of_nat fn))%Q /\
  (0 <= fscore <= 1)%Q.
Proof.
  intros Hcall items tp fp fn.
  destruct (evaluate_model_inv _ _ _ _ Hcall) as (Hf & _).
  destruct (tally_items_spec h evaluation_data) as (_ & _ & Htp & Hfp & Hfn).
  cbn zeta in *. fold items in Htp, Hfp, Hfn.
  destruct (fscore_of_spec _ _ _ _ Htp Hfp Hfn) as (f & Hf' & Hzero & Hpos & Hrange).
  assert (f = fscore) as <- by congruence.
  refine (conj Hzero (conj Hpos Hrange)).
Qed.
End EvaluationScores.

Lemma evaluate_model_classes_witness :
  List.filter is_related (news <$> [3%nat; 2%nat]) <> [] /\
  List.filter (fun it => negb (is_related it)) (news <$> [3%nat; 2%nat]) <> [] /\
  (exists fscore auc,
     evaluate_model (H := length_classifier) news [3%nat; 2%nat] = Ok (fscore, auc)) /\
  evaluate_model (H := length_classifier) news [3%nat] = Raise ZeroDivisionError.
Proof.
  assert (List.filter is_related (news <$> [3%nat; 2%nat]) <> []) as Hrel by discriminate.
  assert (List.filter (fun it => negb (is_related it)) (news <$> [3%nat; 2%nat]) <> [])
    as Hnot by discriminate.
  split; [exact Hrel|]. split; [exact Hnot|]. split.
  - exact (proj2 (evaluate_model_classes (H := length_classifier) news [3%nat; 2%nat])
             Hrel Hnot).
  - apply (proj1 (evaluate_model_classes (H := length_classifier) news [3%nat])).
    right. reflexivity.
Defined.

Lemma evaluate_model_auc_witness :
  exists fscore auc,
    evaluate_model (H := length_classifier) news [3%nat; 2%nat; 0%nat] = Ok (fscore, auc) /\
    (auc == 1)%Q.
Proof.
  destruct (evaluate_model (H := length_classifier) news [3%nat; 2%nat; 0%nat])
    as [[fscore auc]|e] eqn:E; [|vm_compute in E; discriminate].
  exists fscore, auc. split; [reflexivity|].
  destruct (evaluate_model_auc (H := length_classifier) news [3%nat; 2%nat; 0%nat]
              fscore auc E) as (Hauc & _).
  rewrite Hauc. reflexivity.
Defined.

Lemma evaluate_model_fscore_witness :
  exists fscore auc,
    evaluate_model (H := length_classifier) news [3%nat; 2%nat; 0%nat] = Ok (fscore, auc) /\
    (fscore == 2 # 3)%Q.
Proof.
  destruct (evaluate_model (H := length_classifier) news [3%nat; 2%nat; 0%nat])
    as [[fscore auc]|e] eqn:E; [|vm_compute in E; discriminate].
  exists fscore, auc. split; [reflexivity|].
  destruct (evaluate_model_fscore (H := length_classifier) news [3%nat; 2%nat; 0%nat]
              fscore auc E) as (_ & Hf & _).
  rewrite Hf; [vm_compute; reflexivity | vm_compute; lia].
Defined.

(** * Loading the data *)

(** ** [load_data] *)

Lemma pad_row_padding (row : list cell) : pad_row row = row ++ padding (length row).
Proof.
  destruct row as [|c0 [|c1 [|c2 [|c3 [|c4 row]]]]]; try reflexivity.
  unfold pad_row, padding. simpl. now rewrite app_nil_r.
Qed.

Lemma pad_row_lookup_0 (r : list string) :
  exists id, pad_row (Str <$> r) !! 0%nat = Some (Str id) /\
             (forall s, r !! 0%nat = Some s -> id = s).
Proof.
  rewrite pad_row_padding. destruct r as [|s r]; simpl.
  - exists ""%string. split; [reflexivity | intros s Hs; inversion Hs].
  - exists s. split; [reflexivity | now intros s' [= <-]].
Qed.

Lemma pad_row_lookup_2 (r : list string) :
  exists c2, pad_row (Str <$> r) !! 2%nat = Some c2.
Proof.
  rewrite pad_row_padding. destruct r as [|s0 [|s1 [|s2 r]]]; simpl; eauto.
Qed.

(** The rows that a run keeps, for any setting of the flag. *)
Lemma load_rows_spec (skip : bool) (rows : list (list string))
    (al : gmap string string) (data data' : list (list cell))
    (al' : gmap string string) :
  load_rows skip rows al data = Ok (data', al') ->
  exists kept,
    data' = data ++ kept /\
    kept `sublist_of` ((fun r => pad_row (Str <$> r)) <$> rows) /\
    (skip = false -> kept = (fun r => pad_row (Str <$> r)) <$> rows) /\
    (skip = true -> forall row, row ∈ kept -> al !! row_id row = None) /\
    (forall id,
       is_Some (al' !! id) <->
       is_Some (al !! id) \/
       exists row, row ∈ kept /\ row_id row = id /\ labeled_row row = true) /\
    (forall id l, al' !! id = Some l ->
       al !! id = Some l \/
       exists row c2, row ∈ kept /\ row_id row = id /\
                      row !! 2%nat = Some c2 /\ l = str c2) /\
    (skip = true ->
     forall i j row row',
       (i < j)%nat -> kept !! i = Some row -> kept !! j = Some row' ->
       labeled_row row = true -> row_id row' <> row_id row).
Proof.
  revert al data. induction rows as [|r rows IH]; intros al data Hload.
  - simpl in Hload. injection Hload as <- <-. exists [].
    rewrite app_nil_r. split; [reflexivity|]. split; [constructor|].
    split; [reflexivity|]. split; [intros _ row Hrow; inversion Hrow|].
    split; [intros id; split; [now left | intros [?|(row & Hrow & _)];
                                           [assumption | inversion Hrow]]|].
    split; [intros id l Hl; now left|].
    intros _ i j row row' _ Hi. inversion Hi.
  - cbn [load_rows] in Hload.
    apply bind_Ok in Hload as (skipped & Hskipped & Hload).
    destruct skipped.
    + (* the row is skipped *)
      destruct skip; [|discriminate].
      destruct (IH _ _ Hload) as (kept & Hdata & Hsub & _ & Hfresh & Hdom & Hval & Hdist).
      exists kept. split; [exact Hdata|].
      split; [cbn [fmap list_fmap]; now apply sublist_cons|].
      split; [discriminate|].
      split; [exact Hfresh|]. split; [exact Hdom|]. split; [exact Hval | exact Hdist].
    + set (row := pad_row (Str <$> r)) in *.
      destruct (pad_row_lookup_0 r) as (id & Hid & Hfirst). fold row in Hid.
      destruct (pad_row_lookup_2 r) as (c2 & Hc2). fold row in Hc2.
      assert (row_id row = id) as Hrid by (unfold row_id; now rewrite Hid).
      assert (skip = true -> al !! id = None) as Hnew.
      { intros ->. cbn in Hskipped.
        apply bind_Ok in Hskipped as (c0 & Hc0 & Hskipped). injection Hskipped as Hs.
        unfold py_index in Hc0. destruct r as [|s r]; [discriminate|].
        simpl in Hc0. injection Hc0 as <-.
        rewrite (Hfirst s eq_refl).
        unfold in_already_labeled in Hs. cbn [str] in Hs.
        apply bool_decide_eq_false in Hs. now apply eq_None_not_Some. }
      unfold py_index in Hload. rewrite Hc2 in Hload. cbn [bind] in Hload.
      assert (labeled_row row = not_empty_string c2) as Hlab
        by (unfold labeled_row; now rewrite Hc2).
      destruct (not_empty_string c2) eqn:Ec2.
      * rewrite Hid in Hload. cbn [bind str] in Hload.
        destruct (IH _ _ Hload) as (kept & Hdata & Hsub & Hall & Hfresh & Hdom & Hval & Hdist).
        exists (row :: kept). split; [now rewrite Hdata, <- app_assoc|].
        split; [cbn [fmap list_fmap]; now apply sublist_skip|].
        split; [intros Hs; cbn [fmap list_fmap]; now rewrite (Hall Hs)|].
        split; [|split; [|split]].
        -- intros Hs row' Hrow'. apply elem_of_cons in Hrow' as [->|Hrow'].
           ++ rewrite Hrid. now apply Hnew.
           ++ specialize (Hfresh Hs row' Hrow').
              apply lookup_insert_None in Hfresh. apply Hfresh.
        -- intros id'. rewrite Hdom. rewrite lookup_insert_is_Some. split.
           ++ intros [[<-|[_ Hold]]|(row' & Hrow' & Hid' & Hl')].
              ** right. exists row. split; [left|]. now split.
              ** now left.
              ** right. exists row'. split; [now right | now split].
           ++ intros [Hold|(row' & Hrow' & Hid' & Hl')].
              ** left. destruct (decide (id = id')); [now left | now right].
              ** apply elem_of_cons in Hrow' as [->|Hrow'].
                 --- left. left. congruence.
                 --- right. now exists row'.
        -- intros id' l Hl. destruct (Hval id' l Hl) as [Hold|(row' & c & Hrow' & ? & ? & ?)].
           ++ apply lookup_insert_Some in Hold as [[<- <-]|[_ Hold]]; [|now left].
              right. exists row, c2. split; [left|]. now repeat split.
           ++ right. exists row', c. split; [now right|]. now repeat split.
        -- intros Hs i j row1 row2 Hij Hi Hj Hl1.
           destruct j as [|j]; [lia|]. cbn in Hj.
           destruct i as [|i]; cbn in Hi.
           ++ injection Hi as <-. rewrite Hrid.
              specialize (Hfresh Hs row2 (list_elem_of_lookup_2 _ _ _ Hj)).
              apply lookup_insert_None in Hfresh. intros Heq. now apply (proj2 Hfresh).
           ++ apply (Hdist Hs i j); [lia | assumption..].
      * destruct (IH _ _ Hload) as (kept & Hdata & Hsub & Hall & Hfresh & Hdom & Hval & Hdist).
        exists (row :: kept). split; [now rewrite Hdata, <- app_assoc|].
        split; [cbn [fmap list_fmap]; now apply sublist_skip|].
        split; [intros Hs; cbn [fmap list_fmap]; now rewrite (Hall Hs)|].
        split; [|split; [|split]].
        -- intros Hs row' Hrow'. apply elem_of_cons in Hrow' as [->|Hrow'].
           ++ rewrite Hrid. now apply Hnew.
           ++ now apply Hfresh.
        -- intros id'. rewrite Hdom. split.
           ++ intros [Hold|(row' & Hrow' & Hid' & Hl')]; [now left|].
              right. exists row'. split; [now right | now split].
           ++ intros [Hold|(row' & Hrow' & Hid' & Hl')]; [now left|].
              apply elem_of_cons in Hrow' as [->|Hrow']; [congruence|].
              right. now exists row'.
        -- intros id' l Hl. destruct (Hval id' l Hl) as [Hold|(row' & c & Hrow' & ? & ? & ?)];
             [now left|].
           right. exists row', c. split; [now right|]. now repeat split.
        -- intros Hs i j row1 row2 Hij Hi Hj Hl1.
           destruct j as [|j]; [lia|]. cbn in Hj.
           destruct i as [|i]; cbn in Hi.
           ++ injection Hi as <-. congruence.
           ++ apply (Hdist Hs i j); [lia | assumption..].
Qed.

Lemma load_rows_step_kept (skip : bool) (r : list string) (rows : list (list string))
    (al : gmap string string) (data : list (list cell)) :
  (skip = true -> r <> [] /\ al !! row_id (pad_row (Str <$> r)) = None) ->
  exists al1,
    load_rows skip (r :: rows) al data =
    load_rows skip rows al1 (data ++ [pad_row (Str <$> r)]).
Proof.
  intros Hkept. cbn [load_rows].
  destruct (pad_row_lookup_0 r) as (id & Hid & Hfirst).
  destruct (pad_row_lookup_2 r) as (c2 & Hc2).
  assert ((if skip then
             let! id := py_index (Str <$> r) 0 in
             Ok (in_already_labeled al (str id))
           else Ok false) = Ok false) as ->.
  { destruct skip; [|reflexivity]. destruct (Hkept eq_refl) as [Hr Hal].
    destruct r as [|s r]; [congruence|]. cbn.
    unfold row_id in Hal. rewrite Hid in Hal. cbn in Hal.
    rewrite (Hfirst s eq_refl) in Hal.
    unfold in_already_labeled. rewrite bool_decide_eq_false_2; [reflexivity|].
    rewrite Hal. now intros [? ?]. }
  cbn [bind]. unfold py_index. rewrite Hc2, Hid. cbn [bind].
  destruct (not_empty_string c2); eauto.
Qed.

Lemma load_rows_step_skipped (r : list string) (rows : list (list string))
    (al : gmap string string) (data : list (list cell)) :
  r <> [] -> is_Some (al !! row_id (pad_row (Str <$> r))) ->
  load_rows true (r :: rows) al data = load_rows true rows al data.
Proof.
  intros Hr Hal. cbn [load_rows].
  destruct (pad_row_lookup_0 r) as (id & Hid & Hfirst).
  destruct r as [|s r]; [congruence|]. cbn.
  unfold row_id in Hal. rewrite Hid in Hal. cbn in Hal.
  rewrite (Hfirst s eq_refl) in Hal.
  unfold in_already_labeled. now rewrite bool_decide_eq_true_2.
Qed.

Lemma load_rows_no_skip_returns (rows : list (list string))
    (al : gmap string string) (data : list (list cell)) :
  exists out, load_rows false rows al data = Ok out.
Proof.
  revert al data. induction rows as [|r rows IH]; intros al data; [simpl; eauto|].
  destruct (load_rows_step_kept false r rows al data) as (al1 & ->); [discriminate|].
  apply IH.
Qed.

Lemma load_rows_skip_returns (rows : list (list string))
    (al : gmap string string) (data : list (list cell)) :
  [] ∉ rows -> exists out, load_rows true rows al data = Ok out.
Proof.
  revert al data. induction rows as [|r rows IH]; intros al data Hrows; [simpl; eauto|].
  apply not_elem_of_cons in Hrows as [Hr Hrows].
  destruct (al !! row_id (pad_row (Str <$> r))) as [l|] eqn:Hal.
  - rewrite load_rows_step_skipped; [now apply IH | congruence | now rewrite Hal].
  - destruct (load_rows_step_kept true r rows al data) as (al1 & ->).
    + intros _. split; [congruence | assumption].
    + now apply IH.
Qed.

Lemma load_rows_skip_raises (rows : list (list string))
    (al : gmap string string) (data : list (list cell)) :
  [] ∈ rows -> load_rows true rows al data = Raise IndexError.
Proof.
  revert al data. induction rows as [|r rows IH]; intros al data Hrows;
    [inversion Hrows|].
  destruct (decide (r = [])) as [->|Hr]; [reflexivity|].
  apply elem_of_cons in Hrows as [?|Hrows]; [congruence|].
  destruct (al !! row_id (pad_row (Str <$> r))) as [l|] eqn:Hal.
  - rewrite load_rows_step_skipped; [now apply IH | congruence | now rewrite Hal].
  - destruct (load_rows_step_kept true r rows al data) as (al1 & ->).
    + intros _. split; [congruence | assumption].
    + now apply IH.
Qed.

Lemma load_rows_grows (skip : bool) (rows : list (list string))
    (al : gmap string string) (data data' : list (list cell))
    (al' : gmap string string) :
  load_rows skip rows al data = Ok (data', al') ->
  data ⊆ data' /\ (forall id, is_Some (al !! id) -> is_Some (al' !! id)).
Proof.
  intros Hload.
  destruct (load_rows_spec _ _ _ _ _ _ Hload) as (kept & -> & _ & _ & _ & Hdom & _).
  split; [intros row Hrow; apply elem_of_app; now left|].
  intros id Hid. apply Hdom. now left.
Qed.

(** A row that a run with the flag leaves out has its [ID] in the dictionary. *)
Lemma load_rows_skip_complete (rows : list (list string))
    (al : gmap string string) (data data' : list (list cell))
    (al' : gmap string string) :
  load_rows true rows al data = Ok (data', al') ->
  forall r, r ∈ rows ->
    al' !! row_id (pad_row (Str <$> r)) = None -> pad_row (Str <$> r) ∈ data'.
Proof.
  revert al data. induction rows as [|r0 rows IH]; intros al data Hload r Hr Hnone;
    [inversion Hr|].
  destruct (decide (r0 = [])) as [->|Hr0]; [discriminate|].
  destruct (al !! row_id (pad_row (Str <$> r0))) as [l|] eqn:Hal.
  - rewrite load_rows_step_skipped in Hload; [| congruence | now rewrite Hal].
    apply elem_of_cons in Hr as [->|Hr]; [|now apply (IH _ _ Hload)].
    destruct (load_rows_grows _ _ _ _ _ _ Hload) as [_ Hmono].
    destruct (Hmono (row_id (pad_row (Str <$> r0)))) as [l' Hl']; [now rewrite Hal|].
    congruence.
  - destruct (load_rows_step_kept true r0 rows al data) as (al1 & Hstep).
    + intros _. split; [congruence | assumption].
    + rewrite Hstep in Hload.
      apply elem_of_cons in Hr as [->|Hr]; [|now apply (IH _ _ Hload)].
      destruct (load_rows_grows _ _ _ _ _ _ Hload) as [Hsub _].
      apply Hsub, elem_of_app. right. left.
Qed.

Lemma labeled_row_pad (r : list string) :
  labeled_row (pad_row (Str <$> r)) = true <->
  r = [] \/ exists s, r !! 2%nat = Some s /\ s <> ""%string.
Proof.
  rewrite pad_row_padding. unfold labeled_row.
  destruct r as [|s0 [|s1 [|s2 r]]]; cbn.
  - split; [now left | reflexivity].
  - split; [discriminate | intros [?|(s & ? & _)]; discriminate].
  - split; [discriminate | intros [?|(s & ? & _)]; discriminate].
  - rewrite negb_true_iff, String.eqb_neq. split.
    + intros Hs. right. now exists s2.
    + intros [?|(s & [= <-] & Hs)]; [discriminate | assumption].
Qed.

(** X16. Without [skip_already_labeled], [load_data] never raises and returns
    one row per row of the file, in the order of the file: the row of the
    file followed by its padding.  A row of fewer than two columns ends with
    its length plus three columns, every other row with at least five. *)
Theorem load_data_all_rows (rows : list (list string)) (al : gmap string string) :
  exists al',
    load_data rows false al =
      Ok ((fun r => (Str <$> r) ++ padding (length r)) <$> rows, al') /\
    forall r,
      length ((Str <$> r) ++ padding (length r)) =
      if (length r <? 2)%nat then (length r + 3)%nat else (length r `max` 5)%nat.
Proof.
  unfold load_data.
  destruct (load_rows_no_skip_returns rows al []) as ([data al'] & Hload).
  exists al'. split.
  - rewrite Hload.
    destruct (load_rows_spec _ _ _ _ _ _ Hload) as (kept & -> & _ & Hall & _).
    rewrite (Hall eq_refl). cbn [app]. do 2 f_equal.
    apply list_fmap_ext. intros _ r _. rewrite pad_row_padding.
    now rewrite length_fmap.
  - intros r. rewrite length_app, length_fmap.
    destruct (length r) as [|[|[|[|[|n]]]]]; cbn; lia.
Qed.

(** X17. With [skip_already_labeled], [load_data] raises [IndexError] as
    soon as the file has an empty row, and returns otherwise.  The rows it
    returns are rows of the file in the order of the file, none of them has an
    [ID] of the given dictionary, no row follows a labeled row of the same
    [ID], and every row left out has its [ID] in the returned dictionary. *)
Theorem load_data_skip (rows : list (list string)) (al : gmap string string) :
  ([] ∈ rows -> load_data rows true al = Raise IndexError) /\
  ([] ∉ rows ->
   exists data al',
     load_data rows true al = Ok (data, al') /\
     data `sublist_of` ((fun r => pad_row (Str <$> r)) <$> rows) /\
     (forall row, row ∈ data -> al !! row_id row = None) /\
     (forall i j row row',
        (i < j)%nat -> data !! i = Some row -> data !! j = Some row' ->
        labeled_row row = true -> row_id row' <> row_id row) /\
     (forall r, r ∈ rows -> al' !! row_id (pad_row (Str <$> r)) = None ->
                pad_row (Str <$> r) ∈ data)).
Proof.
  unfold load_data. split; [apply load_rows_skip_raises|].
  intros Hrows.
  destruct (load_rows_skip_returns rows al [] Hrows) as ([data al'] & Hload).
  exists data, al'. split; [exact Hload|].
  destruct (load_rows_spec _ _ _ _ _ _ Hload)
    as (kept & -> & Hsub & _ & Hfresh & _ & _ & Hdist).
  cbn [app]. split; [exact Hsub|]. split; [now apply Hfresh|].
  split; [now apply Hdist|].
  apply (load_rows_skip_complete _ _ _ _ _ Hload).
Qed.

(** X18. When [load_data] returns, the dictionary has the [ID]s it had and
    the [ID]s of the returned rows that carry a label, and nothing else; a
    new value is the label of such a row.  A row carries a label when its
    third column is not empty, and also when the row of the file is empty:
    without [skip_already_labeled] an empty row puts the [ID] [""] in the
    dictionary. *)
Theorem load_data_already_labeled (skip : bool) (rows : list (list string))
    (al : gmap string string) (data : list (list cell)) (al' : gmap string string) :
  load_data rows skip al = Ok (data, al') ->
  (forall id,
     is_Some (al' !! id) <->
     is_Some (al !! id) \/
     exists row, row ∈ data /\ row_id row = id /\ labeled_row row = true) /\
  (forall id l, al' !! id = Some l ->
     al !! id = Some l \/
     exists row c2, row ∈ data /\ row_id row = id /\
                    row !! 2%nat = Some c2 /\ l = str c2) /\
  (forall r, r ∈ rows ->
     labeled_row (pad_row (Str <$> r)) = true <->
     r = [] \/ exists s, r !! 2%nat = Some s /\ s <> ""%string) /\
  (skip = false -> [] ∈ rows -> is_Some (al' !! ""%string)).
Proof.
  unfold load_data. intros Hload.
  destruct (load_rows_spec _ _ _ _ _ _ Hload)
    as (kept & -> & _ & Hall & _ & Hdom & Hval & _).
  cbn [app]. split; [exact Hdom|]. split; [exact Hval|].
  split; [intros r _; apply labeled_row_pad|].
  intros Hskip Hempty. apply Hdom. right.
  exists (pad_row (Str <$> [])). rewrite (Hall Hskip).
  split; [|split; reflexivity].
  apply (list_elem_of_fmap_2 (fun r => pad_row (Str <$> r))) in Hempty.
  exact Hempty.
Qed.

Lemma load_data_skip_witness :
  let rows := [["7"; "flood"; "1"]; ["7"; "flood again"]; ["8"; "storm"]]%string in
  ([] ∉ rows) /\
  exists data al',
    load_data rows true ∅ = Ok (data, al') /\
    data `sublist_of` ((fun r => pad_row (Str <$> r)) <$> rows) /\
    (forall row, row ∈ data -> (∅ : gmap string string) !! row_id row = None) /\
    (forall i j row row',
       (i < j)%nat -> data !! i = Some row -> data !! j = Some row' ->
       labeled_row row = true -> row_id row' <> row_id row) /\
    (forall r, r ∈ rows -> al' !! row_id (pad_row (Str <$> r)) = None ->
               pad_row (Str <$> r) ∈ data).
Proof.
  intros rows.
  assert ([] ∉ rows) as Hrows.
  { intros Hin. repeat (apply elem_of_cons in Hin as [Hin|Hin]; [discriminate|]).
    inversion Hin. }
  split; [exact Hrows|].
  exact (proj2 (load_data_skip rows ∅) Hrows).
Defined.

Lemma load_data_already_labeled_witness :
  let rows := [["7"; "flood"; "1"]; []; ["8"; "storm"]]%string in
  exists data al',
    load_data rows false ∅ = Ok (data, al') /\
    is_Some (al' !! "7"%string) /\ is_Some (al' !! ""%string).
Proof.
  intros rows.
  destruct (load_data rows false ∅) as [[data al']|e] eqn:Hload;
    [|vm_compute in Hload; discriminate].
  exists data, al'. split; [reflexivity|].
  destruct (load_data_already_labeled false rows ∅ data al' Hload)
    as (Hdom & _ & _ & Hempty).
  split.
  - apply Hdom. right.
    assert (data = (fun r => pad_row (Str <$> r)) <$> rows) as ->.
    { vm_compute in Hload. injection Hload as <- _. reflexivity. }
    exists (pad_row (Str <$> ["7"; "flood"; "1"]%string)).
    split; [left | split; reflexivity].
  - apply Hempty; [reflexivity|]. right. left.
Defined.

(** * The features *)

(** ** [create_features] *)

Lemma count_word_lookup (total : gmap string Z) (word w : string) :
  count_word total word !! w =
  if decide (word = w) then Some (default 0%Z (total !! w) + 1)%Z else total !! w.
Proof.
  unfold count_word. destruct (decide (word = w)) as [->|Hne].
  - destruct (total !! w) as [n|] eqn:E; rewrite lookup_insert_eq; reflexivity.
  - destruct (total !! word); now rewrite lookup_insert_ne.
Qed.

Lemma occurrences_cons (w word : string) (words : list string) :
  occurrences w (word :: words) =
  if decide (word = w) then S (occurrences w words) else occurrences w words.
Proof.
  unfold occurrences. rewrite filter_cons.
  destruct (decide (word = w)); reflexivity.
Qed.

Lemma occurrences_pos (w : string) (words : list string) :
  (0 < occurrences w words)%nat <-> w ∈ words.
Proof.
  induction words as [|word words IH]; [split; [cbn; lia | inversion 1]|].
  rewrite occurrences_cons, elem_of_cons.
  destruct (decide (word = w)) as [->|Hne]; [split; [now left | lia]|].
  rewrite IH. split; [now right | intros [?|?]; congruence].
Qed.

Lemma fold_count_word_lookup (words : list string) (total : gmap string Z) (w : string) :
  fold_left count_word words total !! w =
  if decide (occurrences w words = 0%nat) then total !! w
  else Some (default 0%Z (total !! w) + Z.of_nat (occurrences w words))%Z.
Proof.
  revert total. induction words as [|word words IH]; intros total; [reflexivity|].
  cbn [fold_left]. rewrite IH, occurrences_cons, count_word_lookup.
  destruct (decide (word = w)) as [->|Hne].
  - rewrite (decide_False (P := S _ = 0%nat)) by lia.
    destruct (decide (occurrences w words = 0%nat)) as [->|_]; cbn; f_equal; lia.
  - reflexivity.
Qed.

Lemma count_words_lookup (words : list string) (w : string) :
  count_words words !! w =
  if decide (w ∈ words) then Some (Z.of_nat (occurrences w words)) else None.
Proof.
  unfold count_words. rewrite fold_count_word_lookup, lookup_empty.
  pose proof (occurrences_pos w words) as Hpos.
  destruct (decide (occurrences w words = 0%nat)) as [E|E];
    destruct (decide (w ∈ words)) as [Hin|Hin]; try reflexivity.
  - apply Hpos in Hin. lia.
  - exfalso. apply Hin, Hpos. lia.
Qed.

Lemma dense_insert (feature_index : gmap string nat) (word : string) :
  feature_index !! word = None -> dense feature_index ->
  dense (<[word := size feature_index]> feature_index).
Proof.
  intros Hnew (Hlt & Hsurj & Hinj).
  assert (size (<[word := size feature_index]> feature_index) =
          S (size feature_index)) as Hsize by now apply map_size_insert_None.
  unfold dense. rewrite Hsize. split; [|split].
  - intros w i Hw. apply lookup_insert_Some in Hw as [[_ <-]|[_ Hw]]; [lia|].
    apply Hlt in Hw. lia.
  - intros i Hi. destruct (decide (i = size feature_index)) as [->|Hne].
    + exists word. now rewrite lookup_insert_eq.
    + destruct (Hsurj i) as (w & Hw); [lia|]. exists w.
      rewrite lookup_insert_ne; [assumption | congruence].
  - intros w w' i Hw Hw'.
    apply lookup_insert_Some in Hw as [[<- <-]|[Hne Hw]];
      apply lookup_insert_Some in Hw' as [[<- Hi]|[Hne' Hw']]; try reflexivity.
    + apply Hlt in Hw'. lia.
    + subst i. apply Hlt in Hw. lia.
    + now apply (Hinj w w' i).
Qed.

Lemma index_words_spec (minword : Z) (total : gmap string Z) (words : list string)
    (feature_index : gmap string nat) :
  (forall w, w ∈ words -> is_Some (total !! w)) ->
  exists feature_index',
    index_words minword total words feature_index = Some feature_index' /\
    feature_index ⊆ feature_index' /\
    (forall w,
       is_Some (feature_index' !! w) <->
       is_Some (feature_index !! w) \/
       (w ∈ words /\ exists n, total !! w = Some n /\ (minword <= n)%Z)) /\
    (dense feature_index -> dense feature_index').
Proof.
  revert feature_index. induction words as [|word words IH]; intros fi Htotal.
  - exists fi. split; [reflexivity|]. split; [reflexivity|].
    split; [|auto]. intros w. split; [now left|].
    intros [?|[Hin _]]; [assumption | inversion Hin].
  - cbn [index_words]. unfold index_word.
    assert (forall w, w ∈ words -> is_Some (total !! w)) as Htotal'
      by (intros w Hw; apply Htotal; now right).
    destruct (fi !! word) as [i|] eqn:Hword.
    + destruct (IH fi Htotal') as (fi' & -> & Hsub & Hdom & Hdense).
      exists fi'. split; [reflexivity|]. split; [exact Hsub|]. split; [|exact Hdense].
      intros w. rewrite Hdom. split.
      * intros [?|[Hin Hn]]; [now left|]. right. split; [now right | exact Hn].
      * intros [?|[Hin Hn]]; [now left|].
        apply elem_of_cons in Hin as [->|Hin]; [left; now rewrite Hword|].
        right. now split.
    + destruct (Htotal word) as [n Hn]; [left|]. rewrite Hn.
      destruct (minword <=? n)%Z eqn:Hmin.
      * destruct (IH (<[word := size fi]> fi) Htotal') as (fi' & -> & Hsub & Hdom & Hdense).
        exists fi'. split; [reflexivity|].
        split; [etrans; [apply insert_subseteq; exact Hword | exact Hsub]|].
        split; [|intros Hd; now apply Hdense, dense_insert].
        intros w. rewrite Hdom, lookup_insert_is_Some. split.
        -- intros [[<-|[_ ?]]|[Hin Hw]].
           ++ right. split; [left|]. exists n. split; [assumption | lia].
           ++ now left.
           ++ right. split; [now right | exact Hw].
        -- intros [?|[Hin Hw]].
           ++ left. destruct (decide (word = w)); [now left | now right].
           ++ apply elem_of_cons in Hin as [->|Hin]; [left; now left|].
              right. now split.
      * destruct (IH fi Htotal') as (fi' & -> & Hsub & Hdom & Hdense).
        exists fi'. split; [reflexivity|]. split; [exact Hsub|]. split; [|exact Hdense].
        intros w. rewrite Hdom. split.
        -- intros [?|[Hin Hw]]; [now left|]. right. split; [now right | exact Hw].
        -- intros [?|[Hin (m & Hm & Hle)]]; [now left|].
           apply elem_of_cons in Hin as [->|Hin]; [|right; split; eauto].
           rewrite Hn in Hm. injection Hm as <-. lia.
Qed.

(** A second pass over words that are indexed or too rare changes nothing. *)
Lemma index_words_fixed (minword : Z) (total : gmap string Z) (words : list string)
    (feature_index : gmap string nat) :
  (forall w, w ∈ words ->
     is_Some (feature_index !! w) \/
     exists n, total !! w = Some n /\ (n < minword)%Z) ->
  index_words minword total words feature_index = Some feature_index.
Proof.
  induction words as [|word words IH]; intros Hwords; [reflexivity|].
  cbn [index_words]. unfold index_word.
  assert (index_words minword total words feature_index = Some feature_index) as Hrest
    by (apply IH; intros w Hw; apply Hwords; now right).
  destruct (feature_index !! word) as [i|] eqn:Hword; [exact Hrest|].
  destruct (Hwords word) as [[i Hi]|(n & -> & Hn)]; [left | congruence |].
  rewrite (proj2 (Z.leb_gt minword n)) by lia. exact Hrest.
Qed.

Lemma create_features_spec `{Words} (h : heap) (data training_data : list ref)
    (feature_index : gmap string nat) (minword : Z) :
  let words := words_of h (data ++ training_data) in
  exists feature_index',
    create_features h data training_data feature_index minword =
      Some (size feature_index', feature_index') /\
    feature_index ⊆ feature_index' /\
    (forall w,
       is_Some (feature_index' !! w) <->
       is_Some (feature_index !! w) \/
       (w ∈ words /\ (minword <= Z.of_nat (occurrences w words))%Z)) /\
    (dense feature_index -> dense feature_index').
Proof.
  intros words. unfold create_features. fold words.
  destruct (index_words_spec minword (count_words words) words feature_index)
    as (fi' & -> & Hsub & Hdom & Hdense).
  { intros w Hw. rewrite count_words_lookup, decide_True by assumption. eauto. }
  exists fi'. split; [reflexivity|]. split; [exact Hsub|]. split; [|exact Hdense].
  intros w. rewrite Hdom. split.
  - intros [?|[Hin (n & Hn & Hle)]]; [now left|]. right. split; [assumption|].
    rewrite count_words_lookup, decide_True in Hn by assumption.
    injection Hn as <-. exact Hle.
  - intros [?|[Hin Hle]]; [now left|]. right. split; [assumption|].
    exists (Z.of_nat (occurrences w words)). split; [|exact Hle].
    now rewrite count_words_lookup, decide_True.
Qed.

(** ** [make_feature_vector] *)






Lemma dense_empty : dense ∅.
Proof.
  split; [|split].
  - intros w i Hw. now rewrite lookup_empty in Hw.
  - intros i Hi. rewrite map_size_empty in Hi. lia.
  - intros w w' i Hw. now rewrite lookup_empty in Hw.
Qed.

(** X19. [create_features] never raises the [KeyError] of its lookup and
    returns the size of the feature index.  The entries the index had are
    kept; a word is in the index afterwards exactly when it was there or
    occurs at least [minword] times in the texts of [data + training_data];
    a second call on the same texts changes nothing. *)
Theorem create_features_vocabulary `{Words} (h : heap) (data training_data : list ref)
    (feature_index : gmap string nat) (minword : Z) :
  let words := words_of h (data ++ training_data) in
  exists feature_index',
    create_features h data training_data feature_index minword =
      Some (size feature_index', feature_index') /\
    feature_index ⊆ feature_index' /\
    (forall w,
       is_Some (feature_index' !! w) <->
       is_Some (feature_index !! w) \/
       (w ∈ words /\ (minword <= Z.of_nat (occurrences w words))%Z)) /\
    create_features h data training_data feature_index' minword =
      Some (size feature_index', feature_index').
Proof.
  intros words.
  destruct (create_features_spec h data training_data feature_index minword)
    as (fi' & Hrun & Hsub & Hdom & _).
  exists fi'. split; [exact Hrun|]. split; [exact Hsub|]. split; [exact Hdom|].
  unfold create_features. fold words.
  rewrite index_words_fixed; [reflexivity|].
  intros w Hw. destruct (fi' !! w) as [i|] eqn:Hi; [left; eauto|]. right.
  exists (Z.of_nat (occurrences w words)).
  rewrite count_words_lookup, decide_True by assumption. split; [reflexivity|].
  destruct (Z_lt_le_dec (Z.of_nat (occurrences w words)) minword) as [Hlt|Hle];
    [assumption|].
  assert (is_Some (fi' !! w)) as [i' Hi'] by (apply Hdom; right; now split).
  congruence.
Qed.

(** X20. When the indices of the feature index are the numbers below its
    size, each used by one word, as for the empty index of the program, they
    still are after [create_features]: the returned number [n] bounds every
    index, every number below [n] is the index of a word, and no two words
    share an index. *)
Theorem create_features_dense `{Words} (h : heap) (data training_data : list ref)
    (feature_index feature_index' : gmap string nat) (minword : Z) (n : nat) :
  dense feature_index ->
  create_features h data training_data feature_index minword = Some (n, feature_index') ->
  (forall w i, feature_index' !! w = Some i -> (i < n)%nat) /\
  (forall i, (i < n)%nat -> exists w, feature_index' !! w = Some i) /\
  (forall w w' i, feature_index' !! w = Some i -> feature_index' !! w' = Some i -> w = w').
Proof.
  intros Hdense Hrun.
  destruct (create_features_spec h data training_data feature_index minword)
    as (fi' & Hrun' & _ & _ & Hdense').
  rewrite Hrun' in Hrun. injection Hrun as <- <-. now apply Hdense'.
Qed.



Lemma create_features_dense_witness :
  exists feature_index',
    create_features (H := space_words) news [0%nat; 1%nat; 2%nat] [3%nat] ∅ 3 =
      Some (1%nat, feature_index') /\
    (forall w i, feature_index' !! w = Some i -> (i < 1)%nat) /\
    (forall i, (i < 1)%nat -> exists w, feature_index' !! w = Some i) /\
    (forall w w' i, feature_index' !! w = Some i -> feature_index' !! w' = Some i ->
                    w = w').
Proof.
  exists {["the"%string := 0%nat]}.
  assert (create_features (H := space_words) news [0%nat; 1%nat; 2%nat] [3%nat] ∅ 3 =
          Some (1%nat, {["the"%string := 0%nat]})) as Hrun by (vm_compute; reflexivity).
  split; [exact Hrun|].
  exact (create_features_dense (H := space_words) news [0%nat; 1%nat; 2%nat] [3%nat]
           ∅ _ 3 1 dense_empty Hrun).
Defined.



(** * The annotations *)

(** ** [get_annotations] *)

Lemma label_item_at (d : string) (h : heap) (r : ref) (a : string) :
  label_item d h r a r = labeled_item d (h r) a.
Proof.
  unfold label_item, labeled_item, set_strategy, set_label.
  rewrite Nat.eqb_refl. cbn [strategy].
  destruct (String.eqb_spec a "1") as [->|_];
    destruct (String.eqb (strategy (h r)) ""); rewrite ?Nat.eqb_refl; reflexivity.
Qed.

Lemma label_item_other (d : string) (h : heap) (r r' : ref) (a : string) :
  r' <> r -> label_item d h r a r' = h r'.
Proof.
  intros Hne. unfold label_item, set_strategy, set_label.
  destruct (String.eqb _ ""); destruct (Nat.eqb_spec r' r); congruence.
Qed.

Lemma annotation_writes_refl (al : gmap string string) (d : string) (data : list ref)
    (h : heap) :
  annotation_writes al d data h h.
Proof. intros r. repeat split; auto. Qed.

Lemma annotation_writes_trans (al : gmap string string) (d : string) (data : list ref)
    (h1 h2 h3 : heap) :
  annotation_writes al d data h1 h2 -> annotation_writes al d data h2 h3 ->
  annotation_writes al d data h1 h3.
Proof.
  intros H12 H23 r.
  destruct (H12 r) as (Hid & Htext & Hscore & Hlabel & Hstrategy & Hsame).
  destruct (H23 r) as (Hid' & Htext' & Hscore' & Hlabel' & Hstrategy' & Hsame').
  split; [congruence|]. split; [congruence|]. split; [congruence|].
  split; [|split].
  - destruct Hlabel' as [->|Hl]; [exact Hlabel | right; exact Hl].
  - destruct Hstrategy' as [->|[Hempty Hd]]; [exact Hstrategy|].
    destruct Hstrategy as [<-|[Hempty1 Hd1]]; [right; now split|].
    right. split; [assumption | congruence].
  - intros Hr. rewrite Hsame', Hsame; [reflexivity | assumption |].
    rewrite Hid. exact Hr.
Qed.

Lemma label_item_writes (al : gmap string string) (d : string) (data : list ref)
    (h : heap) (r : ref) (a : string) :
  r ∈ data -> in_already_labeled al (textid (h r)) = false ->
  annotation_writes al d data h (label_item d h r a).
Proof.
  intros Hin Hnew r'. destruct (decide (r' = r)) as [->|Hne].
  - rewrite label_item_at. unfold labeled_item. cbn.
    split; [reflexivity|]. split; [reflexivity|]. split; [reflexivity|].
    split; [|split].
    + destruct (String.eqb a "1"); auto.
    + destruct (String.eqb_spec (strategy (h r)) ""); auto.
    + intros [Hl|Hout]; [congruence | contradiction].
  - rewrite (label_item_other _ _ _ _ _ Hne). repeat split; auto.
Qed.

Lemma annotate_writes (al : gmap string string) (d : string) (data : list ref)
    (fuel : nat) (ind : Z) (h : heap) (inputs : list string) (h' : heap) :
  final_heap (annotate fuel al d data ind h inputs) = Some h' ->
  annotation_writes al d data h h'.
Proof.
  revert ind h inputs. induction fuel as [|fuel IH]; intros ind h inputs Hfinal;
    [discriminate|].
  cbn [annotate] in Hfinal.
  destruct (ind <=? Z.of_nat (length data))%Z.
  2:{ injection Hfinal as <-. apply annotation_writes_refl. }
  destruct (data !! Z.to_nat (if (ind <? 0)%Z then 0%Z else ind)) as [item|] eqn:Hitem.
  - destruct (in_already_labeled al (textid (h item))) eqn:Hl; [now apply IH in Hfinal|].
    destruct inputs as [|a inputs];
      [injection Hfinal as <-; apply annotation_writes_refl|].
    destruct (String.eqb a "2"); [now apply IH in Hfinal|].
    destruct (String.eqb a "d"); [now apply IH in Hfinal|].
    destruct (String.eqb a "s");
      [injection Hfinal as <-; apply annotation_writes_refl|].
    apply IH in Hfinal.
    apply (annotation_writes_trans _ _ _ _ (label_item d h item a)); [|exact Hfinal].
    apply label_item_writes; [|exact Hl].
    now apply list_elem_of_lookup_2 in Hitem.
  - destruct inputs as [|a inputs];
      [injection Hfinal as <-; apply annotation_writes_refl|].
    destruct (String.eqb a "2"); now apply IH in Hfinal.
Qed.

Lemma annotate_finishes (al : gmap string string) (d : string) (data : list ref)
    (fuel : nat) (ind : Z) (h : heap) (inputs : list string) :
  (-1 <= ind)%Z ->
  (length inputs * (length data + 3)
   + Z.to_nat (Z.of_nat (length data) + 1 - ind) < fuel)%nat ->
  annotate fuel al d data ind h inputs <> Unfinished.
Proof.
  revert ind h inputs. induction fuel as [|fuel IH]; intros ind h inputs Hind Hfuel;
    [lia|].
  cbn [annotate].
  destruct (Z.leb_spec ind (Z.of_nat (length data))) as [Hle|_]; [|discriminate].
  set (ind' := if (ind <? 0)%Z then 0%Z else ind).
  assert (0 <= ind' /\ ind <= ind' /\ ind' <= Z.of_nat (length data))%Z as Hind'
    by (unfold ind'; destruct (Z.ltb_spec ind 0); lia).
  destruct (data !! Z.to_nat ind') as [item|].
  - destruct (in_already_labeled al (textid (h item))); [apply IH; lia|].
    destruct inputs as [|a inputs]; [discriminate|].
    cbn [length] in Hfuel. rewrite Nat.mul_succ_l in Hfuel.
    destruct (String.eqb a "2"); [apply IH; lia|].
    destruct (String.eqb a "d"); [apply IH; lia|].
    destruct (String.eqb a "s"); [discriminate|].
    apply IH; lia.
  - destruct inputs as [|a inputs]; [discriminate|].
    cbn [length] in Hfuel. rewrite Nat.mul_succ_l in Hfuel.
    destruct (String.eqb a "2"); apply IH; lia.
Qed.

Lemma get_annotations_finishes (al : gmap string string) (data : list ref)
    (d : string) (h : heap) (inputs : list string) :
  get_annotations al data d h inputs <> Unfinished.
Proof. unfold get_annotations. apply annotate_finishes; lia. Qed.

Lemma not_labeled_textid (al : gmap string string) (h h' : heap) (l : list ref) :
  (forall r, textid (h' r) = textid (h r)) ->
  not_labeled al h' l = not_labeled al h l.
Proof.
  intros Hid. unfold not_labeled. apply filter_ext. intros r. now rewrite Hid.
Qed.

Lemma label_item_textid (d : string) (h : heap) (r : ref) (a : string) (r' : ref) :
  textid (label_item d h r a r') = textid (h r').
Proof.
  destruct (decide (r' = r)) as [->|Hne].
  - now rewrite label_item_at.
  - now rewrite label_item_other.
Qed.

(** The run on answers that are all labels: one answer per item that is
    not labeled, then the answer to the last question. *)
Lemma annotate_plain (al : gmap string string) (d : string) (data : list ref)
    (final : string) (rest : list string) (suf : list ref) :
  final <> "2"%string ->
  forall (pre : list ref) (h : heap) (answers : list string) (fuel : nat),
    data = pre ++ suf ->
    length answers = length (not_labeled al h suf) ->
    Forall plain_answer answers ->
    (length suf + 2 <= fuel)%nat ->
    annotate fuel al d data (Z.of_nat (length pre)) h (answers ++ final :: rest) =
    Returns (fold_left (fun h ra => label_item d h ra.1 ra.2)
               (zip (not_labeled al h suf) answers) h) rest.
Proof.
  intros Hfinal. induction suf as [|r suf IH]; intros pre h answers fuel Hdata Hlen Hplain Hfuel.
  - destruct answers; [|discriminate]. rewrite app_nil_r in Hdata. subst pre.
    destruct fuel as [|[|fuel]]; [cbn in Hfuel; lia..|].
    cbn [annotate app].
    rewrite (proj2 (Z.leb_le _ _)) by lia.
    rewrite (proj2 (Z.ltb_ge _ _)) by lia.
    rewrite Nat2Z.id, (lookup_ge_None_2 data (length data)) by lia.
    rewrite (proj2 (String.eqb_neq _ _) Hfinal).
    rewrite (proj2 (Z.leb_gt _ _)) by lia. reflexivity.
  - destruct fuel as [|fuel]; [cbn in Hfuel; lia|]. cbn [length] in Hfuel.
    cbn [annotate].
    rewrite (proj2 (Z.leb_le _ _)) by (subst data; rewrite length_app; lia).
    rewrite (proj2 (Z.ltb_ge _ _)) by lia.
    rewrite Nat2Z.id.
    assert (data !! length pre = Some r) as ->
      by (subst data; now rewrite list_lookup_middle).
    assert (Z.of_nat (length pre) + 1 = Z.of_nat (length (pre ++ [r])))%Z as ->
      by (rewrite length_app; cbn; lia).
    assert (data = (pre ++ [r]) ++ suf) as Hdata'
      by (rewrite <- app_assoc; exact Hdata).
    unfold not_labeled in Hlen |- *. cbn [List.filter] in Hlen |- *.
    fold (not_labeled al h suf) in Hlen |- *.
    destruct (in_already_labeled al (textid (h r))) eqn:Hl; cbn [negb] in Hlen |- *.
    + apply IH; [assumption.. | lia].
    + destruct answers as [|a answers]; [discriminate|].
      apply Forall_cons in Hplain as [(Ha2 & Had & Has) Hplain].
      cbn [app zip zip_with fold_left fst snd].
      rewrite (proj2 (String.eqb_neq _ _) Ha2), (proj2 (String.eqb_neq _ _) Had),
        (proj2 (String.eqb_neq _ _) Has).
      rewrite <- (not_labeled_textid al h (label_item d h r a) suf)
        by (intros r'; apply label_item_textid).
      apply IH; [assumption | | assumption | lia].
      rewrite (not_labeled_textid al h (label_item d h r a) suf)
        by (intros r'; apply label_item_textid).
      cbn in Hlen. lia.
Qed.

Lemma fold_label_item_other (d : string) (zs : list (ref * string)) (h : heap) (r : ref) :
  r ∉ zs.*1 ->
  fold_left (fun h ra => label_item d h ra.1 ra.2) zs h r = h r.
Proof.
  revert h. induction zs as [|[r0 a0] zs IH]; intros h Hr; [reflexivity|].
  cbn [fmap list_fmap fst] in Hr. apply not_elem_of_cons in Hr as [Hne Hr].
  cbn [fold_left fst snd]. rewrite IH by assumption. now apply label_item_other.
Qed.

Lemma fold_label_item_lookup (d : string) (todo : list ref) (answers : list string)
    (h : heap) (k : nat) (r : ref) (a : string) :
  NoDup todo -> todo !! k = Some r -> answers !! k = Some a ->
  fold_left (fun h ra => label_item d h ra.1 ra.2) (zip todo answers) h r =
  labeled_item d (h r) a.
Proof.
  revert answers h k. induction todo as [|r0 todo IH]; intros answers h k Hnd Hr Ha;
    [discriminate|].
  destruct answers as [|a0 answers]; [discriminate|].
  apply NoDup_cons in Hnd as [Hr0 Hnd].
  cbn [zip zip_with fold_left fst snd].
  destruct k as [|k]; cbn in Hr, Ha.
  - injection Hr as ->. injection Ha as ->.
    rewrite fold_label_item_other; [apply label_item_at|].
    intros Hin. apply Hr0. apply list_elem_of_fmap in Hin as ([r' a'] & -> & Hin).
    apply elem_of_zip_l in Hin. exact Hin.
  - rewrite (IH answers _ k Hnd Hr Ha).
    rewrite label_item_other; [reflexivity|].
    intros ->. apply Hr0. now apply list_elem_of_lookup_2 in Hr.
Qed.

Lemma annotate_no_answer (al : gmap string string) (d : string) (data : list ref)
    (fuel : nat) (ind : Z) (h : heap) :
  (-1 <= ind <= Z.of_nat (length data))%Z ->
  (Z.to_nat (Z.of_nat (length data) + 1 - ind) < fuel)%nat ->
  annotate fuel al d data ind h [] = EOFError h.
Proof.
  revert ind. induction fuel as [|fuel IH]; intros ind Hind Hfuel; [lia|].
  cbn [annotate].
  rewrite (proj2 (Z.leb_le _ _)) by lia.
  set (ind' := if (ind <? 0)%Z then 0%Z else ind).
  assert (0 <= ind' /\ ind <= ind' /\ ind' <= Z.of_nat (length data))%Z as Hind'
    by (unfold ind'; destruct (Z.ltb_spec ind 0); lia).
  destruct (data !! Z.to_nat ind') as [item|] eqn:Hitem; [|reflexivity].
  destruct (in_already_labeled al (textid (h item))); [|reflexivity].
  apply lookup_lt_Some in Hitem. apply IH; lia.
Qed.

(** X23. On every tape of answers [get_annotations] comes to an end: it
    returns or raises the [EOFError] of [input], and it raises when there is
    no answer at all.  The heap it leaves has the [ID], the text and the
    score of every item as they were; a label is as it was or is ["0"] or
    ["1"]; a strategy is as it was or was empty and is the default
    strategy; an item whose [ID] is in [already_labeled], or that is not in
    [data], is as it was. *)
Theorem get_annotations_writes (al : gmap string string) (data : list ref)
    (d : string) (h : heap) (inputs : list string) :
  (exists h',
     final_heap (get_annotations al data d h inputs) = Some h' /\
     annotation_writes al d data h h') /\
  get_annotations al data d h [] = EOFError h.
Proof.
  split.
  - destruct (get_annotations al data d h inputs) as [h' rest|h'|] eqn:Hrun.
    + exists h'. split; [reflexivity|].
      unfold get_annotations in Hrun.
      eapply annotate_writes. rewrite Hrun. reflexivity.
    + exists h'. split; [reflexivity|].
      unfold get_annotations in Hrun.
      eapply annotate_writes. rewrite Hrun. reflexivity.
    + now apply get_annotations_finishes in Hrun.
  - unfold get_annotations. apply annotate_no_answer; cbn [length]; lia.
Qed.

(** X24. When [data] has no item twice and the tape has one answer other
    than ["2"], ["d"] and ["s"] for each item of [data] that is not labeled,
    and then an answer other than ["2"] to the last question,
    [get_annotations] returns and leaves the rest of the tape.  The [k]-th
    such item has the label ["1"] when the [k]-th answer is ["1"] and ["0"]
    otherwise, and the default strategy when it had none; every other item
    is as it was. *)
Theorem get_annotations_labels_all (al : gmap string string) (data : list ref)
    (d : string) (h : heap) (answers : list string) (final : string)
    (rest : list string) :
  NoDup data ->
  length answers = length (not_labeled al h data) ->
  Forall plain_answer answers ->
  final <> "2"%string ->
  exists h',
    get_annotations al data d h (answers ++ final :: rest) = Returns h' rest /\
    (forall k r a,
       not_labeled al h data !! k = Some r -> answers !! k = Some a ->
       h' r = labeled_item d (h r) a) /\
    (forall r, r ∉ not_labeled al h data -> h' r = h r).
Proof.
  intros Hnd Hlen Hplain Hfinal.
  exists (fold_left (fun h ra => label_item d h ra.1 ra.2)
            (zip (not_labeled al h data) answers) h).
  split; [|split].
  - unfold get_annotations.
    apply (annotate_plain al d data final rest data Hfinal []); try assumption;
      [reflexivity|].
    rewrite Nat.mul_add_distr_r. lia.
  - intros k r a Hr Ha. apply (fold_label_item_lookup d _ _ h k); try assumption.
    unfold not_labeled. apply NoDup_ListNoDup, List.NoDup_filter, NoDup_ListNoDup, Hnd.
  - intros r Hr. apply fold_label_item_other. intros Hin. apply Hr.
    apply list_elem_of_fmap in Hin as ([r' a'] & -> & Hin).
    now apply elem_of_zip_l in Hin.
Qed.

Lemma get_annotations_labels_all_witness :
  let al : gmap string string := {["d"%string := "1"%string]} in
  exists h',
    get_annotations al [0%nat; 3%nat; 1%nat] "random" news ["1"; "no"; ""; "x"]%string =
      Returns h' ["x"%string] /\
    h' 0%nat = Item "a" "flood in the valley" "1" "random" 0 /\
    h' 1%nat = Item "b" "storm at the coast" "0" "random" 0 /\
    h' 3%nat = quake.
Proof.
  intros al.
  assert (not_labeled al news [0%nat; 3%nat; 1%nat] = [0%nat; 1%nat]) as Htodo
    by reflexivity.
  destruct (get_annotations_labels_all al [0%nat; 3%nat; 1%nat] "random" news
              ["1"; "no"]%string ""%string ["x"%string])
    as (h' & Hrun & Hlabels & Hother).
  - apply (bool_decide_unpack _). reflexivity.
  - reflexivity.
  - repeat constructor; discriminate.
  - discriminate.
  - exists h'. split; [exact Hrun|]. rewrite Htodo in Hlabels, Hother.
    split; [exact (Hlabels 0%nat 0%nat "1"%string eq_refl eq_refl)|].
    split; [exact (Hlabels 1%nat 1%nat "no"%string eq_refl eq_refl)|].
    apply Hother. apply (bool_decide_unpack _). reflexivity.
Defined.

(** ** Runs of the properties of the random and the low confidence samples *)

Lemma get_random_items_writes_witness :
  let already_labeled : gmap string string := {[ "b" := "1" ]} in
  let '(random_items, h', g', caller) :=
    get_random_items already_labeled news [2%nat] [0%nat; 1%nat; 2%nat] 2 in
  random_items <> [] /\
  (forall r, r ∈ random_items -> strategy (h' r) = "random_remaining") /\
  h' 1%nat = storm.
Proof.
  intros already_labeled.
  pose proof (get_random_items_writes already_labeled news [2%nat]
                [0%nat; 1%nat; 2%nat] 2) as Hwrites.
  destruct (get_random_items already_labeled news [2%nat] [0%nat; 1%nat; 2%nat] 2)
    as [[[random_items h'] g'] caller] eqn:Hrun.
  destruct Hwrites as (Hstrategy & Hrest & _).
  vm_compute in Hrun. injection Hrun as <- _ _ _.
  split; [discriminate|]. split; [exact Hstrategy|].
  apply Hrest. apply (bool_decide_unpack _). reflexivity.
Defined.

Lemma get_random_items_labeled_untouched_witness :
  let already_labeled : gmap string string := {[ "b" := "1" ]} in
  let '(random_items, h', g', caller) :=
    get_random_items already_labeled news [2%nat] [0%nat; 1%nat; 2%nat] 5 in
  (1%nat ∉ random_items) /\ h' 1%nat = storm.
Proof.
  intros already_labeled.
  pose proof (get_random_items_labeled_untouched already_labeled news [2%nat]
                [0%nat; 1%nat; 2%nat] 5) as Hskip.
  destruct (get_random_items already_labeled news [2%nat] [0%nat; 1%nat; 2%nat] 5)
    as [[[random_items h'] g'] caller].
  destruct Hskip as (_ & Hlabeled).
  apply (Hlabeled 1%nat). exists "1"%string. reflexivity.
Defined.

Lemma get_low_conf_unlabeled_scores_witness :
  let already_labeled : gmap string string := {[ "b" := "1" ]} in
  let '(out, h', g', caller) :=
    get_low_conf_unlabeled (H := length_classifier) already_labeled news []
      [0%nat; 1%nat; 2%nat] 5 (-1) in
  strategy (h' 0%nat) = "low confidence"%string /\
  (1 # 2 <= score (h' 0%nat))%Q /\
  h' 1%nat = storm.
Proof.
  intros already_labeled.
  pose proof (get_low_conf_unlabeled_scores (H := length_classifier) already_labeled
                news [] [0%nat; 1%nat; 2%nat] 5 (-1)) as Hscores.
  destruct (get_low_conf_unlabeled (H := length_classifier) already_labeled news []
              [0%nat; 1%nat; 2%nat] 5 (-1)) as [[[out h'] g'] caller].
  cbn zeta in Hscores. destruct Hscores as (Hin & Hrest & _).
  destruct (Hin 0%nat) as (Hstrategy & _ & _ & _ & Hhalf);
    [apply (bool_decide_unpack _); reflexivity|].
  split; [exact Hstrategy|]. split; [exact Hhalf|].
  apply Hrest. apply (bool_decide_unpack _). reflexivity.
Defined.

Lemma get_low_conf_unlabeled_order_witness :
  let already_labeled : gmap string string := {[ "b" := "1" ]} in
  let '(out, h', g', caller) :=
    get_low_conf_unlabeled (H := length_classifier) already_labeled news []
      [0%nat; 1%nat; 2%nat] 1 (-1) in
  out = [2%nat] /\
  (forall r, r ∈ out -> already_labeled !! textid (h' r) = None).
Proof.
  intros already_labeled.
  pose proof (get_low_conf_unlabeled_order (H := length_classifier) already_labeled
                news [] [0%nat; 1%nat; 2%nat] 1 (-1)) as Horder.
  destruct (get_low_conf_unlabeled (H := length_classifier) already_labeled news []
              [0%nat; 1%nat; 2%nat] 1 (-1)) as [[[out h'] g'] caller] eqn:Hrun.
  cbn zeta in Horder. destruct Horder as (_ & _ & _ & _ & _ & Hnew & _).
  split; [|exact Hnew].
  vm_compute in Hrun. injection Hrun as <- _ _ _. reflexivity.
Defined.

(** * Floats that round and overflow *)

(** ** The scan and the tests do not depend on the format *)

Lemma rank_scan_Fin (q : Q) (qs : list Q) (i : nat) :
  Double.rank_scan (Double.Fin q) (Double.Fin <$> qs) i = rank_scan q qs i.
Proof.
  revert i. induction qs as [|x qs IH]; intros i; [reflexivity|].
  cbn. destruct (Qltb q x); [reflexivity | apply IH].
Qed.

Lemma is_zero_Fin (d : Q) : ~ (d == 0)%Q -> Double.is_zero (Double.Fin d) = false.
Proof.
  intros Hd. cbn. destruct (Qeq_bool d 0) eqn:E; [|reflexivity].
  now apply Qeq_bool_eq in E.
Qed.

Section Doubles.
Context {format : Double.Format} {laws : Double.FormatLaws}.
Set Default Proof Using "All".

Lemma round_not_NaN (q : Q) : Double.round q <> Double.NaN.
Proof.
  intros E. pose proof (Double.round_monotone q q (Qle_refl q)) as Hle.
  rewrite E in Hle. exact Hle.
Qed.

Lemma round_int_Fin (z : Z) :
  (Z.abs z <= Double.exact_ints)%Z ->
  exists y, Double.round (inject_Z z) = Double.Fin y /\ (y == inject_Z z)%Q.
Proof.
  intros Hz. destruct (Double.round_int z Hz) as [H1 H2].
  destruct (Double.round (inject_Z z)) as [y| | |]; try contradiction.
  exists y. split; [reflexivity|]. simpl in H1, H2. lra.
Qed.

Lemma round_between (lo hi : Z) (q : Q) :
  (Z.abs lo <= Double.exact_ints)%Z -> (Z.abs hi <= Double.exact_ints)%Z ->
  (inject_Z lo <= q <= inject_Z hi)%Q ->
  within (inject_Z lo) (inject_Z hi) (Double.round q).
Proof.
  intros Hlo Hhi [Hq1 Hq2].
  destruct (round_int_Fin lo Hlo) as (l & El & Hl).
  destruct (round_int_Fin hi Hhi) as (u & Eu & Hu).
  pose proof (Double.round_monotone _ _ Hq1) as H1.
  pose proof (Double.round_monotone _ _ Hq2) as H2.
  rewrite El in H1. rewrite Eu in H2.
  destruct (Double.round q) as [y| | |]; try contradiction.
  exists y. split; [reflexivity|]. simpl in H1, H2. lra.
Qed.

Lemma round_01 (q : Q) : (0 <= q <= 1)%Q -> within 0 1 (Double.round q).
Proof.
  pose proof Double.exact_ints_pos.
  intros Hq. apply (round_between 0 1 q); [lia | lia | exact Hq].
Qed.

Lemma round_nonneg (q : Q) :
  (0 <= q)%Q ->
  (exists y, Double.round q = Double.Fin y /\ (0 <= y)%Q) \/
  Double.round q = Double.PInf.
Proof.
  pose proof Double.exact_ints_pos.
  intros Hq. destruct (round_int_Fin 0) as (z & Ez & Hz); [lia|].
  pose proof (Double.round_monotone _ _ Hq) as Hle.
  change (inject_Z 0) with 0%Q in Ez, Hz. rewrite Ez in Hle.
  destruct (Double.round q) as [y| | |]; try contradiction.
  - left. exists y. split; [reflexivity|]. simpl in Hle. lra.
  - now right.
Qed.

Lemma of_int_Fin (n : nat) :
  (Z.of_nat n <= Double.exact_ints)%Z ->
  exists y, Double.of_int n = Double.Fin y /\ (y == Q_of_nat n)%Q.
Proof. intros Hn. apply round_int_Fin. lia. Qed.

Lemma round_Fin_le (a b x y : Q) :
  (a <= b)%Q -> Double.round a = Double.Fin x -> Double.round b = Double.Fin y ->
  (x <= y)%Q.
Proof.
  intros Hab Ea Eb. pose proof (Double.round_monotone _ _ Hab) as Hle.
  now rewrite Ea, Eb in Hle.
Qed.


(** ** The scan and the three branches *)

Lemma representable_Fin (rankings : list Double.float) :
  Forall Double.representable rankings ->
  exists qs, rankings = Double.Fin <$> qs /\
             Forall (fun q => Double.representable (Double.Fin q)) qs.
Proof.
  induction 1 as [|x rankings Hx _ (qs & -> & Hqs)]; [now exists []|].
  destruct x as [q| | |]; try contradiction.
  exists (q :: qs). split; [reflexivity | now constructor].
Qed.



(** The division of the interpolation: the quotient is between 0 and 1. *)
Lemma fdiv_linear (l q h p : Q) :
  Double.representable (Double.Fin l) -> Double.representable (Double.Fin h) ->
  (l <= q < h)%Q ->
  Double.round (q - l) = Double.Fin p ->
  exists lin,
    Double.fdiv (Double.Fin p) (Double.round (h - l)) = Ok (Double.Fin lin) /\
    (0 <= lin <= 1)%Q.
Proof.
  intros Hl Hh Hq Ep.
  assert (0 <= p)%Q as Hp.
  { destruct (round_nonneg (q - l)) as [(y & Ey & Hy)|E]; [lra | | congruence].
    rewrite Ep in Ey. now injection Ey as ->. }
  destruct (round_nonneg (h - l)) as [(d & Ed & Hd)|E]; [lra | |].
  - assert (~ (d == 0)%Q) as Hd0.
    { intros E0. apply (Double.round_difference h l Hh Hl); [lra|].
      rewrite Ed. split; simpl; lra. }
    assert (p <= d)%Q as Hpd by (apply (round_Fin_le (q - l) (h - l)); [lra | assumption..]).
    destruct (round_01 (p / d)) as (lin & Elin & Hlin).
    { split.
      - apply Qle_shift_div_l; lra.
      - apply Qle_shift_div_r; lra. }
    exists lin. split; [|exact Hlin].
    rewrite Ed. unfold Double.fdiv. rewrite is_zero_Fin by assumption.
    now rewrite Elin.
  - exists 0%Q. split; [|lra]. now rewrite E.
Qed.

Lemma fdiv_by_length (x n' : Q) (len : nat) :
  (0 < len)%nat -> (n' == Q_of_nat len)%Q ->
  Double.fdiv (Double.Fin x) (Double.Fin n') = Ok (Double.round (x / n')).
Proof.
  intros Hlen Hn. unfold Double.fdiv. rewrite is_zero_Fin; [reflexivity|].
  pose proof (Q_of_nat_pos len Hlen). lra.
Qed.

Lemma get_rank_shape (q : Q) (qs : list Q) :
  rankable (Double.Fin q) (Double.Fin <$> qs) ->
  let index := rank_scan q qs 0 in
  let len := length qs in
  exists t,
    Double.get_rank (Double.Fin q) (Double.Fin <$> qs) = Ok (Double.round t) /\
    (Q_of_nat (index - 1) / Q_of_nat len <= t <= Q_of_nat index / Q_of_nat len)%Q /\
    (index <= len)%nat /\
    ((index = 0%nat \/ index = len) /\ t = (Q_of_nat index / Q_of_nat len)%Q \/
     (0 < index < len)%nat /\
     exists l h p lin o i' n',
       qs !! (index - 1)%nat = Some l /\ qs !! index = Some h /\
       (l <= q < h)%Q /\
       Double.round (q - l) = Double.Fin p /\
       Double.fdiv (Double.Fin p) (Double.round (h - l)) = Ok (Double.Fin lin) /\
       Double.round (Q_of_nat (index - 1)) = Double.Fin o /\
       Double.round (o + lin) = Double.Fin i' /\
       Double.round (Q_of_nat len) = Double.Fin n' /\
       (n' == Q_of_nat len)%Q /\
       t = (i' / n')%Q).
Proof.
  intros (Hq & Hne & Hqs & Hlen & Hover) index len.
  assert (qs <> []) as Hne' by (intros ->; now apply Hne).
  pose proof (nonempty_length qs Hne') as Hpos. fold len in Hpos.
  pose proof (Q_of_nat_pos len Hpos) as HQpos.
  rewrite length_fmap in Hlen. fold len in Hlen.
  destruct (rank_scan_insertion_position q qs) as (Hidx & Hbefore & Hat).
  fold index len in Hidx, Hbefore, Hat.
  unfold Double.get_rank. rewrite rank_scan_Fin, length_fmap. fold index len.
  destruct (Nat.leb_spec len index) as [Hge|Hlt].
  - (* the maximum *)
    assert (index = len) as Hi by lia.
    exists (Q_of_nat index / Q_of_nat len)%Q.
    unfold Double.int_div. rewrite (proj2 (Nat.eqb_neq len 0)) by lia.
    rewrite Hi. split; [reflexivity|]. split; [|split; [lia | left; now split; [right|]]].
    split; [|lra]. apply Qdiv_le_mono; [assumption | apply Q_of_nat_le; lia].
  - destruct (Nat.ltb_spec 0 index) as [Hgt|Hzero].
    + (* the interpolation *)
      destruct (lookup_lt_is_Some_2 qs index Hlt) as [h Eh].
      destruct (lookup_lt_is_Some_2 qs (index - 1)) as [l El]; [lia|].
      assert (l <= q < h)%Q as Hlqh.
      { split; [apply (Hbefore (index - 1)%nat l); [lia | assumption] | now apply Hat]. }
      unfold py_index. rewrite !list_lookup_fmap, Eh, El. cbn [fmap option_fmap option_map bind].
      assert (Double.representable (Double.Fin l)) as Hl.
      { rewrite Forall_fmap in Hqs. rewrite Forall_forall in Hqs.
        apply Hqs. now apply list_elem_of_lookup_2 in El. }
      assert (Double.representable (Double.Fin h)) as Hh.
      { rewrite Forall_fmap in Hqs. rewrite Forall_forall in Hqs.
        apply Hqs. now apply list_elem_of_lookup_2 in Eh. }
      change (Double.fsub (Double.Fin h) (Double.Fin l)) with (Double.round (h - l)).
      change (Double.fsub (Double.Fin q) (Double.Fin l)) with (Double.round (q - l)).
      destruct (round_nonneg (q - l)) as [(p & Ep & Hp)|E]; [lra | |].
      2:{ exfalso. rewrite Forall_fmap, Forall_forall in Hover.
          apply (Hover l); [now apply list_elem_of_lookup_2 in El | exact E]. }
      destruct (fdiv_linear l q h p Hl Hh Hlqh Ep) as (lin & Elin & Hlin).
      rewrite Ep, Elin. cbn [bind].
      destruct (of_int_Fin (index - 1)) as (o & Eo & Ho); [lia|].
      destruct (of_int_Fin len Hlen) as (n' & En & Hn).
      rewrite Eo, En. cbn [Double.fadd].
      destruct (round_between (Z.of_nat (index - 1)) (Z.of_nat index) (o + lin))
        as (i' & Ei & Hi); [lia | lia | |].
      { fold (Q_of_nat (index - 1)) (Q_of_nat index).
        assert (Q_of_nat index == Q_of_nat (index - 1) + 1)%Q as ->.
        { replace index with (S (index - 1)) at 1 by lia. apply Q_of_nat_S. }
        lra. }
      fold (Q_of_nat (index - 1)) (Q_of_nat index) in Hi.
      rewrite Ei, (fdiv_by_length i' n' len Hpos Hn).
      exists (i' / n')%Q. split; [reflexivity|]. split; [|split; [lia|]].
      * rewrite Hn. split; apply Qdiv_le_mono; lra.
      * right. split; [lia|].
        exists l, h, p, lin, o, i', n'. unfold Double.of_int in Eo, En.
        repeat (split; [first [reflexivity | assumption]|]). reflexivity.
    + (* the minimum *)
      assert (index = 0%nat) as Hi by lia.
      exists (Q_of_nat index / Q_of_nat len)%Q.
      unfold Double.int_div. rewrite (proj2 (Nat.eqb_neq len 0)) by lia.
      split; [reflexivity|]. split; [|split; [lia | left; now split; [left|]]].
      rewrite Hi. cbn. lra.
Qed.


Lemma rankable_Fin (value : Double.float) (rankings : list Double.float) :
  rankable value rankings ->
  exists q qs, value = Double.Fin q /\ rankings = Double.Fin <$> qs.
Proof.
  intros (Hv & _ & Hr & _). destruct value as [q| | |]; try contradiction.
  destruct (representable_Fin rankings Hr) as (qs & -> & _). now exists q, qs.
Qed.

Lemma get_rank_within (value : Double.float) (rankings : list Double.float) :
  rankable value rankings ->
  exists r, Double.get_rank value rankings = Ok r /\ within 0 1 r.
Proof.
  intros Hr. destruct (rankable_Fin _ _ Hr) as (q & qs & -> & ->).
  destruct (get_rank_shape q qs Hr) as (t & Hrun & [Hlo Hhi] & Hidx & _).
  exists (Double.round t). split; [exact Hrun|]. apply round_01.
  assert (qs <> []) as Hne by (intros ->; now apply Hr).
  pose proof (Q_of_nat_pos _ (nonempty_length qs Hne)) as Hpos.
  pose proof (Q_of_nat_le _ _ Hidx) as Hle.
  pose proof (Q_of_nat_le 0 (rank_scan q qs 0 - 1) ltac:(lia)) as Hge.
  change (Q_of_nat 0) with 0%Q in Hge.
  split.
  - apply Qle_trans with (Q_of_nat (rank_scan q qs 0 - 1) / Q_of_nat (length qs))%Q;
      [|exact Hlo].
    apply Qle_shift_div_l; lra.
  - apply Qle_trans with (Q_of_nat (rank_scan q qs 0) / Q_of_nat (length qs))%Q;
      [exact Hhi|].
    apply Qle_shift_div_r; lra.
Qed.

(** The quotient of the interpolation grows with the numerator. *)
Lemma fdiv_linear_mono (l h p1 p2 lin1 lin2 : Q) :
  (l < h)%Q -> (p1 <= p2)%Q ->
  Double.fdiv (Double.Fin p1) (Double.round (h - l)) = Ok (Double.Fin lin1) ->
  Double.fdiv (Double.Fin p2) (Double.round (h - l)) = Ok (Double.Fin lin2) ->
  (lin1 <= lin2)%Q.
Proof.
  intros Hlh Hp E1 E2. unfold Double.fdiv in E1, E2.
  destruct (round_nonneg (h - l)) as [(d & Ed & Hd)|E]; [lra | |].
  - rewrite Ed in E1, E2. cbn [Double.is_zero] in E1, E2.
    destruct (Qeq_bool d 0) eqn:Ez; [discriminate|].
    apply Qeq_bool_neq in Ez.
    injection E1 as E1. injection E2 as E2.
    apply (round_Fin_le (p1 / d) (p2 / d)); [|assumption..].
    apply Qdiv_le_mono; lra.
  - rewrite E in E1, E2. cbn in E1, E2.
    injection E1 as <-. injection E2 as <-. lra.
Qed.

Lemma get_rank_ordered (v1 v2 : Double.float) (rankings : list Double.float) :
  rankable v1 rankings -> rankable v2 rankings -> Double.fle v1 v2 ->
  exists r1 r2,
    Double.get_rank v1 rankings = Ok r1 /\ Double.get_rank v2 rankings = Ok r2 /\
    Double.fle r1 r2.
Proof.
  intros Hr1 Hr2 Hv.
  destruct (rankable_Fin _ _ Hr1) as (q1 & qs & -> & ->).
  destruct v2 as [q2| | |]; try (now destruct Hr2 as [[] _]).
  cbn in Hv.
  destruct (get_rank_shape q1 qs Hr1) as (t1 & Hrun1 & [Hlo1 Hhi1] & Hidx1 & Hshape1).
  destruct (get_rank_shape q2 qs Hr2) as (t2 & Hrun2 & [Hlo2 Hhi2] & Hidx2 & Hshape2).
  exists (Double.round t1), (Double.round t2).
  split; [exact Hrun1|]. split; [exact Hrun2|].
  apply Double.round_monotone.
  assert (qs <> []) as Hne by (intros ->; now apply Hr1).
  pose proof (Q_of_nat_pos _ (nonempty_length qs Hne)) as Hpos.
  pose proof (rank_scan_mono q1 q2 qs Hv) as Hmono.
  set (i1 := rank_scan q1 qs 0) in *. set (i2 := rank_scan q2 qs 0) in *.
  destruct (decide (i1 = i2)) as [Heq|Hneq].
  - (* the same two neighbours *)
    destruct Hshape1 as [[Hend1 ->]|[Hmid1 Hs1]];
      destruct Hshape2 as [[Hend2 ->]|[Hmid2 Hs2]].
    + rewrite Heq. apply Qle_refl.
    + lia.
    + lia.
    + destruct Hs1 as (l & h & p1 & lin1 & o & i1' & n' & El & Eh & Hq1 & Ep1 & Elin1
                       & Eo & Ei1 & En & Hn & ->).
      destruct Hs2 as (l' & h' & p2 & lin2 & o' & i2' & n'' & El' & Eh' & Hq2 & Ep2 & Elin2
                       & Eo' & Ei2 & En' & Hn' & ->).
      rewrite <- Heq in El', Eh', Eo'.
      assert (l' = l) as -> by congruence. assert (h' = h) as -> by congruence.
      assert (o' = o) as -> by congruence. assert (n'' = n') as -> by congruence.
      assert (p1 <= p2)%Q as Hp
        by (apply (round_Fin_le (q1 - l) (q2 - l)); [lra | assumption..]).
      assert (lin1 <= lin2)%Q as Hlin
        by (apply (fdiv_linear_mono l h p1 p2); [lra | assumption..]).
      assert (i1' <= i2')%Q as Hi
        by (apply (round_Fin_le (o + lin1) (o + lin2)); [lra | assumption..]).
      apply Qdiv_le_mono; lra.
  - (* v2 is further up the list *)
    assert (i1 <= i2 - 1)%nat as Hlt by lia.
    apply Qle_trans with (Q_of_nat i1 / Q_of_nat (length qs))%Q; [exact Hhi1|].
    apply Qle_trans with (Q_of_nat (i2 - 1) / Q_of_nat (length qs))%Q; [|exact Hlo2].
    apply Qdiv_le_mono; [assumption | now apply Q_of_nat_le].
Qed.

(** ** The two scores *)






End Doubles.

(** ** The format of the examples *)

Lemma exact_below_laws (max : Q) (ints : Z) :
  (1 <= ints)%Z -> (inject_Z ints <= max)%Q ->
  Double.FormatLaws (H := exact_below max ints).
Proof.
  intros Hints Hmax. split.
  - intros a b Hab. unfold exact_below, Double.round.
    destruct (Qle_bool (Qabs a) max) eqn:Ea; destruct (Qle_bool (Qabs b) max) eqn:Eb;
      destruct (Qle_bool 0 a) eqn:Eza; destruct (Qle_bool 0 b) eqn:Ezb; cbn; try exact I;
      try assumption; exfalso;
      repeat match goal with
      | E : Qle_bool (Qabs _) _ = true |- _ =>
          apply Qle_bool_iff, Qabs_Qle_condition in E
      | E : Qle_bool _ _ = true |- _ => apply Qle_bool_iff in E
      | E : Qle_bool (Qabs ?x) ?m = false |- _ =>
          assert (~ (- m <= x <= m)%Q)
            by (rewrite <- Qabs_Qle_condition, <- Qle_bool_iff; congruence);
          clear E
      | E : Qle_bool _ _ = false |- _ =>
          apply not_true_iff_false in E; rewrite Qle_bool_iff in E
      end; lra.
  - intros z Hz. unfold exact_below, Double.round, Double.exact_ints in *.
    assert (Qle_bool (Qabs (inject_Z z)) max = true) as ->.
    { apply Qle_bool_iff, Qabs_Qle_condition.
      assert (inject_Z (- ints) <= inject_Z z <= inject_Z ints)%Q as [H1 H2]
        by (rewrite <- !Zle_Qle; lia).
      rewrite inject_Z_opp in H1. lra. }
    split; cbn; lra.
  - exact Hints.
  - intros x y _ _ Hxy. unfold exact_below, Double.round.
    destruct (Qle_bool (Qabs (x - y)) max); [|destruct (Qle_bool 0 (x - y))];
      intros [H1 H2]; cbn in H1, H2; try contradiction.
    apply Hxy. lra.
Qed.

Lemma double_range_laws : Double.FormatLaws (H := double_range).
Proof.
  apply exact_below_laws; [lia|]. rewrite <- Zle_Qle. vm_compute. discriminate.
Qed.

(** ** The exact arithmetic is one of the formats *)

Lemma get_rank_exact (value : Q) (rankings : list Q) :
  Double.get_rank (H := exact) (Double.Fin value) (Double.Fin <$> rankings) =
  (let! r := get_rank value rankings in Ok (Double.Fin r)).
Proof.
  unfold Double.get_rank, get_rank. rewrite rank_scan_Fin, length_fmap.
  set (index := rank_scan value rankings 0).
  assert (forall n, Qeq_bool (Q_of_nat n) 0 = (n =? 0)%nat) as Hzero.
  { intros [|n]; [reflexivity|].
    apply not_true_is_false. intros E. apply Qeq_bool_eq in E.
    pose proof (Q_of_nat_pos (S n) ltac:(lia)). lra. }
  destruct (length rankings <=? index)%nat.
  - cbn [bind]. unfold Double.int_div, py_div. rewrite Hzero.
    now destruct (length rankings =? 0)%nat.
  - destruct (0 <? index)%nat.
    + unfold py_index. rewrite !list_lookup_fmap.
      destruct (rankings !! index) as [hi|]; [|reflexivity].
      destruct (rankings !! (index - 1)%nat) as [lo|]; [|reflexivity].
      cbn [fmap option_fmap option_map bind].
      change (Double.fsub (Double.Fin hi) (Double.Fin lo)) with (Double.Fin (hi - lo)).
      change (Double.fsub (Double.Fin value) (Double.Fin lo))
        with (Double.Fin (value - lo)).
      unfold Double.fdiv, py_div. cbn [Double.is_zero].
      destruct (Qeq_bool (hi - lo) 0); [reflexivity|]. cbn [bind].
      change (Double.of_int (H := exact) (index - 1))
        with (Double.Fin (Q_of_nat (index - 1))).
      change (Double.of_int (H := exact) (length rankings))
        with (Double.Fin (Q_of_nat (length rankings))).
      cbn [Double.fadd Double.is_zero Double.round exact].
      now destruct (Qeq_bool (Q_of_nat (length rankings)) 0).
    + cbn [bind]. unfold Double.int_div, py_div. rewrite Hzero.
      now destruct (length rankings =? 0)%nat.
Qed.

Section DoubleClaims.
Context {format : Double.Format} {laws : Double.FormatLaws}.
Set Default Proof Using "All".


(** C10 (amended): on floats that round and overflow, [get_rank] is
    monotone in the value as long as no subtraction of a ranking from a
    value overflows: for finite [v1 <= v2] and a list of finite rankings
    that is not empty, sorted or not, both calls return and the rank of
    [v1] is at most the rank of [v2]. *)
Theorem get_rank_monotone (rankings : list Double.float) (v1 v2 : Double.float) :
  rankable v1 rankings -> rankable v2 rankings -> Double.fle v1 v2 ->
  exists r1 r2,
    Double.get_rank v1 rankings = Ok r1 /\ Double.get_rank v2 rankings = Ok r2 /\
    within 0 1 r1 /\ within 0 1 r2 /\ Double.fle r1 r2.
Proof.
  intros Hr1 Hr2 Hv.
  destruct (get_rank_ordered v1 v2 rankings Hr1 Hr2 Hv) as (r1 & r2 & E1 & E2 & Hle).
  destruct (get_rank_within v1 rankings Hr1) as (r1' & E1' & Hw1).
  destruct (get_rank_within v2 rankings Hr2) as (r2' & E2' & Hw2).
  exists r1, r2. repeat split; try assumption; congruence.
Qed.

End DoubleClaims.


(** C10 (as stated): in the sorted list [[-2^1023, 1.5 * 2^1023]] the
    rank of [0.0] is [0.0] and the rank of [2^1023] is NaN, and
    [0.0 <= nan] is false. *)
Lemma get_rank_not_monotone :
  let rankings := [Double.Fin (inject_Z (- 2 ^ 1023)); Double.Fin (inject_Z (3 * 2 ^ 1022))] in
  let v1 := Double.Fin 0 in
  let v2 := Double.Fin (inject_Z (2 ^ 1023)) in
  StronglySorted Double.fle rankings /\
  Double.fle v1 v2 /\
  exists r1 r2,
    Double.get_rank (H := double_range) v1 rankings = Ok r1 /\
    Double.get_rank (H := double_range) v2 rankings = Ok r2 /\
    Double.feq r1 (Double.Fin 0) /\ r2 = Double.NaN /\
    ~ Double.fle r1 r2.
Proof.
  intros rankings v1 v2. split; [|split].
  - repeat constructor. vm_compute. discriminate.
  - vm_compute. discriminate.
  - eexists _, _. split; [vm_compute; reflexivity|]. split; [vm_compute; reflexivity|].
    split; [split; vm_compute; discriminate|]. split; [reflexivity|].
    intros Hle. exact Hle.
Qed.

(** ** Runs in the format of the examples *)

Lemma rankable_example (q : Q) :
  (Qabs q <= 8)%Q ->
  rankable (H := double_range) (Double.Fin q)
    [Double.Fin 1; Double.Fin 3; Double.Fin 5].
Proof.
  intros Hq. apply Qabs_Qle_condition in Hq.
  assert (forall x, (Qabs x <= 16)%Q ->
            Double.round (Format := double_range) x = Double.Fin x) as Hround.
  { intros x Hx. unfold double_range, exact_below, Double.round.
    rewrite (proj2 (Qle_bool_iff _ _)); [reflexivity|].
    apply Qle_trans with 16%Q; [exact Hx|]. vm_compute. discriminate. }
  assert (forall x, (Qabs x <= 16)%Q ->
            Double.representable (H := double_range) (Double.Fin x)) as Hrep.
  { intros x Hx. unfold Double.representable. rewrite (Hround x Hx).
    split; apply Qle_refl. }
  split; [apply Hrep, Qabs_Qle_condition; lra|].
  split; [discriminate|].
  split; [repeat constructor; apply Hrep; vm_compute; discriminate|].
  split; [vm_compute; discriminate|].
  repeat constructor; unfold Double.fsub, Double.fopp, Double.fadd;
    rewrite Hround; try discriminate; apply Qabs_Qle_condition; lra.
Qed.


Lemma get_rank_monotone_witness :
  let rankings := [Double.Fin 1; Double.Fin 3; Double.Fin 5] in
  rankable (H := double_range) (Double.Fin 2) rankings /\
  rankable (H := double_range) (Double.Fin 4) rankings /\
  Double.fle (Double.Fin 2) (Double.Fin 4) /\
  exists r1 r2,
    Double.get_rank (H := double_range) (Double.Fin 2) rankings = Ok r1 /\
    Double.get_rank (H := double_range) (Double.Fin 4) rankings = Ok r2 /\
    within 0 1 r1 /\ within 0 1 r2 /\ Double.fle r1 r2.
Proof.
  intros rankings.
  assert (rankable (H := double_range) (Double.Fin 2) rankings) as H2
    by (apply rankable_example; vm_compute; discriminate).
  assert (rankable (H := double_range) (Double.Fin 4) rankings) as H4
    by (apply rankable_example; vm_compute; discriminate).
  assert (Double.fle (Double.Fin 2) (Double.Fin 4)) as Hle
    by (vm_compute; discriminate).
  split; [exact H2|]. split; [exact H4|]. split; [exact Hle|].
  exact (get_rank_monotone (laws := double_range_laws) rankings _ _ H2 H4 Hle).
Defined.
